(** * The transfer engine of the rebudget tool

    A shallow embedding of the pure helpers and of the ledger functions
    ([toCents], [fromCents], [isMtdcEligible], [computeTransferImpact],
    [applyOne], [projectWithTransfers]) together with the properties the
    specification states about them.

    Layout:
    - [JS]      the fragment of the language the engine relies on: numbers
                with their three special values, the [Math] functions, the
                string methods, [parseInt], [Number] and [toFixed];
    - [Engine]  the engine on row values, one definition per source function;
    - [Store]   the same ledger functions over an object store, where rows
                and arrays are references and assignments are writes; it is
                there for the statements about what a call may modify;
    - [Csv]     the CSV helpers and the loader of budget files, with the
                string methods they use;
    - [App]     what the panels compute around the engine: normalised
                rows, snapshot, projection, offered accounts, preview,
                the Apply button, the export of the final budget;
    - [Views]   the vocabulary of the statements. *)

From Stdlib Require Import ZArith QArith Qround Qabs String Ascii List Bool Lia
  Lqa.
From Stdlib Require Import DecimalString DecimalN DecimalPos.
From stdpp Require Import base list strings.

Local Open Scope string_scope.
Local Open Scope Z_scope.

(* ================================================================== *)
(** * The language fragment *)
(* ================================================================== *)

Module JS.

(** ** Numbers

    A [number] is a double.  The finite ones are kept as exact rationals:
    the engine only adds, subtracts and rounds amounts of money, and no
    property below looks at the last bits of a mantissa.  The three special
    values are kept apart, since the guards of the engine ([<=], [<], [!==],
    truthiness) treat them differently from every finite value.  The two
    zeros are identified: the only denominators in the engine are [100] and
    [1 + rate], and neither can be the negative zero. *)

Inductive number : Type :=
| Fin (q : Q)
| PInf
| NInf
| NaN.

Definition of_Z (z : Z) : number := Fin (inject_Z z).

Definition neg (a : number) : number :=
  match a with
  | Fin q => Fin (- q)
  | PInf => NInf
  | NInf => PInf
  | NaN => NaN
  end.

(** [a + b] *)
Definition add (a b : number) : number :=
  match a, b with
  | NaN, _ | _, NaN => NaN
  | Fin x, Fin y => Fin (x + y)
  | PInf, NInf | NInf, PInf => NaN
  | PInf, _ | _, PInf => PInf
  | NInf, _ | _, NInf => NInf
  end.

(** [a - b] *)
Definition sub (a b : number) : number := add a (neg b).

(** The infinity with the sign of [q] times the sign of [inf]; [0 * Infinity]
    is [NaN]. *)
Definition scale_inf (q : Q) (inf : number) : number :=
  match (q ?= 0)%Q with
  | Eq => NaN
  | Gt => inf
  | Lt => neg inf
  end.

(** [a * b] *)
Definition mul (a b : number) : number :=
  match a, b with
  | NaN, _ | _, NaN => NaN
  | Fin x, Fin y => Fin (x * y)
  | Fin x, PInf => scale_inf x PInf
  | Fin x, NInf => scale_inf x NInf
  | PInf, Fin y => scale_inf y PInf
  | NInf, Fin y => scale_inf y NInf
  | PInf, PInf | NInf, NInf => PInf
  | PInf, NInf | NInf, PInf => NInf
  end.

(** [a / b] *)
Definition div (a b : number) : number :=
  match a, b with
  | NaN, _ | _, NaN => NaN
  | Fin x, Fin y =>
      if Qeq_bool y 0 then
        match (x ?= 0)%Q with Eq => NaN | Gt => PInf | Lt => NInf end
      else Fin (x / y)
  | Fin _, PInf | Fin _, NInf => Fin 0
  | PInf, Fin y => if Qle_bool 0 y then PInf else NInf
  | NInf, Fin y => if Qle_bool 0 y then NInf else PInf
  | PInf, PInf | PInf, NInf | NInf, PInf | NInf, NInf => NaN
  end.

(** Rounding towards zero. *)
Definition Qtrunc (q : Q) : Z :=
  if Qle_bool 0 q then Qfloor q else Qceiling q.

(** [a % b]: the remainder has the sign of the dividend. *)
Definition rem (a b : number) : number :=
  match a, b with
  | NaN, _ | _, NaN => NaN
  | PInf, _ | NInf, _ => NaN
  | Fin x, PInf | Fin x, NInf => Fin x
  | Fin x, Fin y =>
      if Qeq_bool y 0 then NaN
      else Fin (x - y * inject_Z (Qtrunc (x / y)))
  end.

(** [a < b]; every comparison with [NaN] is false. *)
Definition ltb (a b : number) : bool :=
  match a, b with
  | NaN, _ | _, NaN => false
  | Fin x, Fin y => negb (Qle_bool y x)
  | NInf, NInf => false
  | NInf, _ => true
  | _, NInf => false
  | PInf, _ => false
  | Fin _, PInf => true
  end.

(** [a <= b] *)
Definition leb (a b : number) : bool :=
  match a, b with
  | NaN, _ | _, NaN => false
  | Fin x, Fin y => Qle_bool x y
  | NInf, _ => true
  | _, PInf => true
  | PInf, _ => false
  | Fin _, NInf => false
  end.

(** [a === b] on numbers; [NaN] differs from itself. *)
Definition strict_eq (a b : number) : bool :=
  match a, b with
  | Fin x, Fin y => Qeq_bool x y
  | PInf, PInf | NInf, NInf => true
  | _, _ => false
  end.

(** A number used as a condition: zero and [NaN] are falsy. *)
Definition truthy (a : number) : bool :=
  match a with
  | Fin q => negb (Qeq_bool q 0)
  | PInf | NInf => true
  | NaN => false
  end.

(** [a || b] on numbers *)
Definition or_else (a b : number) : number := if truthy a then a else b.

Definition Math_abs (a : number) : number :=
  match a with
  | Fin q => Fin (Qabs q)
  | PInf | NInf => PInf
  | NaN => NaN
  end.

Definition Math_floor (a : number) : number :=
  match a with
  | Fin q => of_Z (Qfloor q)
  | _ => a
  end.

(** [Math.round]: the nearest integer, a tie going up. *)
Definition Math_round (a : number) : number :=
  match a with
  | Fin q => of_Z (Qfloor (q + (1 # 2)))
  | _ => a
  end.

Definition is_integer (q : Q) : bool := Qeq_bool q (inject_Z (Qfloor q)).

(** ** Strings *)

Definition is_digit (c : ascii) : bool :=
  let n := N_of_ascii c in (48 <=? n)%N && (n <=? 57)%N.

Definition digit_val (c : ascii) : Z := Z.of_N (N_of_ascii c) - 48.

(** The characters [parseInt] and [Number] skip: tab, line feed, vertical
    tab, form feed, carriage return and space. *)
Definition is_space (c : ascii) : bool :=
  let n := N_of_ascii c in ((9 <=? n)%N && (n <=? 13)%N) || (n =? 32)%N.

(** The decimal digits of a natural number, as [String(n)] prints them. *)
Definition digits (z : Z) : string :=
  NilEmpty.string_of_uint (N.to_uint (Z.to_N z)).

Fixpoint repeat_char (c : ascii) (n : nat) : string :=
  match n with
  | O => EmptyString
  | S n' => String c (repeat_char c n')
  end.

(** [s.padStart(n, c)] for a one-character filler *)
Definition padStart (n : nat) (c : ascii) (s : string) : string :=
  repeat_char c (n - String.length s) ++ s.

(** [s.padEnd(n, c)] for a one-character filler *)
Definition padEnd (n : nat) (c : ascii) (s : string) : string :=
  s ++ repeat_char c (n - String.length s).

(** [s.slice(0, n)] *)
Fixpoint slice0 (n : nat) (s : string) : string :=
  match n, s with
  | S n', String c s' => String c (slice0 n' s')
  | _, _ => EmptyString
  end.

(** [s.replace(/[^0-9.-]/g, "")]: only digits, dots and minus signs stay. *)
Fixpoint keep_numeric (s : string) : string :=
  match s with
  | EmptyString => EmptyString
  | String c s' =>
      if is_digit c || Ascii.eqb c "." || Ascii.eqb c "-"
      then String c (keep_numeric s')
      else keep_numeric s'
  end.

(** [s.split(".")]: the pieces between the dots; never the empty array. *)
Fixpoint split_dot (s : string) : list string :=
  match s with
  | EmptyString => [EmptyString]
  | String c s' =>
      if Ascii.eqb c "." then EmptyString :: split_dot s'
      else match split_dot s' with
           | p :: ps => String c p :: ps
           | [] => [String c EmptyString]
           end
  end.

(** [s || d] on strings: the empty string is falsy. *)
Definition str_or (s d : string) : string :=
  match s with
  | EmptyString => d
  | _ => s
  end.

Fixpoint skip_spaces (s : string) : string :=
  match s with
  | String c s' => if is_space c then skip_spaces s' else s
  | EmptyString => EmptyString
  end.

(** The longest prefix of decimal digits, read in base ten, the number of
    digits read, and what follows them. *)
Fixpoint read_digits (s : string) (acc : Z) (n : nat) : Z * nat * string :=
  match s with
  | String c s' =>
      if is_digit c then read_digits s' (10 * acc + digit_val c) (S n)
      else (acc, n, s)
  | EmptyString => (acc, n, s)
  end.

(** An optional sign: [true] for a minus. *)
Definition read_sign (s : string) : bool * string :=
  match s with
  | String c s' =>
      if Ascii.eqb c "-" then (true, s')
      else if Ascii.eqb c "+" then (false, s')
      else (false, s)
  | EmptyString => (false, s)
  end.

(** [parseInt(s, 10)] *)
Definition parseInt (s : string) : number :=
  let (minus, s1) := read_sign (skip_spaces s) in
  match read_digits s1 0 O with
  | (_, O, _) => NaN
  | (v, _, _) => of_Z (if minus then - v else v)
  end.

(** A text made of decimal digits only, and the number it denotes. *)
Definition all_digits (s : string) : bool :=
  forallb is_digit (list_ascii_of_string s).

Definition digits_value (s : string) : Z := fst (fst (read_digits s 0 O)).

Fixpoint all_spaces (s : string) : bool :=
  match s with
  | EmptyString => true
  | String c s' => is_space c && all_spaces s'
  end.

(** What follows the prefix [p] in [s], if [s] starts with it. *)
Fixpoint strip_prefix (p s : string) : option string :=
  match p, s with
  | EmptyString, _ => Some s
  | String a p', String b s' =>
      if Ascii.eqb a b then strip_prefix p' s' else None
  | String _ _, EmptyString => None
  end.

(** The value of a digit in a base up to sixteen. *)
Definition radix_digit (base : Z) (c : ascii) : option Z :=
  let n := Z.of_N (N_of_ascii c) in
  let v := if (48 <=? n) && (n <=? 57) then n - 48
           else if (97 <=? n) && (n <=? 102) then n - 87
           else if (65 <=? n) && (n <=? 70) then n - 55
           else 16 in
  if v <? base then Some v else None.

Fixpoint read_radix (base : Z) (s : string) (acc : Z) (n : nat)
  : Z * nat * string :=
  match s with
  | String c s' =>
      match radix_digit base c with
      | Some v => read_radix base s' (base * acc + v) (S n)
      | None => (acc, n, s)
      end
  | EmptyString => (acc, n, s)
  end.

(** The literals [0x..], [0o..] and [0b..], which take no sign. *)
Definition read_prefixed (s : string) : option (Z * string) :=
  match s with
  | String "0" (String c s') =>
      let base :=
        if Ascii.eqb c "x" || Ascii.eqb c "X" then 16
        else if Ascii.eqb c "o" || Ascii.eqb c "O" then 8
        else if Ascii.eqb c "b" || Ascii.eqb c "B" then 2
        else 0 in
      if base =? 0 then None
      else match read_radix base s' 0 O with
           | (_, O, _) => None
           | (v, _, rest) => Some (v, rest)
           end
  | _ => None
  end.

(** The exponent part of a decimal literal; [None] when an [e] is not
    followed by digits. *)
Definition read_exponent (s : string) : option (Z * string) :=
  match s with
  | String c s' =>
      if Ascii.eqb c "e" || Ascii.eqb c "E" then
        let (minus, s2) := read_sign s' in
        match read_digits s2 0 O with
        | (_, O, _) => None
        | (v, _, rest) => Some (if minus then - v else v, rest)
        end
      else Some (0, s)
  | EmptyString => Some (0, s)
  end.

(** A decimal literal: digits, an optional fraction, an optional exponent,
    with a digit on at least one side of the dot. *)
Definition read_decimal (s : string) : option (Q * string) :=
  let '(i, ni, s1) := read_digits s 0 O in
  let '(f, nf, s2) :=
    match s1 with
    | String c s1' =>
        if Ascii.eqb c "." then read_digits s1' 0 O else (0, O, s1)
    | EmptyString => (0, O, s1)
    end in
  match ni, nf with
  | O, O => None
  | _, _ =>
      match read_exponent s2 with
      | None => None
      | Some (e, rest) =>
          Some (((inject_Z i + inject_Z f / inject_Z (10 ^ Z.of_nat nf))
                 * Qpower 10 e)%Q, rest)
      end
  end.

(** [Number(s)] on a string: blanks are trimmed, the empty string is zero,
    anything that is not a numeric literal is [NaN]. *)
Definition Number_of_string (s : string) : number :=
  let t := skip_spaces s in
  if all_spaces t then of_Z 0
  else
    match read_prefixed t with
    | Some (v, rest) => if all_spaces rest then of_Z v else NaN
    | None =>
        let (minus, b) := read_sign t in
        match strip_prefix "Infinity" b with
        | Some rest =>
            if all_spaces rest then (if minus then NInf else PInf) else NaN
        | None =>
            match read_decimal b with
            | Some (q, rest) =>
                if all_spaces rest then Fin (if minus then - q else q)
                else NaN
            | None => NaN
            end
        end
    end.

(** ** Printing numbers

    [String(x)] prints an integer below [10^21] with all its digits.  For
    the other finite values (fractions, and magnitudes from [10^21] on,
    which come out in exponent form) the text depends on the binary
    expansion of the double; it is left as the parameter [exp_form], so
    that what is proved holds whatever these texts are. *)

Section Printing.

Variable exp_form : Q -> string.

(** [String(x)] for a finite [x >= 0] *)
Definition show_nonneg (x : Q) : string :=
  if is_integer x && negb (Qle_bool (inject_Z (10 ^ 21)) x)
  then digits (Qfloor x)
  else exp_form x.

(** [String(a)] *)
Definition Number_toString (a : number) : string :=
  match a with
  | NaN => "NaN"
  | PInf => "Infinity"
  | NInf => "-Infinity"
  | Fin q =>
      if Qle_bool 0 q then show_nonneg q else "-" ++ show_nonneg (- q)
  end.

(** [a.toFixed(2)]: the sign, then the nearest number of hundredths (a tie
    going up) printed with a dot before its last two digits. *)
Definition toFixed2 (a : number) : string :=
  match a with
  | Fin q =>
      let s := if Qle_bool 0 q then "" else "-" in
      let x := Qabs q in
      if Qle_bool (inject_Z (10 ^ 21)) x then s ++ show_nonneg x
      else
        let n := Qfloor (x * 100 + (1 # 2)) in
        let m := padStart 3 "0" (digits n) in
        let k := String.length m in
        s ++ substring 0 (k - 2) m ++ "." ++ substring (k - 2) 2 m
  | _ => Number_toString a
  end.

End Printing.

End JS.

(* ================================================================== *)
(** * The engine on row values *)
(* ================================================================== *)

Module Engine.
Import JS.

(** ** Types *)

Record FaRate : Type := { rate : option number }.

Record WrsAccountNumbers : Type := { indirect_costs : option string }.

(** Every field of the rates document is optional. *)
Record RatesData : Type := {
  fa_rate : option FaRate;
  wrs_account_numbers : option WrsAccountNumbers;
  mtdc_eligible_accounts : option (list string)
}.

Record BudgetRow : Type := {
  account : string;
  description : string;
  current_budget : number;
  proposed_budget : number;
  encumbrances : option number;
  change : option number
}.

Inductive TransferMode : Type := BudgetTotal | DirectToDest.

Record TransferItem : Type := {
  t_id : string;
  t_from : string;
  t_to : string;
  amount_cents : number;
  t_mode : TransferMode
}.

Record MappingRow : Type := {
  m_id : string;
  m_from : string;
  m_to : string;
  source_out_cents : number;
  direct_to_dest_cents : number;
  fa_added_to_fanda_cents : number;
  dest_mtdc_eligible : bool;
  m_mode : TransferMode
}.

(** What [computeTransferImpact] returns. *)
Record Impact : Type := {
  source_out : number;
  direct_to_dest : number;
  fa_added : number;
  eligible : bool
}.

(** The errors the engine throws, one constructor per message. *)
Inductive error : Type :=
| AmountNotPositive                 (* Amount must be greater than zero *)
| DirectFandA                       (* Direct transfers to or from F&A are not allowed. *)
| UnknownSource (acct : string)     (* Unknown source account ... *)
| UnknownDestination (acct : string)(* Unknown destination account ... *)
| SameAccounts                      (* From and To must differ *)
| EncumbranceBreach (acct : string) (* Transfer would breach encumbrance on ... *)
| NegativeBalance (acct : string)   (* Transfer would make ... negative *)
| NotReconciled.                    (* Totals do not reconcile after transfer *)

(** A call either returns or throws. *)
Inductive outcome (A : Type) : Type :=
| Ok (a : A)
| Throw (e : error).
Arguments Ok {A} a.
Arguments Throw {A} e.

#[global] Instance outcome_ret : MRet outcome := fun A a => Ok a.

#[global] Instance outcome_bind : MBind outcome := fun A B k m =>
  match m with
  | Ok a => k a
  | Throw e => Throw e
  end.

(** [if (c) throw e] *)
Definition throw_if (c : bool) (e : error) : outcome unit :=
  if c then Throw e else Ok tt.

Definition is_Ok {A : Type} (m : outcome A) : bool :=
  match m with Ok _ => true | Throw _ => false end.

Section WithPrinting.

Variable exp_form : Q -> string.

(** ** Helpers *)

Definition toCents (v : number + string) : number :=
  let s := match v with
           | inl n => toFixed2 exp_form n
           | inr s => s
           end in
  let parts := split_dot (keep_numeric s) in
  let i := hd "" parts in
  let f := nth 1 parts "" in
  add (mul (parseInt (str_or i "0")) (of_Z 100))
      (or_else (parseInt (slice0 2 (padEnd 2 "0" (str_or f "")))) (of_Z 0)).

Definition fromCents (c : number) : string :=
  (if ltb c (of_Z 0) then "-" else "")
  ++ Number_toString exp_form (Math_floor (div (Math_abs c) (of_Z 100)))
  ++ "."
  ++ padStart 2 "0" (Number_toString exp_form (rem (Math_abs c) (of_Z 100))).

Definition mulRate (cents rate : number) : number :=
  Math_round (mul cents rate).

Definition divByOnePlus (cents rate : number) : number :=
  Math_round (div cents (add (of_Z 1) rate)).

Definition sum (xs : list number) : number :=
  fold_left (fun a b => add a b) xs (of_Z 0).

(** The expression [rates?.wrs_account_numbers?.indirect_costs || "58960"],
    which [isMtdcEligible] and [applyOne] both evaluate. *)
Definition fandaAcctOf (rates : option RatesData) : string :=
  str_or
    (default "" (r ← rates; w ← wrs_account_numbers r; indirect_costs w))
    "58960".

Definition isMtdcEligible (acct : string) (rates : option RatesData) : bool :=
  match rates with
  | None => false
  | Some r =>
      let fanda := fandaAcctOf rates in
      if bool_decide (acct = fanda) then false
      else
        let elig := default [] (mtdc_eligible_accounts r) in
        bool_decide (acct ∈ elig)
  end.

Definition faRateForDest (_destAcct : string) (rates : option RatesData)
  : number :=
  default (of_Z 0) (r ← rates; f ← fa_rate r; rate f).

Definition find_row (acct : string) (rows : list BudgetRow)
  : option (nat * BudgetRow) :=
  list_find (fun r => account r = acct) rows.

Definition encumbrancesFor (acct : string) (snapshot : list BudgetRow)
  : number :=
  default (of_Z 0) (r ← snd <$> find_row acct snapshot; encumbrances r).

Definition not_summary (r : BudgetRow) : bool :=
  negb (bool_decide (account r = "SUMMARY")).

Definition baselineSum (rows : list BudgetRow) : number :=
  sum (map (fun r => toCents (inl (current_budget r)))
           (List.filter not_summary rows)).

Definition computeTransferImpact (ratesData : option RatesData)
    (toAcct : string) (amountCents : number) (mode : TransferMode)
  : outcome Impact :=
  let eligible := isMtdcEligible toAcct ratesData in
  let r := if eligible then faRateForDest toAcct ratesData else of_Z 0 in
  throw_if (leb amountCents (of_Z 0)) AmountNotPositive ;;
  match mode with
  | BudgetTotal =>
      let source_out := amountCents in
      let direct_to_dest :=
        if truthy r then divByOnePlus amountCents r else amountCents in
      let fa_added :=
        if truthy r then sub source_out direct_to_dest else of_Z 0 in
      Ok {| source_out := source_out; direct_to_dest := direct_to_dest;
            fa_added := fa_added; eligible := eligible |}
  | DirectToDest =>
      let direct_to_dest := amountCents in
      let fa_added :=
        if truthy r then mulRate direct_to_dest r else of_Z 0 in
      let source_out := add direct_to_dest fa_added in
      Ok {| source_out := source_out; direct_to_dest := direct_to_dest;
            fa_added := fa_added; eligible := eligible |}
  end.

(** ** The ledger *)

(** The row [applyOne] creates when the working copy has none for the
    indirect-cost account. *)
Definition newFandaRow (fandaAcct : string) : BudgetRow :=
  {| account := fandaAcct;
     description := "F&A";
     current_budget := of_Z 0;
     proposed_budget := of_Z 0;
     change := Some (of_Z 0);
     encumbrances := Some (of_Z 0) |}.

(** [r.proposed_budget = Number(r.proposed_budget) + d] *)
Definition credit (d : number) (r : BudgetRow) : BudgetRow :=
  {| account := account r;
     description := description r;
     current_budget := current_budget r;
     proposed_budget := add (proposed_budget r) d;
     encumbrances := encumbrances r;
     change := change r |}.

(** [r.proposed_budget = Number(r.proposed_budget) - d] *)
Definition debit (d : number) (r : BudgetRow) : BudgetRow :=
  {| account := account r;
     description := description r;
     current_budget := current_budget r;
     proposed_budget := sub (proposed_budget r) d;
     encumbrances := encumbrances r;
     change := change r |}.

(** [r.change = Number(r.proposed_budget) - Number(r.current_budget)] *)
Definition set_change (r : BudgetRow) : BudgetRow :=
  {| account := account r;
     description := description r;
     current_budget := current_budget r;
     proposed_budget := proposed_budget r;
     encumbrances := encumbrances r;
     change := Some (sub (proposed_budget r) (current_budget r)) |}.

(** The working copy: the rows other than SUMMARY, copied, with a row for
    the indirect-cost account pushed at the end when none is found.  The
    second component is the position of [fandaRow] in it. *)
Definition working_copy (fandaAcct : string) (baselineRows : list BudgetRow)
  : list BudgetRow * nat :=
  let rows := List.filter not_summary baselineRows in
  match find_row fandaAcct rows with
  | Some (i, _) => (rows, i)
  | None => ((rows ++ [newFandaRow fandaAcct])%list, length rows)
  end.

(** [if (!row) throw e] *)
Definition found {A : Type} (row : option A) (e : error) : outcome A :=
  match row with
  | Some x => Ok x
  | None => Throw e
  end.

(** The four assignments of [applyOne] once the checks are passed;
    [fromRow], [toRow] and [fandaRow] are positions in [rows], and each
    assignment reads the row as the previous ones left it. *)
Definition post_amounts (impact : Impact) (fromRow toRow fandaRow : nat)
    (rows : list BudgetRow) : list BudgetRow :=
  let rows :=
    alter (debit (Number_of_string (fromCents (source_out impact))))
          fromRow rows in
  let rows :=
    alter (credit (Number_of_string (fromCents (direct_to_dest impact))))
          toRow rows in
  let rows :=
    alter (credit (Number_of_string (fromCents (fa_added impact))))
          fandaRow rows in
  set_change <$> rows.

(** The [logRow] literal. *)
Definition logRowOf (id fromAcct toAcct : string) (impact : Impact)
    (mode : TransferMode) : MappingRow :=
  {| m_id := id;
     m_from := fromAcct;
     m_to := toAcct;
     source_out_cents := source_out impact;
     direct_to_dest_cents := direct_to_dest impact;
     fa_added_to_fanda_cents := fa_added impact;
     dest_mtdc_eligible := eligible impact;
     m_mode := mode |}.

(** [applyOne].  Rows are values here, so [fromRow], [toRow] and [fandaRow]
    are found as positions in [rows].  [id] stands for the identifier the
    source builds from the clock and the random generator. *)
Definition applyOne (id : string) (ratesData : option RatesData)
    (baselineRows snapshot : list BudgetRow) (fromAcct toAcct : string)
    (amountCents : number) (mode : TransferMode)
  : outcome (list BudgetRow * MappingRow) :=
  let fandaAcct := fandaAcctOf ratesData in
  throw_if (bool_decide (fromAcct = fandaAcct)
            || bool_decide (toAcct = fandaAcct)) DirectFandA ;;
  let '(rows, fandaRow) := working_copy fandaAcct baselineRows in
  let fromRow := find_row fromAcct rows in
  let toRow := find_row toAcct rows in
  fromRow ← found fromRow (UnknownSource fromAcct);
  toRow ← found toRow (UnknownDestination toAcct);
  throw_if (bool_decide (fromAcct = toAcct)) SameAccounts ;;
  impact ← computeTransferImpact ratesData toAcct amountCents mode;
  let enc := encumbrancesFor fromAcct snapshot in
  let fromAfter :=
    sub (toCents (inl (proposed_budget (snd fromRow)))) (source_out impact) in
  throw_if (ltb fromAfter (toCents (inl enc))) (EncumbranceBreach fromAcct) ;;
  throw_if (ltb fromAfter (of_Z 0)) (NegativeBalance fromAcct) ;;
  let rows := post_amounts impact (fst fromRow) (fst toRow) fandaRow rows in
  let logRow := logRowOf id fromAcct toAcct impact mode in
  let before := baselineSum baselineRows in
  let after := baselineSum rows in
  throw_if (negb (strict_eq before after)) NotReconciled ;;
  Ok (rows, logRow).

Record Projection : Type := {
  finalRows : list BudgetRow;
  mapping : list MappingRow
}.

(** The loop of [projectWithTransfers]; [ids n] is the identifier given to
    the [n]-th transfer that is applied. *)
Fixpoint project_loop (ids : nat -> string) (n : nat)
    (ratesData : option RatesData) (snapshot : list BudgetRow)
    (working : list BudgetRow) (logs : list MappingRow)
    (transfers : list TransferItem) : outcome Projection :=
  match transfers with
  | [] => Ok {| finalRows := working; mapping := logs |}
  | t :: rest =>
      out ← applyOne (ids n) ratesData working snapshot
              (t_from t) (t_to t) (amount_cents t) (t_mode t);
      project_loop ids (S n) ratesData snapshot (fst out)
                   (logs ++ [snd out])%list rest
  end.

Definition projectWithTransfers (ids : nat -> string)
    (ratesData : option RatesData) (baselineRows snapshot : list BudgetRow)
    (transfers : list TransferItem) : outcome Projection :=
  project_loop ids O ratesData snapshot baselineRows [] transfers.

End WithPrinting.

End Engine.

(* ================================================================== *)
(** * The ledger over an object store *)
(* ================================================================== *)

(** Rows, arrays, transfer items and log rows are objects: a variable holds
    a reference, [{ ...r }] allocates, [r.proposed_budget = v] writes.  The
    store is the list of all objects allocated so far and a reference is a
    position in it.  The rates document is only ever read, through [?.]
    chains, and stays a value. *)

Module Store.
Import JS Engine.

Abbreviation loc := nat.

Inductive cell : Type :=
| Row (r : BudgetRow)
| Arr (refs : list loc)
| Item (t : TransferItem)
| Log (m : MappingRow).

Abbreviation store := (list cell).

(** A call returns, throws, or goes wrong: [Wrong] is a reference that
    does not hold an object of the type the annotations promise. *)
Inductive res (A : Type) : Type :=
| Val (a : A)
| Exn (e : error)
| Wrong.
Arguments Val {A} a.
Arguments Exn {A} e.
Arguments Wrong {A}.

Definition M (A : Type) : Type := store -> res A * store.

#[global] Instance M_ret : MRet M := fun A a σ => (Val a, σ).

#[global] Instance M_bind : MBind M := fun A B k m σ =>
  match m σ with
  | (Val a, σ') => k a σ'
  | (Exn e, σ') => (Exn e, σ')
  | (Wrong, σ') => (Wrong, σ')
  end.

Definition throw {A : Type} (e : error) : M A := fun σ => (Exn e, σ).

Definition wrong {A : Type} : M A := fun σ => (Wrong, σ).

Definition throw_if (c : bool) (e : error) : M unit :=
  if c then throw e else mret tt.

Definition lift {A : Type} (o : outcome A) : M A :=
  match o with
  | Ok a => mret a
  | Throw e => throw e
  end.

(** A new object. *)
Definition alloc (c : cell) : M loc :=
  fun σ => (Val (length σ), (σ ++ [c])%list).

Definition get_row (l : loc) : M BudgetRow := fun σ =>
  match σ !! l with
  | Some (Row r) => (Val r, σ)
  | _ => (Wrong, σ)
  end.

(** An assignment to fields of the row at [l]. *)
Definition update_row (l : loc) (f : BudgetRow -> BudgetRow) : M unit :=
  fun σ =>
  match σ !! l with
  | Some (Row r) => (Val tt, <[l := Row (f r)]> σ)
  | _ => (Wrong, σ)
  end.

Definition get_arr (l : loc) : M (list loc) := fun σ =>
  match σ !! l with
  | Some (Arr refs) => (Val refs, σ)
  | _ => (Wrong, σ)
  end.

(** [a.push(x)] *)
Definition push (a : loc) (x : loc) : M unit := fun σ =>
  match σ !! a with
  | Some (Arr refs) => (Val tt, <[a := Arr (refs ++ [x])%list]> σ)
  | _ => (Wrong, σ)
  end.

Definition get_item (l : loc) : M TransferItem := fun σ =>
  match σ !! l with
  | Some (Item t) => (Val t, σ)
  | _ => (Wrong, σ)
  end.

(** [refs.filter((r) => p(r))] *)
Fixpoint filter_rows (p : BudgetRow -> bool) (refs : list loc)
  : M (list loc) :=
  match refs with
  | [] => mret []
  | l :: refs' =>
      r ← get_row l;
      rest ← filter_rows p refs';
      mret (if p r then l :: rest else rest)
  end.

(** [refs.map((r) => ({ ...r }))] *)
Fixpoint copy_rows (refs : list loc) : M (list loc) :=
  match refs with
  | [] => mret []
  | l :: refs' =>
      r ← get_row l;
      l' ← alloc (Row r);
      rest ← copy_rows refs';
      mret (l' :: rest)
  end.

(** [refs.map((r) => f(r))] for an [f] that only reads. *)
Fixpoint map_rows {A : Type} (f : BudgetRow -> A) (refs : list loc)
  : M (list A) :=
  match refs with
  | [] => mret []
  | l :: refs' =>
      r ← get_row l;
      rest ← map_rows f refs';
      mret (f r :: rest)
  end.

(** [refs.find((r) => r.account === acct)] *)
Fixpoint find_ref (acct : string) (refs : list loc) : M (option loc) :=
  match refs with
  | [] => mret None
  | l :: refs' =>
      r ← get_row l;
      if bool_decide (account r = acct) then mret (Some l)
      else find_ref acct refs'
  end.

(** [refs.forEach((r) => { f(r) })] *)
Fixpoint for_each (f : loc -> M unit) (refs : list loc) : M unit :=
  match refs with
  | [] => mret tt
  | l :: refs' => f l ;; for_each f refs'
  end.

(** [if (!row) throw e] *)
Definition found {A : Type} (row : option A) (e : error) : M A :=
  match row with
  | Some x => mret x
  | None => throw e
  end.

Section WithPrinting.

Variable exp_form : Q -> string.

Definition encumbrancesFor (acct : string) (snapshot : loc) : M number :=
  elems ← get_arr snapshot;
  row ← find_ref acct elems;
  match row with
  | Some l => r ← get_row l; mret (default (of_Z 0) (encumbrances r))
  | None => mret (of_Z 0)
  end.

Definition baselineSum (rows : loc) : M number :=
  elems ← get_arr rows;
  kept ← filter_rows not_summary elems;
  cents ← map_rows (fun r => toCents exp_form (inl (current_budget r))) kept;
  mret (sum cents).

(** The working copy: a new array of copies of the rows other than
    SUMMARY, and the row of the indirect-cost account in it, pushed when
    there is none. *)
Definition working_copy (fandaAcct : string) (baselineRows : loc)
  : M (loc * loc) :=
  elems ← get_arr baselineRows;
  kept ← filter_rows not_summary elems;
  copies ← copy_rows kept;
  rows ← alloc (Arr copies);
  elems ← get_arr rows;
  fandaRow ← find_ref fandaAcct elems;
  fandaRow ← match fandaRow with
             | Some l => mret l
             | None =>
                 l ← alloc (Row (newFandaRow fandaAcct));
                 push rows l ;;
                 mret l
             end;
  mret (rows, fandaRow).

(** The four assignments. *)
Definition post_amounts (impact : Impact) (fromRow toRow fandaRow rows : loc)
  : M unit :=
  update_row fromRow
    (debit (Number_of_string (fromCents exp_form (source_out impact)))) ;;
  update_row toRow
    (credit (Number_of_string (fromCents exp_form (direct_to_dest impact)))) ;;
  update_row fandaRow
    (credit (Number_of_string (fromCents exp_form (fa_added impact)))) ;;
  elems ← get_arr rows;
  for_each (fun l => update_row l set_change) elems.

Definition applyOne (id : string) (ratesData : option RatesData)
    (baselineRows snapshot : loc) (fromAcct toAcct : string)
    (amountCents : number) (mode : TransferMode) : M (loc * loc) :=
  let fandaAcct := fandaAcctOf ratesData in
  throw_if (bool_decide (fromAcct = fandaAcct)
            || bool_decide (toAcct = fandaAcct)) DirectFandA ;;
  '(rows, fandaRow) ← working_copy fandaAcct baselineRows;
  elems ← get_arr rows;
  fromRow ← find_ref fromAcct elems;
  toRow ← find_ref toAcct elems;
  fromRow ← found fromRow (UnknownSource fromAcct);
  toRow ← found toRow (UnknownDestination toAcct);
  throw_if (bool_decide (fromAcct = toAcct)) SameAccounts ;;
  impact ← lift (computeTransferImpact ratesData toAcct amountCents mode);
  enc ← encumbrancesFor fromAcct snapshot;
  fr ← get_row fromRow;
  let fromAfter :=
    sub (toCents exp_form (inl (proposed_budget fr))) (source_out impact) in
  throw_if (ltb fromAfter (toCents exp_form (inl enc)))
           (EncumbranceBreach fromAcct) ;;
  throw_if (ltb fromAfter (of_Z 0)) (NegativeBalance fromAcct) ;;
  post_amounts impact fromRow toRow fandaRow rows ;;
  logRow ← alloc (Log (logRowOf id fromAcct toAcct impact mode));
  before ← baselineSum baselineRows;
  after ← baselineSum rows;
  throw_if (negb (strict_eq before after)) NotReconciled ;;
  mret (rows, logRow).

(** The body of [for (const t of transfers)]. *)
Fixpoint project_loop (ids : nat -> string) (n : nat)
    (ratesData : option RatesData) (snapshot : loc) (working logs : loc)
    (transfers : list loc) : M loc :=
  match transfers with
  | [] => mret working
  | l :: rest =>
      t ← get_item l;
      out ← applyOne (ids n) ratesData working snapshot
              (t_from t) (t_to t) (amount_cents t) (t_mode t);
      push logs (snd out) ;;
      project_loop ids (S n) ratesData snapshot (fst out) logs rest
  end.

(** [projectWithTransfers]; the result is the pair of references
    [{ finalRows, mapping }]. *)
Definition projectWithTransfers (ids : nat -> string)
    (ratesData : option RatesData) (baselineRows snapshot transfers : loc)
  : M (loc * loc) :=
  logs ← alloc (Arr []);
  items ← get_arr transfers;
  working ← project_loop ids O ratesData snapshot baselineRows logs items;
  mret (working, logs).

End WithPrinting.

(** ** Specifications of store computations *)

(** From a store that satisfies [P], the computation [m] returns a value
    and a store that satisfy [Q], or stops (thrown error, wrong reference)
    in a store that satisfies [E]. *)
Definition triple {A : Type} (P : store -> Prop) (m : M A)
    (Q : A -> store -> Prop) (E : store -> Prop) : Prop :=
  forall σ, P σ ->
    match m σ with
    | (Val a, σ') => Q a σ'
    | (_, σ') => E σ'
    end.

(** A computation that leaves the store as it is. *)
Definition readonly {A : Type} (m : M A) : Prop :=
  forall σ, snd (m σ) = σ.

(** The store [σ] still holds, at the same references and with the same
    contents, every object of [σ0]. *)
Definition extends (σ0 σ : store) : Prop := σ0 `prefix_of` σ.

(** The array at [a] was allocated after [σ0], and so was every object it
    refers to. *)
Definition fresh_arr (σ0 : store) (a : loc) (σ : store) : Prop :=
  extends σ0 σ
  /\ (length σ0 <= a)%nat
  /\ exists refs,
       σ !! a = Some (Arr refs)
       /\ Forall (fun l => (length σ0 <= l)%nat) refs.

(** The rows the references [refs] lead to. *)
Definition holds (σ : store) (refs : list loc) (rows : list BudgetRow)
  : Prop :=
  Forall2 (fun l r => σ !! l = Some (Row r)) refs rows.

(** The array at [a] holds the rows [rows]. *)
Definition rows_at (σ : store) (a : loc) (rows : list BudgetRow) : Prop :=
  exists refs, σ !! a = Some (Arr refs) /\ holds σ refs rows.

(** The array at [a] holds the transfer items [items]. *)
Definition items_at (σ : store) (a : loc) (items : list TransferItem)
  : Prop :=
  exists refs,
    σ !! a = Some (Arr refs)
    /\ Forall2 (fun l t => σ !! l = Some (Item t)) refs items.

(** The array at [a] holds the log rows [logs]. *)
Definition logs_at (σ : store) (a : loc) (logs : list MappingRow) : Prop :=
  exists refs,
    σ !! a = Some (Arr refs)
    /\ Forall2 (fun l m => σ !! l = Some (Log m)) refs logs.

(** The array at [a] is a working copy made after [σ0]: it holds [rows] in
    objects of its own, one per position. *)
Definition working (σ0 σ : store) (a : loc) (refs : list loc)
    (rows : list BudgetRow) : Prop :=
  extends σ0 σ
  /\ σ !! a = Some (Arr refs)
  /\ holds σ refs rows
  /\ NoDup refs
  /\ Forall (fun l => (length σ0 <= l)%nat) refs.

End Store.

(* ================================================================== *)
(** * Texts of rows *)
(* ================================================================== *)

(** The string methods the loader and the export rely on, and the two CSV
    helpers.  Characters are the ASCII ones: the blanks [trim] removes are
    those of [JS.is_space], and [toLowerCase] moves the letters A to Z. *)

Module Csv.
Import JS Engine.

Definition comma : ascii := ","%char.
Definition dquote : ascii := "034"%char.
Definition LF : ascii := "010"%char.
Definition CR : ascii := "013"%char.

(** [s.includes(c)] for a one-character [c] *)
Fixpoint includes (c : ascii) (s : string) : bool :=
  match s with
  | EmptyString => false
  | String a s' => Ascii.eqb a c || includes c s'
  end.

(** [s.replace] of every double quote by two of them *)
Fixpoint double_quotes (s : string) : string :=
  match s with
  | EmptyString => EmptyString
  | String a s' =>
      if Ascii.eqb a dquote
      then String dquote (String dquote (double_quotes s'))
      else String a (double_quotes s')
  end.

(** [s.split(c)] for a one-character separator; never the empty array. *)
Fixpoint split_char (c : ascii) (s : string) : list string :=
  match s with
  | EmptyString => [EmptyString]
  | String a s' =>
      if Ascii.eqb a c then EmptyString :: split_char c s'
      else match split_char c s' with
           | p :: ps => String a p :: ps
           | [] => [String a EmptyString]
           end
  end.

(** [s.split(/\r?\n/)]: a line ends at a line feed, and the carriage
    return just before it goes with it. *)
Fixpoint split_lines (s : string) : list string :=
  match s with
  | EmptyString => [EmptyString]
  | String a s' =>
      let push := match split_lines s' with
                  | p :: ps => String a p :: ps
                  | [] => [String a EmptyString]
                  end in
      if Ascii.eqb a LF then EmptyString :: split_lines s'
      else if Ascii.eqb a CR then
        match s' with
        | String b s'' =>
            if Ascii.eqb b LF then EmptyString :: split_lines s'' else push
        | EmptyString => push
        end
      else push
  end.

Definition is_empty (s : string) : bool :=
  match s with EmptyString => true | _ => false end.

(** [s.trimEnd()] *)
Fixpoint trim_end (s : string) : string :=
  match s with
  | EmptyString => EmptyString
  | String a s' =>
      let t := trim_end s' in
      if is_space a && is_empty t then EmptyString else String a t
  end.

(** [s.trim()] *)
Definition trim (s : string) : string := trim_end (skip_spaces s).

Definition lower_char (a : ascii) : ascii :=
  let n := N_of_ascii a in
  if (65 <=? n)%N && (n <=? 90)%N then ascii_of_N (n + 32) else a.

(** [s.toLowerCase()] *)
Fixpoint toLowerCase (s : string) : string :=
  match s with
  | EmptyString => EmptyString
  | String a s' => String (lower_char a) (toLowerCase s')
  end.

(** A cell of a row to export. *)
Inductive field : Type :=
| FText (s : string)
| FNumber (n : number)
| FBool (b : bool).

(** What [parseBudgetCsv] makes of a line; [account] and [description] are
    [undefined] when the line is too short. *)
Record CsvRow : Type := {
  csv_account : option string;
  csv_description : option string;
  csv_current_budget : number;
  csv_proposed_budget : number;
  csv_encumbrances : number
}.

Inductive csv_error : Type :=
| NoRows            (* CSV must have a header and at least one row *)
| MissingColumns.   (* CSV must include account, description, current_budget, proposed_budget *)

(** [header.findIndex((h) => h.toLowerCase() === name.toLowerCase())];
    [None] stands for [-1]. *)
Definition idx (header : list string) (name : string) : option nat :=
  fst <$> list_find
            (fun h => toLowerCase h = toLowerCase name) header.

(** [cells[i]], which is [undefined] out of range and at [-1] *)
Definition cell (cells : list string) (i : option nat) : option string :=
  i ≫= fun i => cells !! i.

(** [Number(c || 0)] *)
Definition number_cell (c : option string) : number :=
  match c with
  | Some s => if is_empty s then of_Z 0 else Number_of_string s
  | None => of_Z 0
  end.

Definition parseBudgetCsv (txt : string) : csv_error + list CsvRow :=
  let lines := List.filter (fun l => negb (is_empty l)) (split_lines txt) in
  if (length lines <? 2)%nat then inl NoRows
  else
    let header := trim <$> split_char comma (hd "" lines) in
    let aIdx := idx header "account" in
    let dIdx := idx header "description" in
    let cIdx := idx header "current_budget" in
    let pIdx := idx header "proposed_budget" in
    let eIdx := idx header "encumbrances" in
    match aIdx, dIdx, cIdx, pIdx with
    | Some _, Some _, Some _, Some _ =>
        inr ((fun line =>
                let cells := trim <$> split_char comma line in
                {| csv_account := cell cells aIdx;
                   csv_description := cell cells dIdx;
                   csv_current_budget := number_cell (cell cells cIdx);
                   csv_proposed_budget := number_cell (cell cells pIdx);
                   csv_encumbrances := number_cell (cell cells eIdx) |})
             <$> tl lines)
    | _, _, _, _ => inl MissingColumns
    end.

Section WithPrinting.

Variable exp_form : Q -> string.

(** [String(f)] *)
Definition String_of (f : field) : string :=
  match f with
  | FText s => s
  | FNumber n => Number_toString exp_form n
  | FBool b => if b then "true" else "false"
  end.

(** One cell of [toCsvRow]. *)
Definition csv_cell (s : string) : string :=
  if includes comma s || includes dquote s || includes LF s
  then String dquote (double_quotes s ++ String dquote EmptyString)
  else s.

Definition toCsvRow (fields : list field) : string :=
  String.concat "," (csv_cell <$> (String_of <$> fields)).

(** The text [downloadCsv] puts in the file it offers for download. *)
Definition csv_text (header : list string) (rows : list (list field))
  : string :=
  String.concat (String LF EmptyString)
    (toCsvRow (FText <$> header) :: (toCsvRow <$> rows)).

End WithPrinting.

End Csv.

(* ================================================================== *)
(** * The panels *)
(* ================================================================== *)

(** What the components compute around the engine: the rows as they are
    normalised once loaded, the snapshot that mirrors them, the projection
    that is displayed, the accounts offered for a transfer, the preview, the
    checks of the Apply button, and the export of the final budget. *)

Module App.
Import JS Engine Csv.

(** [Number(row.x || 0)] for each amount of a loaded row *)
Definition normalizeRow (row : BudgetRow) : BudgetRow :=
  {| account := account row;
     description := description row;
     current_budget := or_else (current_budget row) (of_Z 0);
     proposed_budget := or_else (proposed_budget row) (of_Z 0);
     encumbrances :=
       Some match encumbrances row with
            | Some e => or_else e (of_Z 0)
            | None => of_Z 0
            end;
     change :=
       Some (sub (or_else (proposed_budget row) (of_Z 0))
                 (or_else (current_budget row) (of_Z 0))) |}.

(** [onBudgetLoaded] *)
Definition normalize (b : list BudgetRow) : list BudgetRow :=
  normalizeRow <$> b.

(** [{ ...r, encumbrances: Number(r.encumbrances ?? 0) }] *)
Definition snapshotRow (r : BudgetRow) : BudgetRow :=
  {| account := account r;
     description := description r;
     current_budget := current_budget r;
     proposed_budget := proposed_budget r;
     encumbrances := Some (default (of_Z 0) (encumbrances r));
     change := change r |}.

(** The snapshot after the effect that mirrors the budget has run. *)
Definition mirrorSnapshot (newBudget currentSnapshot : list BudgetRow)
  : list BudgetRow :=
  if (0 <? length newBudget)%nat && (length currentSnapshot =? 0)%nat
  then snapshotRow <$> newBudget
  else currentSnapshot.

(** The rows offered as source and as destination. *)
Definition accounts (newBudget : list BudgetRow)
    (ratesData : option RatesData) : list BudgetRow :=
  List.filter
    (fun r => negb (bool_decide (account r = "SUMMARY"))
              && negb (bool_decide (account r = fandaAcctOf ratesData)))
    newBudget.

(** [mapping.reduce((s, m) => s + (m.fa_added_to_fanda_cents || 0), 0)] *)
Definition addedFA (mapping : list MappingRow) : number :=
  fold_left
    (fun s m => add s (or_else (fa_added_to_fanda_cents m) (of_Z 0)))
    mapping (of_Z 0).

(** What the Apply button answers with [alert]. *)
Inductive alert : Type :=
| SelectFromAndTo                 (* Select From and To *)
| EnterPositiveAmount             (* Enter a positive amount *)
| SourceNotInBaseline             (* Source account not found in baseline *)
| WouldBreach (acct : string)     (* Would breach encumbrance on ... *)
| WouldMakeNegative (acct : string) (* Would make ... negative *)
| Message (e : error).            (* the message of an error of the engine *)

(** The cells of a line of the final budget export. *)
Definition budgetFields (r : BudgetRow) : list field :=
  [ FText (account r); FText (description r);
    FNumber (current_budget r); FNumber (proposed_budget r);
    FNumber (default (of_Z 0) (encumbrances r));
    FNumber (default (sub (proposed_budget r) (current_budget r))
               (change r)) ].

Definition budgetHeader : list string :=
  [ "account"; "description"; "current_budget"; "proposed_budget";
    "encumbrances"; "change" ].

Section WithPrinting.

Variable exp_form : Q -> string.

(** The projection that is displayed: the baseline itself, with an empty
    log, when there is no policy or no row, and when the batch throws (the
    error is then written to the console). *)
Definition projection (ids : nat -> string) (ratesData : option RatesData)
    (newBudget currentSnapshot : list BudgetRow)
    (transfers : list TransferItem) : Projection :=
  let baseline := {| finalRows := newBudget; mapping := [] |} in
  match ratesData with
  | None => baseline
  | Some _ =>
      if (length newBudget =? 0)%nat then baseline
      else
        match projectWithTransfers exp_form ids ratesData newBudget
                currentSnapshot transfers with
        | Ok p => p
        | Throw _ => baseline
        end
  end.

(** The preview of the transfer being typed; [None] for no preview. *)
Definition preview (to amount : string) (mode : TransferMode)
    (ratesData : option RatesData) : option Impact :=
  let cents := toCents exp_form (inr amount) in
  if is_empty to || negb (truthy cents) then None
  else
    match computeTransferImpact ratesData to cents mode with
    | Ok impact => Some impact
    | Throw _ => None
    end.

(** The Apply button: an alert, or the queue with the new transfer at its
    end (the amount typed and the preview are then cleared, which is left
    out).  [id] stands for the identifier made from the clock and the random
    generator. *)
Definition applyClick (id from to amount : string) (mode : TransferMode)
    (newBudget currentSnapshot : list BudgetRow)
    (ratesData : option RatesData) (transfers : list TransferItem)
  : alert + list TransferItem :=
  if is_empty from || is_empty to then inl SelectFromAndTo
  else
    let cents := toCents exp_form (inr amount) in
    if negb (truthy cents) then inl EnterPositiveAmount
    else
      match find_row from newBudget with
      | None => inl SourceNotInBaseline
      | Some (_, fromRow) =>
          let enc := encumbrancesFor from currentSnapshot in
          match computeTransferImpact ratesData to cents mode with
          | Throw e => inl (Message e)
          | Ok impact =>
              let fromAfter :=
                sub (toCents exp_form (inl (proposed_budget fromRow)))
                    (source_out impact) in
              if ltb fromAfter (toCents exp_form (inl enc))
              then inl (WouldBreach from)
              else if ltb fromAfter (of_Z 0)
              then inl (WouldMakeNegative from)
              else inr (transfers
                        ++ [ {| t_id := id; t_from := from; t_to := to;
                                amount_cents := cents; t_mode := mode |} ])%list
          end
      end.

(** The button that exports the final budget: the file name and the text
    handed to [downloadCsv], or [None] when there is nothing to export. *)
Definition exportBudget (finalRows : list BudgetRow)
  : option (string * string) :=
  if (length finalRows =? 0)%nat then None
  else Some ("new_budget_final.csv",
             csv_text exp_form budgetHeader (budgetFields <$> finalRows)).

End WithPrinting.

End App.

(* ================================================================== *)
(** * Vocabulary of the statements *)
(* ================================================================== *)

Module Views.
Import JS Engine Csv App.

(** A text that goes through the file as it is: no comma, no double quote,
    no line feed, no blank at either end. *)
Definition plain (s : string) : Prop :=
  includes comma s = false /\ includes dquote s = false
  /\ includes LF s = false /\ trim s = s.

(** A number whose text is plain, and one that [Number] reads back from
    its text as the number itself. *)
Definition prints_plain (exp_form : Q -> string) (n : number) : Prop :=
  plain (Number_toString exp_form n) /\ Number_toString exp_form n <> "".

Definition reads_back (exp_form : Q -> string) (n : number) : Prop :=
  prints_plain exp_form n
  /\ Number_of_string (Number_toString exp_form n) = n.

(** A row whose line in the exported file can be read again. *)
Definition exportable (exp_form : Q -> string) (r : BudgetRow) : Prop :=
  plain (account r) /\ plain (description r)
  /\ reads_back exp_form (current_budget r)
  /\ reads_back exp_form (proposed_budget r)
  /\ reads_back exp_form (default (of_Z 0) (encumbrances r))
  /\ prints_plain exp_form
       (default (sub (proposed_budget r) (current_budget r)) (change r)).

(** A text with its line feeds turned into carriage return and line
    feed. *)
Fixpoint to_crlf (s : string) : string :=
  match s with
  | EmptyString => EmptyString
  | String a s' =>
      if Ascii.eqb a LF then String CR (String LF (to_crlf s'))
      else String a (to_crlf s')
  end.

(** The row [parseBudgetCsv] makes of the line of a budget row. *)
Definition loaded (r : BudgetRow) : CsvRow :=
  {| csv_account := Some (account r);
     csv_description := Some (description r);
     csv_current_budget := current_budget r;
     csv_proposed_budget := proposed_budget r;
     csv_encumbrances := default (of_Z 0) (encumbrances r) |}.

(** What a transfer never writes in a row. *)
Definition static (r : BudgetRow)
  : string * string * number * option number :=
  (account r, description r, current_budget r, encumbrances r).

(** Whether [k] is the position [find] stops at for the account. *)
Definition first_at (acct : string) (rows : list BudgetRow) (k : nat) : bool :=
  bool_decide (fst <$> find_row acct rows = Some k).

End Views.

(* ================================================================== *)
(** * Sample data *)
(* ================================================================== *)

(** The rates and the budget the upload panel loads in mock mode, and the
    inputs the statements below are tried on. *)

Module Samples.
Import JS Engine.

Definition mockRates : RatesData :=
  {| fa_rate := Some {| rate := Some (Fin (276 # 1000)) |};
     wrs_account_numbers := Some {| indirect_costs := Some "58960" |};
     mtdc_eligible_accounts := Some ["51110"; "52000"; "53000"] |}.

Definition mockRow (acct descr : string) (budget : Z) : BudgetRow :=
  {| account := acct;
     description := descr;
     current_budget := of_Z budget;
     proposed_budget := of_Z budget;
     encumbrances := Some (of_Z 0);
     change := None |}.

Definition mockBudget : list BudgetRow :=
  [ mockRow "53800" "Student Aid" 50000;
    mockRow "51110" "PI Summer" 0;
    mockRow "52000" "Supplies" 20000;
    mockRow "58960" "F&A" 30000 ].

(** The sample amounts are integers below [10^21]; their printing never
    reaches the exponent form. *)
Definition no_exp_form : Q -> string := fun _ => "".

End Samples.

(** The sample transfer: ten thousand dollars for Supplies, taken from
    Student Aid, with what it becomes in the engine and in the files. *)

Module Cases.
Import JS Engine Csv App Samples.

Definition tenThousand : TransferItem :=
  {| t_id := "a"; t_from := "53800"; t_to := "52000";
     amount_cents := of_Z 1000000; t_mode := DirectToDest |}.

Definition impact1 : Impact :=
  {| source_out := of_Z 1276000; direct_to_dest := of_Z 1000000;
     fa_added := of_Z 276000; eligible := true |}.

Definition log1 (id : string) : MappingRow :=
  logRowOf id "53800" "52000" impact1 DirectToDest.

Definition rows1 : list BudgetRow :=
  set_change <$>
    [ debit (Fin (1276000 # 100)) (mockRow "53800" "Student Aid" 50000);
      mockRow "51110" "PI Summer" 0;
      credit (Fin (1000000 # 100)) (mockRow "52000" "Supplies" 20000);
      credit (Fin (276000 # 100)) (mockRow "58960" "F&A" 30000) ].

(** Thirty thousand dollars for Supplies: Student Aid has room for it
    once, not twice. *)
Definition thirtyThousand (id : string) : TransferItem :=
  {| t_id := id; t_from := "53800"; t_to := "52000";
     amount_cents := of_Z 3000000; t_mode := DirectToDest |}.

Definition impact3 : Impact :=
  {| source_out := of_Z 3828000; direct_to_dest := of_Z 3000000;
     fa_added := of_Z 828000; eligible := true |}.

End Cases.

(* ================================================================== *)
(** * Facts about numbers *)
(* ================================================================== *)

Import JS Engine.

Lemma Qplus_0_r_eq (q : Q) : (q + 0)%Q = q.
Proof.
  destruct q as [n d]. unfold Qplus. simpl.
  rewrite Z.mul_1_r, Z.add_0_r, Pos.mul_1_r. reflexivity.
Qed.

Lemma add_zero_r (a : number) : add a (of_Z 0) = a.
Proof.
  destruct a; simpl; try reflexivity.
  change (inject_Z 0) with 0%Q. now rewrite Qplus_0_r_eq.
Qed.

Lemma add_of_Z (a b : Z) : add (of_Z a) (of_Z b) = of_Z (a + b).
Proof.
  unfold of_Z, add, inject_Z, Qplus. simpl.
  now rewrite !Z.mul_1_r.
Qed.

Lemma sub_of_Z (a b : Z) : sub (of_Z a) (of_Z b) = of_Z (a - b).
Proof.
  unfold sub, of_Z, neg, add, inject_Z, Qopp, Qplus. simpl.
  now rewrite !Z.mul_1_r.
Qed.

Lemma mul_of_Z (a b : Z) : mul (of_Z a) (of_Z b) = of_Z (a * b).
Proof. reflexivity. Qed.

Lemma strict_eq_refl (a : number) : a <> NaN -> strict_eq a a = true.
Proof.
  destruct a; simpl; try congruence; intros _.
  apply Qeq_bool_iff. reflexivity.
Qed.

Lemma strict_eq_NaN_l (b : number) : strict_eq NaN b = false.
Proof. reflexivity. Qed.

Lemma leb_of_Z (a b : Z) : leb (of_Z a) (of_Z b) = (a <=? b).
Proof.
  unfold leb, of_Z. apply eq_true_iff_eq.
  rewrite Qle_bool_iff, <- Zle_Qle, Z.leb_le. reflexivity.
Qed.

Lemma ltb_of_Z (a b : Z) : ltb (of_Z a) (of_Z b) = (a <? b).
Proof.
  unfold ltb, of_Z. rewrite Z.ltb_antisym. f_equal.
  apply eq_true_iff_eq.
  rewrite Qle_bool_iff, <- Zle_Qle, Z.leb_le. reflexivity.
Qed.

(** A number above zero is truthy. *)
Lemma ltb_0_truthy (r : number) : ltb (of_Z 0) r = true -> truthy r = true.
Proof.
  destruct r as [q| | |]; simpl; try congruence.
  intros H. apply negb_true_iff in H. apply negb_true_iff.
  apply not_true_iff_false. intros E. apply not_true_iff_false in H.
  apply H. apply Qle_bool_iff. apply Qeq_bool_iff in E. rewrite E.
  apply Qle_refl.
Qed.

Lemma ltb_lt (x y : Q) : ltb (Fin x) (Fin y) = true <-> (x < y)%Q.
Proof.
  simpl. rewrite negb_true_iff, <- not_true_iff_false, Qle_bool_iff.
  split; [apply Qnot_le_lt | apply Qlt_not_le].
Qed.

(** [Math.round] lands on the nearest integer; of two nearest ones, on the
    larger. *)
Lemma Math_round_nearest (q : Q) :
  exists d : Z,
    Math_round (Fin q) = of_Z d
    /\ (inject_Z d - (1 # 2) <= q)%Q /\ (q < inject_Z d + (1 # 2))%Q.
Proof.
  exists (Qfloor (q + (1 # 2))). split; [reflexivity|].
  pose proof (Qfloor_le (q + (1 # 2))) as Hle.
  pose proof (Qlt_floor (q + (1 # 2))) as Hlt.
  split.
  - apply (Qplus_le_l _ _ (1 # 2)). ring_simplify.
    ring_simplify in Hle. exact Hle.
  - apply (Qplus_lt_l _ _ (1 # 2)).
    assert (E : (inject_Z (Qfloor (q + (1 # 2))) + (1 # 2) + (1 # 2)
                 == inject_Z (Qfloor (q + (1 # 2)) + 1))%Q).
    { rewrite inject_Z_plus. ring. }
    rewrite E. exact Hlt.
Qed.

(* ================================================================== *)
(** * Facts about texts *)
(* ================================================================== *)

(** ** Reading the digits that [digits] prints *)

Lemma read_digits_uint_pos (d : Decimal.uint) (rest : string) :
  (forall v k, read_digits rest v k = (v, k, rest)) ->
  forall (p : positive) (n : nat),
    read_digits (NilEmpty.string_of_uint d ++ rest) (Z.pos p) n
    = (Z.pos (Pos.of_uint_acc d p), (n + Decimal.nb_digits d)%nat, rest).
Proof.
  intros Hrest. induction d; intros p n; simpl;
    try (match goal with
         | |- read_digits _ ?v _ = (Z.pos (Pos.of_uint_acc _ ?q), _, _) =>
             replace v with (Z.pos q) by (unfold digit_val; simpl; lia)
         end;
         rewrite IHd; f_equal; f_equal; lia).
  rewrite Hrest. f_equal. f_equal. lia.
Qed.

Lemma read_digits_uint (d : Decimal.uint) (rest : string) :
  (forall v k, read_digits rest v k = (v, k, rest)) ->
  forall n : nat,
    read_digits (NilEmpty.string_of_uint d ++ rest) 0 n
    = (Z.of_N (Pos.of_uint d), (n + Decimal.nb_digits d)%nat, rest).
Proof.
  intros Hrest. induction d; intros n; simpl;
    try (match goal with
         | |- read_digits _ ?v _ = _ =>
             let w := eval vm_compute in v in change v with w
         end;
         rewrite (read_digits_uint_pos _ _ Hrest); f_equal; f_equal; lia).
  - rewrite Hrest. f_equal. f_equal. lia.
  - rewrite IHd. f_equal. f_equal. lia.
Qed.

Lemma nb_digits_to_uint (n : N) : (0 < Decimal.nb_digits (N.to_uint n))%nat.
Proof.
  destruct n as [|p]; simpl; [lia|].
  pose proof (DecimalPos.Unsigned.to_uint_nonnil p) as H.
  destruct (Pos.to_uint p); simpl; try lia. congruence.
Qed.

Lemma read_digits_digits (z : Z) (rest : string) :
  0 <= z ->
  (forall v k, read_digits rest v k = (v, k, rest)) ->
  exists k, read_digits (digits z ++ rest) 0 O = (z, S k, rest).
Proof.
  intros Hz Hrest. unfold digits. rewrite (read_digits_uint _ _ Hrest).
  change (Pos.of_uint (N.to_uint (Z.to_N z))) with (N.of_uint (N.to_uint (Z.to_N z))).
  rewrite DecimalN.Unsigned.of_to, Z2N.id by exact Hz.
  pose proof (nb_digits_to_uint (Z.to_N z)).
  exists (Nat.pred (Decimal.nb_digits (N.to_uint (Z.to_N z)))).
  f_equal. f_equal. lia.
Qed.

(** ** Texts of digits *)

Lemma append_cons (c : ascii) (s t : string) :
  String c s ++ t = String c (s ++ t).
Proof. reflexivity. Qed.

Lemma append_nil_l (t : string) : "" ++ t = t.
Proof. reflexivity. Qed.

Lemma append_nil_r (s : string) : s ++ "" = s.
Proof.
  induction s as [|c s IH]; [reflexivity|]. now rewrite append_cons, IH.
Qed.

Lemma length_append (s t : string) :
  String.length (s ++ t) = (String.length s + String.length t)%nat.
Proof.
  induction s as [|c s IH]; [reflexivity|].
  rewrite append_cons. simpl. now rewrite IH.
Qed.

(** A digit is neither a blank, nor a sign, nor a dot. *)
Lemma is_digit_plain (c : ascii) :
  is_digit c = true ->
  is_space c = false /\ Ascii.eqb c "." = false /\ Ascii.eqb c "-" = false
  /\ Ascii.eqb c "+" = false.
Proof.
  destruct c as [[] [] [] [] [] [] [] []]; intros H; try discriminate H;
    repeat split; reflexivity.
Qed.

Lemma all_digits_cons (c : ascii) (s : string) :
  all_digits (String c s) = is_digit c && all_digits s.
Proof. reflexivity. Qed.

Lemma all_digits_app (s t : string) :
  all_digits (s ++ t) = all_digits s && all_digits t.
Proof.
  induction s as [|c s IH]; [reflexivity|].
  rewrite append_cons, !all_digits_cons, IH. apply andb_assoc.
Qed.

Lemma all_digits_repeat_zero (n : nat) : all_digits (repeat_char "0" n) = true.
Proof. induction n as [|n IH]; [reflexivity|]. simpl. now rewrite all_digits_cons, IH. Qed.

Lemma all_digits_uint (d : Decimal.uint) :
  all_digits (NilEmpty.string_of_uint d) = true.
Proof. induction d; simpl; try reflexivity; now rewrite all_digits_cons, IHd. Qed.

Lemma all_digits_digits (z : Z) : all_digits (digits z) = true.
Proof. apply all_digits_uint. Qed.

Lemma keep_numeric_app (s t : string) :
  keep_numeric (s ++ t) = keep_numeric s ++ keep_numeric t.
Proof.
  induction s as [|c s IH]; [reflexivity|]. rewrite append_cons. simpl.
  destruct (_ || _); rewrite ?append_cons; now rewrite IH.
Qed.

Lemma keep_numeric_digits (s : string) :
  all_digits s = true -> keep_numeric s = s.
Proof.
  induction s as [|c s IH]; [reflexivity|].
  rewrite all_digits_cons. intros [Hc Hs]%andb_true_iff. simpl.
  now rewrite Hc, IH.
Qed.

Lemma split_dot_digits (s : string) :
  all_digits s = true -> split_dot s = [s].
Proof.
  induction s as [|c s IH]; [reflexivity|].
  rewrite all_digits_cons. intros [Hc Hs]%andb_true_iff. simpl.
  destruct (is_digit_plain c Hc) as (_ & -> & _). now rewrite IH.
Qed.

Lemma split_dot_digits_dot (s t : string) :
  all_digits s = true -> split_dot (s ++ "." ++ t) = s :: split_dot t.
Proof.
  induction s as [|c s IH]; [reflexivity|].
  rewrite all_digits_cons. intros [Hc Hs]%andb_true_iff.
  rewrite append_cons. simpl.
  destruct (is_digit_plain c Hc) as (_ & -> & _). now rewrite IH.
Qed.

(** Reading a text of digits goes to its end. *)
Lemma read_digits_app (s t : string) :
  all_digits s = true ->
  forall v k,
    read_digits (s ++ t) v k
    = read_digits t (fst (fst (read_digits s v k))) (k + String.length s)%nat.
Proof.
  induction s as [|c s IH]; intros H v k.
  - rewrite append_nil_l. simpl. f_equal. lia.
  - rewrite all_digits_cons in H. apply andb_true_iff in H as [Hc Hs].
    rewrite append_cons. simpl. rewrite Hc, IH by exact Hs. f_equal. lia.
Qed.

Lemma read_digits_all (s : string) :
  all_digits s = true ->
  forall v k,
    read_digits s v k
    = (fst (fst (read_digits s v k)), (k + String.length s)%nat, "").
Proof.
  intros H v k. rewrite <- (append_nil_r s) at 1.
  rewrite read_digits_app by exact H. reflexivity.
Qed.

Lemma read_digits_zeros (n : nat) (t : string) (k : nat) :
  read_digits (repeat_char "0" n ++ t) 0 k = read_digits t 0 (k + n)%nat.
Proof.
  revert k. induction n as [|n IH]; intros k; simpl repeat_char.
  - rewrite append_nil_l. f_equal. lia.
  - rewrite append_cons. simpl.
    change (10 * 0 + digit_val "0") with 0. rewrite IH. f_equal. lia.
Qed.

Lemma truthy_of_Z (z : Z) : truthy (of_Z z) = negb (z =? 0).
Proof.
  unfold truthy, of_Z. f_equal. apply eq_true_iff_eq.
  rewrite Qeq_bool_iff, Z.eqb_eq. unfold Qeq. simpl. lia.
Qed.

Lemma or_else_of_Z (z : Z) : or_else (of_Z z) (of_Z 0) = of_Z z.
Proof.
  unfold or_else. rewrite truthy_of_Z.
  destruct (Z.eqb_spec z 0) as [->|]; reflexivity.
Qed.

Lemma parseInt_digits (minus : bool) (a : string) :
  all_digits a = true -> a <> "" ->
  parseInt ((if minus then "-" else "") ++ a)
  = of_Z (if minus then - digits_value a else digits_value a).
Proof.
  intros Ha Hne. destruct a as [|c a]; [congruence|]. clear Hne.
  pose proof Ha as Hc. rewrite all_digits_cons in Hc.
  apply andb_true_iff in Hc as [Hc _].
  destruct (is_digit_plain c Hc) as (Hsp & _ & Hm & Hp).
  pose proof (read_digits_all _ Ha 0 O) as Hr.
  change (fst (fst (read_digits (String c a) 0 0)))
    with (digits_value (String c a)) in Hr.
  unfold parseInt. destruct minus.
  - change ("-" ++ String c a) with (String "-" (String c a)).
    change (skip_spaces (String "-" (String c a)))
      with (String "-" (String c a)).
    change (read_sign (String "-" (String c a))) with (true, String c a).
    cbv iota beta. rewrite Hr. reflexivity.
  - rewrite append_nil_l.
    replace (skip_spaces (String c a)) with (String c a)
      by (simpl; now rewrite Hsp).
    replace (read_sign (String c a)) with (false, String c a)
      by (simpl; now rewrite Hm, Hp).
    cbv iota beta. rewrite Hr. reflexivity.
Qed.

Lemma digits_value_digits (z : Z) (rest : string) (k : nat) :
  0 <= z ->
  (forall v k, read_digits rest v k = (v, k, rest)) ->
  fst (fst (read_digits (digits z ++ rest) 0 k)) = z.
Proof.
  intros Hz Hrest. unfold digits. rewrite (read_digits_uint _ _ Hrest). simpl.
  change (Pos.of_uint (N.to_uint (Z.to_N z)))
    with (N.of_uint (N.to_uint (Z.to_N z))).
  now rewrite DecimalN.Unsigned.of_to, Z2N.id.
Qed.

Lemma digits_value_of_digits (z : Z) : 0 <= z -> digits_value (digits z) = z.
Proof.
  intros Hz. unfold digits_value. rewrite <- (append_nil_r (digits z)).
  now apply digits_value_digits.
Qed.

Lemma digits_nonempty (z : Z) : digits z <> "".
Proof.
  unfold digits. pose proof (nb_digits_to_uint (Z.to_N z)) as H.
  destruct (N.to_uint (Z.to_N z)); simpl in *; try discriminate. lia.
Qed.

(** Two digits for what is left of a hundred. *)
Lemma pad2_spec (r : Z) :
  0 <= r < 100 ->
  all_digits (padStart 2 "0" (digits r)) = true
  /\ String.length (padStart 2 "0" (digits r)) = 2%nat
  /\ digits_value (padStart 2 "0" (digits r)) = r.
Proof.
  intros Hr.
  assert (H : forallb
                (fun n =>
                   let b := padStart 2 "0" (digits (Z.of_nat n)) in
                   all_digits b && (String.length b =? 2)%nat
                   && (digits_value b =? Z.of_nat n))
                (seq 0 100) = true) by (vm_compute; reflexivity).
  rewrite forallb_forall in H. specialize (H (Z.to_nat r)).
  rewrite Z2Nat.id in H by lia.
  assert (Hin : In (Z.to_nat r) (seq 0 100)) by (apply in_seq; lia).
  apply H in Hin. cbv zeta in Hin.
  apply andb_true_iff in Hin as [[H1 H2]%andb_true_iff H3].
  apply Nat.eqb_eq in H2. apply Z.eqb_eq in H3. auto.
Qed.

Lemma substring_all (s : string) : substring 0 (String.length s) s = s.
Proof. induction s as [|c s IH]; simpl; [reflexivity | now rewrite IH]. Qed.

(** A text cut at [i]. *)
Lemma substring_cut (s : string) (i : nat) :
  (i <= String.length s)%nat ->
  substring 0 i s ++ substring i (String.length s - i) s = s
  /\ String.length (substring 0 i s) = i
  /\ String.length (substring i (String.length s - i) s)
     = (String.length s - i)%nat.
Proof.
  revert i. induction s as [|c s IH]; intros i Hi.
  - simpl in Hi. assert (i = O) by lia. subst i. simpl. auto.
  - destruct i as [|i].
    + rewrite Nat.sub_0_r.
      change (substring 0 0 (String c s)) with "".
      rewrite append_nil_l, (substring_all (String c s)). auto.
    + simpl in Hi. destruct (IH i ltac:(lia)) as (H1 & H2 & H3).
      change (substring 0 (S i) (String c s))
        with (String c (substring 0 i s)).
      change (String.length (String c s) - S i)%nat
        with (String.length s - i)%nat.
      change (substring (S i) (String.length s - i) (String c s))
        with (substring i (String.length s - i) s).
      rewrite append_cons, H1. simpl. rewrite H2. auto.
Qed.

Lemma length_repeat_char (c : ascii) (n : nat) :
  String.length (repeat_char c n) = n.
Proof. induction n as [|n IH]; simpl; [reflexivity | now rewrite IH]. Qed.

Lemma digit_val_range (c : ascii) :
  is_digit c = true -> 0 <= digit_val c <= 9.
Proof.
  unfold is_digit, digit_val. intros [H1 H2]%andb_true_iff.
  apply N.leb_le in H1, H2. lia.
Qed.

(** The value of a text of digits that ends with two digits. *)
Lemma digits_value_two (a b : string) :
  all_digits a = true -> all_digits b = true -> String.length b = 2%nat ->
  digits_value (a ++ b) = digits_value a * 100 + digits_value b
  /\ 0 <= digits_value b < 100.
Proof.
  intros Ha Hb Hlen.
  destruct b as [|c1 [|c2 [|c3 b]]]; try discriminate Hlen.
  rewrite !all_digits_cons in Hb.
  apply andb_true_iff in Hb as [H1 [H2 _]%andb_true_iff].
  assert (Hb : digits_value (String c1 (String c2 ""))
               = 10 * digit_val c1 + digit_val c2).
  { unfold digits_value. simpl. rewrite H1, H2. simpl. lia. }
  assert (Hab : digits_value (a ++ String c1 (String c2 ""))
                = 100 * digits_value a + 10 * digit_val c1 + digit_val c2).
  { unfold digits_value at 1. rewrite (read_digits_app a _ Ha).
    fold (digits_value a). simpl. rewrite H1, H2. simpl. lia. }
  pose proof (digit_val_range c1 H1). pose proof (digit_val_range c2 H2).
  rewrite Hab, Hb. lia.
Qed.

Lemma digits_value_nonneg (s : string) : 0 <= digits_value s.
Proof.
  unfold digits_value.
  assert (H : forall v k, 0 <= v -> 0 <= fst (fst (read_digits s v k))).
  { induction s as [|c s IH]; intros v k Hv; simpl; [exact Hv|].
    destruct (is_digit c) eqn:Hc; [|exact Hv].
    apply IH. pose proof (digit_val_range c Hc). lia. }
  apply H. lia.
Qed.

(* ================================================================== *)
(** * The currency codec *)
(* ================================================================== *)

Section Codec.

Variable exp_form : Q -> string.

(** The cents of a text made of a sign, digits, a dot and two digits. *)
Lemma toCents_text (minus : bool) (a b : string) :
  all_digits a = true -> a <> "" ->
  all_digits b = true -> String.length b = 2%nat ->
  toCents exp_form (inr ((if minus then "-" else "") ++ a ++ "." ++ b))
  = of_Z ((if minus then - digits_value a else digits_value a) * 100
          + digits_value b).
Proof.
  intros Ha Hne Hb Hlen. unfold toCents.
  assert (Hk : keep_numeric ((if minus then "-" else "") ++ a ++ "." ++ b)
               = (if minus then "-" else "") ++ a ++ "." ++ b).
  { rewrite !keep_numeric_app, (keep_numeric_digits a Ha),
      (keep_numeric_digits b Hb). now destruct minus. }
  rewrite Hk.
  assert (Hs : split_dot ((if minus then "-" else "") ++ a ++ "." ++ b)
               = [(if minus then "-" else "") ++ a; b]).
  { destruct minus.
    - change ("-" ++ a ++ "." ++ b) with (String "-" (a ++ "." ++ b)).
      simpl. rewrite (split_dot_digits_dot a b Ha), (split_dot_digits b Hb).
      reflexivity.
    - rewrite !append_nil_l, (split_dot_digits_dot a b Ha),
        (split_dot_digits b Hb). reflexivity. }
  rewrite Hs. simpl hd. simpl nth.
  assert (Hi : str_or ((if minus then "-" else "") ++ a) "0"
               = (if minus then "-" else "") ++ a).
  { destruct minus; [reflexivity|]. rewrite append_nil_l.
    destruct a; [congruence | reflexivity]. }
  rewrite Hi, (parseInt_digits minus a Ha Hne).
  destruct b as [|c1 [|c2 [|c3 b]]]; try discriminate Hlen.
  change (slice0 2 (padEnd 2 "0" (str_or (String c1 (String c2 "")) "")))
    with ("" ++ String c1 (String c2 "")).
  rewrite (parseInt_digits false _ Hb) by discriminate.
  now rewrite or_else_of_Z, mul_of_Z, add_of_Z.
Qed.

Lemma Number_toString_int (q : Q) (z : Z) :
  (q == inject_Z z)%Q -> 0 <= z < 10 ^ 21 ->
  Number_toString exp_form (Fin q) = digits z.
Proof.
  intros Hq Hz. unfold Number_toString.
  assert (H0 : Qle_bool 0 q = true).
  { apply Qle_bool_iff. rewrite Hq. change 0%Q with (inject_Z 0).
    rewrite <- Zle_Qle. lia. }
  rewrite H0. unfold show_nonneg.
  assert (Hf : Qfloor q = z) by (rewrite Hq; apply Qfloor_Z).
  assert (Hi : is_integer q = true).
  { unfold is_integer. apply Qeq_bool_iff. now rewrite Hf. }
  assert (Hb : Qle_bool (inject_Z (10 ^ 21)) q = false).
  { apply not_true_iff_false. rewrite Qle_bool_iff, Hq, <- Zle_Qle. lia. }
  now rewrite Hi, Hb, Hf.
Qed.

Lemma Qfloor_div_100 (x : Z) : Qfloor (inject_Z x / inject_Z 100) = x / 100.
Proof.
  unfold Qdiv, Qmult, Qinv, inject_Z. simpl. now rewrite Z.mul_1_r.
Qed.

(** The text of a whole number of cents: the sign, the hundreds of the
    magnitude, a dot, and what is left of a hundred on two digits. *)
Lemma fromCents_int (x : Z) :
  Z.abs x < 10 ^ 23 ->
  fromCents exp_form (of_Z x)
  = (if x <? 0 then "-" else "")
    ++ digits (Z.abs x / 100) ++ "."
    ++ padStart 2 "0" (digits (Z.abs x mod 100)).
Proof.
  intros Hx. unfold fromCents. rewrite ltb_of_Z.
  change (Math_abs (of_Z x)) with (of_Z (Z.abs x)).
  pose proof (Z.abs_nonneg x) as Hx0. set (y := Z.abs x) in *.
  assert (Hdiv : div (of_Z y) (of_Z 100) = Fin (inject_Z y / inject_Z 100))
    by reflexivity.
  assert (Hq : 0 <= y / 100 < 10 ^ 21).
  { split; [apply Z.div_pos; lia|].
    apply Z.div_lt_upper_bound; [lia|]. change (100 * 10 ^ 21) with (10 ^ 23).
    lia. }
  assert (Hr : 0 <= y mod 100 < 100) by (apply Z.mod_pos_bound; lia).
  rewrite Hdiv. unfold Math_floor, of_Z.
  rewrite (Number_toString_int _ (y / 100));
    [| now rewrite Qfloor_div_100 | exact Hq].
  f_equal. f_equal. f_equal. f_equal.
  apply Number_toString_int; [|lia].
  unfold rem. change (Qeq_bool (inject_Z 100) 0) with false. cbv iota.
  unfold Qtrunc.
  assert (Hpos : Qle_bool 0 (inject_Z y / inject_Z 100) = true).
  { apply Qle_bool_iff. apply Qle_shift_div_l; [reflexivity|].
    rewrite Qmult_0_l. change 0%Q with (inject_Z 0). rewrite <- Zle_Qle. lia. }
  rewrite Hpos, Qfloor_div_100.
  rewrite <- inject_Z_mult. unfold Qminus.
  rewrite <- inject_Z_opp, <- inject_Z_plus.
  rewrite (Z.mod_eq y 100) by lia. reflexivity.
Qed.

(** What comes back from the text of a whole number of cents: the sign is
    read with the hundreds only. *)
Lemma toCents_fromCents_int (x : Z) :
  Z.abs x < 10 ^ 23 ->
  toCents exp_form (inr (fromCents exp_form (of_Z x)))
  = of_Z ((if x <? 0 then - (Z.abs x / 100) else Z.abs x / 100) * 100
          + Z.abs x mod 100).
Proof.
  intros Hx. rewrite (fromCents_int x Hx).
  pose proof (Z.abs_nonneg x) as Hx0.
  assert (Hr : 0 <= Z.abs x mod 100 < 100) by (apply Z.mod_pos_bound; lia).
  destruct (pad2_spec _ Hr) as (Hb & Hlen & Hv).
  rewrite (toCents_text (x <? 0) _ _ (all_digits_digits _)
             (digits_nonempty _) Hb Hlen).
  now rewrite Hv, digits_value_of_digits by (apply Z.div_pos; lia).
Qed.

(** Cents that are not negative come back from their text. *)
Lemma toCents_fromCents_nonneg (x : Z) :
  0 <= x < 10 ^ 23 ->
  toCents exp_form (inr (fromCents exp_form (of_Z x))) = of_Z x.
Proof.
  intros Hx. rewrite toCents_fromCents_int by lia.
  replace (x <? 0) with false by (symmetry; apply Z.ltb_ge; lia).
  f_equal. rewrite Z.abs_eq by lia.
  rewrite (Z.div_mod x 100) at 3 by lia. lia.
Qed.

(** Negative cents come back with their last two digits counted twice the
    wrong way: they are themselves only when these digits are 00. *)
Lemma toCents_fromCents_neg (x : Z) :
  - 10 ^ 23 < x < 0 ->
  toCents exp_form (inr (fromCents exp_form (of_Z x)))
  = of_Z (x + 2 * ((- x) mod 100))
  /\ (toCents exp_form (inr (fromCents exp_form (of_Z x))) = of_Z x
      <-> (- x) mod 100 = 0).
Proof.
  intros Hx.
  assert (H : toCents exp_form (inr (fromCents exp_form (of_Z x)))
              = of_Z (x + 2 * ((- x) mod 100))).
  { rewrite toCents_fromCents_int by lia.
    replace (x <? 0) with true by (symmetry; apply Z.ltb_lt; lia).
    f_equal. rewrite Z.abs_neq by lia.
    pose proof (Z.div_mod (- x) 100 ltac:(lia)). lia. }
  split; [exact H|]. rewrite H. split.
  - intros E. injection E as E. lia.
  - intros ->. f_equal. lia.
Qed.

(** The text [toFixed(2)] gives for a magnitude below [10^21]: the sign,
    the hundredths but for their last two digits, a dot, these two
    digits. *)
Lemma toFixed2_finite (q : Q) :
  (Qabs q < inject_Z (10 ^ 21))%Q ->
  let n := Qfloor (Qabs q * 100 + (1 # 2)) in
  exists a b,
    toFixed2 exp_form (Fin q)
    = (if Qle_bool 0 q then "" else "-") ++ a ++ "." ++ b
    /\ all_digits a = true /\ a <> ""
    /\ all_digits b = true /\ String.length b = 2%nat
    /\ digits_value a = n / 100 /\ digits_value b = n mod 100.
Proof.
  intros Hq n. unfold toFixed2.
  assert (Hbig : Qle_bool (inject_Z (10 ^ 21)) (Qabs q) = false).
  { apply not_true_iff_false. rewrite Qle_bool_iff. now apply Qlt_not_le. }
  rewrite Hbig. fold n.
  set (m := padStart 3 "0" (digits n)).
  set (k := String.length m).
  assert (Hn : 0 <= n).
  { change 0 with (Qfloor 0). apply Qfloor_resp_le.
    apply Qle_trans with (Qabs q * 100 + 0)%Q.
    - rewrite Qplus_0_r. apply Qmult_le_0_compat; [apply Qabs_nonneg|].
      discriminate.
    - apply Qplus_le_r. discriminate. }
  assert (Hk : (3 <= k)%nat).
  { subst k m. unfold padStart. rewrite length_append, length_repeat_char. lia. }
  assert (Hm : all_digits m = true).
  { subst m. unfold padStart.
    now rewrite all_digits_app, all_digits_repeat_zero, all_digits_digits. }
  assert (Hv : digits_value m = n).
  { subst m. unfold padStart, digits_value. rewrite read_digits_zeros.
    rewrite <- (append_nil_r (digits n)). now apply digits_value_digits. }
  destruct (substring_cut m (k - 2)) as (Hcut & Hla & Hlb); [lia|].
  fold k in Hcut, Hlb. replace (k - (k - 2))%nat with 2%nat in Hcut, Hlb by lia.
  set (a := substring 0 (k - 2) m) in *.
  set (b := substring (k - 2) 2 m) in *.
  rewrite <- Hcut, all_digits_app in Hm. apply andb_true_iff in Hm as [Ha Hb].
  destruct (digits_value_two a b Ha Hb Hlb) as [Hab Hbr].
  rewrite Hcut, Hv in Hab.
  pose proof (digits_value_nonneg a) as Hpos.
  exists a, b. repeat split; try assumption.
  - intros E. rewrite E in Hla. simpl in Hla. lia.
  - apply (Z.div_unique n 100 _ (digits_value b)); lia.
  - apply (Z.mod_unique n 100 (digits_value a)); lia.
Qed.

(** [toCents] of a number whose magnitude is below [10^21]: the hundredths
    nearest to the magnitude are cut before their last two digits, the sign
    goes to the first part only, and the last two digits are added. *)
Lemma toCents_number_finite (q : Q) :
  (Qabs q < inject_Z (10 ^ 21))%Q ->
  let n := Qfloor (Qabs q * 100 + (1 # 2)) in
  toCents exp_form (inl (Fin q))
  = of_Z ((if Qle_bool 0 q then n / 100 else - (n / 100)) * 100 + n mod 100).
Proof.
  intros Hq n.
  destruct (toFixed2_finite q Hq) as (a & b & Ht & Ha & Hne & Hb & Hlen & Hva & Hvb).
  fold n in Hva, Hvb.
  unfold toCents. rewrite Ht.
  pose proof (toCents_text (negb (Qle_bool 0 q)) a b Ha Hne Hb Hlen)
    as H.
  unfold toCents in H. rewrite Hva, Hvb in H.
  destruct (Qle_bool 0 q); exact H.
Qed.

(** A number that is not negative and below [10^21] gives its nearest
    number of cents. *)
Lemma toCents_number_nonneg (q : Q) :
  (0 <= q)%Q -> (q < inject_Z (10 ^ 21))%Q ->
  toCents exp_form (inl (Fin q)) = of_Z (Qfloor (q * 100 + (1 # 2))).
Proof.
  intros H0 Hq. pose proof (Qabs_pos q H0) as Habs.
  rewrite toCents_number_finite by (now rewrite Habs).
  apply Qle_bool_iff in H0. rewrite H0. f_equal.
  rewrite Habs. symmetry. rewrite Z.mul_comm. apply Z.div_mod. lia.
Qed.

(** Whatever it is given, [toCents] answers an integer or [NaN]. *)
Lemma parseInt_cases (s : string) :
  parseInt s = NaN \/ exists z, parseInt s = of_Z z.
Proof.
  unfold parseInt. destruct (read_sign (skip_spaces s)) as [minus s1].
  destruct (read_digits s1 0 0) as [[v [|k]] rest]; eauto.
Qed.

Lemma toCents_cases (v : number + string) :
  toCents exp_form v = NaN \/ exists z, toCents exp_form v = of_Z z.
Proof.
  unfold toCents.
  set (parts := split_dot _).
  destruct (parseInt_cases (slice0 2 (padEnd 2 "0" (str_or (nth 1 parts "") ""))))
    as [-> | [y ->]];
  destruct (parseInt_cases (str_or (hd "" parts) "0")) as [-> | [x ->]].
  - left. reflexivity.
  - right. exists (x * 100 + 0). change (or_else NaN (of_Z 0)) with (of_Z 0).
    now rewrite mul_of_Z, add_of_Z.
  - left. reflexivity.
  - right. exists (x * 100 + y). now rewrite or_else_of_Z, mul_of_Z, add_of_Z.
Qed.

(** Among the numbers, [toCents] answers [NaN] at [-Infinity], and at no
    other one whose text is not in exponent form. *)
Lemma toCents_number_NaN (n : number) :
  toCents exp_form (inl n) = NaN ->
  n = NInf \/ exists q, n = Fin q /\ (inject_Z (10 ^ 21) <= Qabs q)%Q.
Proof.
  destruct n as [q| | |]; intros H.
  - right. exists q. split; [reflexivity|].
    destruct (Qlt_le_dec (Qabs q) (inject_Z (10 ^ 21))) as [Hlt|Hle];
      [|exact Hle].
    rewrite (toCents_number_finite q Hlt) in H. discriminate.
  - vm_compute in H. discriminate.
  - now left.
  - vm_compute in H. discriminate.
Qed.

End Codec.



(* ================================================================== *)
(** * Eligibility and the transfer impact *)
(* ================================================================== *)

Lemma fandaAcctOf_specified (r : RatesData) (w : WrsAccountNumbers)
    (s : string) :
  wrs_account_numbers r = Some w -> indirect_costs w = Some s -> s <> "" ->
  fandaAcctOf (Some r) = s.
Proof.
  intros Hw Hs Hne. unfold fandaAcctOf. simpl. rewrite Hw. simpl.
  rewrite Hs. simpl. destruct s; [congruence | reflexivity].
Qed.

Lemma fandaAcctOf_missing : fandaAcctOf None = "58960".
Proof. reflexivity. Qed.

Lemma fandaAcctOf_unspecified (r : RatesData) :
  (wrs_account_numbers r = None
   \/ exists w, wrs_account_numbers r = Some w
                /\ (indirect_costs w = None \/ indirect_costs w = Some EmptyString)) ->
  fandaAcctOf (Some r) = "58960".
Proof.
  unfold fandaAcctOf. simpl.
  intros [Hw | (w & Hw & [Hs | Hs])]; rewrite Hw; simpl;
    try rewrite Hs; reflexivity.
Qed.

(** C5.  [isMtdcEligible] answers false for the indirect-cost account
    (the [indirect_costs] of the policy, "58960" when the policy gives
    none or an empty one), even when the eligible set lists it; for a policy that is there,
    it answers true exactly for the accounts of the eligible set other than
    the indirect-cost account; without a policy it answers false for every
    account. *)
Theorem isMtdcEligible_spec (acct : string) (rates : option RatesData) :
  (acct = fandaAcctOf rates -> isMtdcEligible acct rates = false)
  /\ (forall r, rates = Some r ->
        (isMtdcEligible acct rates = true
         <-> acct ∈ default [] (mtdc_eligible_accounts r)
             /\ acct <> fandaAcctOf rates))
  /\ (rates = None -> isMtdcEligible acct rates = false)
  /\ (forall r w s, rates = Some r -> wrs_account_numbers r = Some w ->
        indirect_costs w = Some s -> s <> "" -> fandaAcctOf rates = s)
  /\ (forall r, rates = Some r ->
        (wrs_account_numbers r = None
         \/ exists w, wrs_account_numbers r = Some w
                      /\ (indirect_costs w = None
                          \/ indirect_costs w = Some EmptyString)) ->
        fandaAcctOf rates = "58960").
Proof.
  repeat split.
  - intros ->. unfold isMtdcEligible. destruct rates; [|reflexivity].
    now rewrite bool_decide_eq_true_2.
  - subst rates. unfold isMtdcEligible in H0.
    case_bool_decide; [discriminate|]. now apply bool_decide_eq_true in H0.
  - subst rates. unfold isMtdcEligible in H0.
    case_bool_decide; [discriminate | assumption].
  - intros [Hin Hne]. subst rates. unfold isMtdcEligible.
    rewrite bool_decide_eq_false_2 by assumption.
    now apply bool_decide_eq_true.
  - intros ->. reflexivity.
  - intros r w s -> Hw Hs Hne. now apply (fandaAcctOf_specified r w s).
  - intros r -> Hw. now apply fandaAcctOf_unspecified.
Qed.

Lemma isMtdcEligible_spec_witness :
  isMtdcEligible "58960"
    (Some {| fa_rate := None;
             wrs_account_numbers := None;
             mtdc_eligible_accounts := Some ["58960"; "52000"] |}) = false
  /\ isMtdcEligible "52000" (Some Samples.mockRates) = true.
Proof.
  split.
  - apply (proj1 (isMtdcEligible_spec "58960" _)). reflexivity.
  - apply (proj1 (proj2 (isMtdcEligible_spec "52000" _)) Samples.mockRates
             eq_refl).
    split; [|discriminate].
    simpl. apply list_elem_of_In. simpl. tauto.
Defined.

(** The amount guard: what is at most zero is refused, [-Infinity]
    included. *)
Lemma computeTransferImpact_refuses (rates : option RatesData)
    (toAcct : string) (amountCents : number) (mode : TransferMode) :
  leb amountCents (of_Z 0) = true ->
  computeTransferImpact rates toAcct amountCents mode
  = Throw AmountNotPositive.
Proof. intros H. unfold computeTransferImpact. now rewrite H. Qed.

(** Every finite amount above zero gets a split. *)
Lemma computeTransferImpact_accepts (rates : option RatesData)
    (toAcct : string) (q : Q) (mode : TransferMode) :
  (0 < q)%Q ->
  is_Ok (computeTransferImpact rates toAcct (Fin q) mode) = true.
Proof.
  intros H. unfold computeTransferImpact.
  replace (leb (Fin q) (of_Z 0)) with false; [now destruct mode|].
  symmetry. apply not_true_iff_false. simpl. rewrite Qle_bool_iff.
  now apply Qlt_not_le.
Qed.

(** The amount guard [amountCents <= 0] decides alone between the error
    and a split: the call throws exactly when the comparison is true, that
    is for [-Infinity] and for the finite amounts at most zero, and returns
    a split exactly when it is false. *)
Theorem computeTransferImpact_guard (rates : option RatesData)
    (toAcct : string) (amountCents : number) (mode : TransferMode) :
  (computeTransferImpact rates toAcct amountCents mode
   = Throw AmountNotPositive
   <-> leb amountCents (of_Z 0) = true)
  /\ (is_Ok (computeTransferImpact rates toAcct amountCents mode) = true
      <-> leb amountCents (of_Z 0) = false)
  /\ (leb amountCents (of_Z 0) = true
      <-> amountCents = NInf
          \/ exists q, amountCents = Fin q /\ (q <= 0)%Q).
Proof.
  split; [|split].
  - split; [|apply computeTransferImpact_refuses].
    unfold computeTransferImpact.
    destruct (leb amountCents (of_Z 0)); [reflexivity|].
    now destruct mode.
  - unfold computeTransferImpact.
    destruct (leb amountCents (of_Z 0)); simpl; [split; discriminate|].
    now destruct mode.
  - destruct amountCents as [q| | |]; simpl.
    + rewrite Qle_bool_iff. split.
      * intros H. right. now exists q.
      * intros [H | (q' & [= <-] & H)]; [discriminate | exact H].
    + split; [discriminate|]. intros [H | (q' & H & _)]; discriminate.
    + split; [now left | reflexivity].
    + split; [discriminate|]. intros [H | (q' & H & _)]; discriminate.
Qed.

(** C6, at the amounts the guard lets through: [NaN <= 0] and
    [Infinity <= 0] are both false, so these two amounts are not refused
    and a split comes back. *)
Theorem computeTransferImpact_NaN_Infinity (rates : option RatesData)
    (toAcct : string) (mode : TransferMode) :
  is_Ok (computeTransferImpact rates toAcct NaN mode) = true
  /\ is_Ok (computeTransferImpact rates toAcct PInf mode) = true
  /\ computeTransferImpact (Some Samples.mockRates) "52000" NaN DirectToDest
     = Ok {| source_out := NaN; direct_to_dest := NaN; fa_added := NaN;
             eligible := true |}.
Proof.
  unfold computeTransferImpact. simpl. now destruct mode.
Qed.





(* ================================================================== *)
(** * The ledger on row values *)
(* ================================================================== *)

Section Ledger.

Variable exp_form : Q -> string.

#[local] Abbreviation toCents := (Engine.toCents exp_form).
#[local] Abbreviation fromCents := (Engine.fromCents exp_form).
#[local] Abbreviation baselineSum := (Engine.baselineSum exp_form).
#[local] Abbreviation applyOne := (Engine.applyOne exp_form).
#[local] Abbreviation post_amounts := (Engine.post_amounts exp_form).
#[local] Abbreviation projectWithTransfers := (Engine.projectWithTransfers exp_form).
#[local] Abbreviation project_loop := (Engine.project_loop exp_form).

(** ** Stepping through [applyOne] *)

Lemma find_row_None (acct : string) (rows : list BudgetRow) :
  find_row acct rows = None <-> acct ∉ account <$> rows.
Proof.
  unfold find_row. rewrite list_find_None, Forall_forall.
  rewrite list_elem_of_fmap. split.
  - intros H (r & -> & Hr). now apply (H r).
  - intros H r Hr E. apply H. exists r. now split.
Qed.

Lemma find_row_Some (acct : string) (rows : list BudgetRow) (i : nat)
    (r : BudgetRow) :
  find_row acct rows = Some (i, r) ->
  rows !! i = Some r /\ account r = acct.
Proof.
  unfold find_row. rewrite list_find_Some. tauto.
Qed.

Lemma find_row_is_Some (acct : string) (rows : list BudgetRow) :
  acct ∈ account <$> rows -> exists i r, find_row acct rows = Some (i, r).
Proof.
  intros H. destruct (find_row acct rows) as [[i r]|] eqn:E; [eauto|].
  now apply find_row_None in E.
Qed.

(** Once the accounts are accepted and the impact is computed, what is left
    of [applyOne] is the two balance checks, the reconciliation and the
    result. *)
Lemma applyOne_checked (id : string) (rates : option RatesData)
    (baselineRows snapshot : list BudgetRow) (fromAcct toAcct : string)
    (amountCents : number) (mode : TransferMode)
    (rows : list BudgetRow) (fandaRow : nat)
    (fromRow toRow : nat * BudgetRow) (impact : Impact) :
  fromAcct <> fandaAcctOf rates ->
  toAcct <> fandaAcctOf rates ->
  working_copy (fandaAcctOf rates) baselineRows = (rows, fandaRow) ->
  find_row fromAcct rows = Some fromRow ->
  find_row toAcct rows = Some toRow ->
  fromAcct <> toAcct ->
  computeTransferImpact rates toAcct amountCents mode = Ok impact ->
  applyOne id rates baselineRows snapshot fromAcct toAcct amountCents mode
  = let fromAfter :=
      sub (toCents (inl (proposed_budget (snd fromRow))))
          (source_out impact) in
    let rows' :=
      post_amounts impact (fst fromRow) (fst toRow) fandaRow rows in
    if ltb fromAfter (toCents (inl (encumbrancesFor fromAcct snapshot)))
    then Throw (EncumbranceBreach fromAcct)
    else if ltb fromAfter (of_Z 0) then Throw (NegativeBalance fromAcct)
    else if negb (strict_eq (baselineSum baselineRows) (baselineSum rows'))
    then Throw NotReconciled
    else Ok (rows', logRowOf id fromAcct toAcct impact mode).
Proof.
  intros Hf Ht Hw Hfr Htr Hne Himp. unfold Engine.applyOne.
  rewrite (bool_decide_eq_false_2 _ Hf), (bool_decide_eq_false_2 _ Ht).
  rewrite Hw, Hfr, Htr, (bool_decide_eq_false_2 _ Hne), Himp. simpl.
  destruct (ltb _ (toCents _)); [reflexivity|]. simpl.
  destruct (ltb _ (of_Z 0)); [reflexivity|]. simpl.
  destruct (negb _); reflexivity.
Qed.

(** ** The working copy *)

Lemma working_copy_rows (fandaAcct : string) (baselineRows : list BudgetRow) :
  let kept := List.filter not_summary baselineRows in
  (fandaAcct ∈ account <$> kept
   /\ fst (working_copy fandaAcct baselineRows) = kept)
  \/ ((fandaAcct ∉ account <$> kept)
      /\ working_copy fandaAcct baselineRows
         = ((kept ++ [newFandaRow fandaAcct])%list, length kept)).
Proof.
  intros kept. unfold working_copy. fold kept.
  destruct (find_row fandaAcct kept) as [[i r]|] eqn:E.
  - left. split; [|reflexivity].
    apply find_row_Some in E as [Hi Hr]. apply list_elem_of_fmap.
    exists r. split; [now symmetry|]. now apply list_elem_of_lookup_2 in Hi.
  - right. split; [|reflexivity]. now apply find_row_None.
Qed.

Lemma elem_of_kept (r : BudgetRow) (baselineRows : list BudgetRow) :
  r ∈ List.filter not_summary baselineRows
  <-> r ∈ baselineRows /\ account r <> "SUMMARY".
Proof.
  rewrite !list_elem_of_In, filter_In. unfold not_summary.
  rewrite negb_true_iff, bool_decide_eq_false. reflexivity.
Qed.

(** The accounts of the working copy: those of the input rows other than
    SUMMARY, and the indirect-cost account. *)
Lemma working_copy_accounts (fandaAcct acct : string)
    (baselineRows : list BudgetRow) :
  acct ∈ account <$> fst (working_copy fandaAcct baselineRows)
  <-> (acct ∈ account <$> baselineRows /\ acct <> "SUMMARY")
      \/ acct = fandaAcct.
Proof.
  assert (K : acct ∈ account <$> List.filter not_summary baselineRows
              <-> acct ∈ account <$> baselineRows /\ acct <> "SUMMARY").
  { rewrite !list_elem_of_fmap. split.
    - intros (r & -> & Hr). apply elem_of_kept in Hr as [Hr Hs]. eauto.
    - intros [(r & -> & Hr) Hs]. exists r. split; [reflexivity|].
      now apply elem_of_kept. }
  destruct (working_copy_rows fandaAcct baselineRows) as [[Hin ->]|[Hni ->]];
    simpl.
  - rewrite K. split; [tauto|]. intros [H| ->]; [exact H|]. now apply K.
  - rewrite fmap_app, elem_of_app, K. simpl. rewrite list_elem_of_singleton.
    reflexivity.
Qed.

(** ** The order of the checks *)

(** C7.  [applyOne] fails at the first check that does not pass, in this
    order: a source or destination that is the indirect-cost account; a
    source, then a destination, with no row in the working copy (the input
    rows other than SUMMARY, with the indirect-cost row); a source equal to
    the destination; then, the impact being computed, a source left below
    its encumbrance; and last a source left below zero. *)
Theorem applyOne_validation_order (id : string) (rates : option RatesData)
    (baselineRows snapshot : list BudgetRow) (fromAcct toAcct : string)
    (amountCents : number) (mode : TransferMode) :
  let fandaAcct := fandaAcctOf rates in
  let rows := fst (working_copy fandaAcct baselineRows) in
  let run :=
    applyOne id rates baselineRows snapshot fromAcct toAcct amountCents mode in
  (fromAcct = fandaAcct \/ toAcct = fandaAcct -> run = Throw DirectFandA)
  /\ (fromAcct <> fandaAcct /\ toAcct <> fandaAcct ->
      (fromAcct ∉ account <$> rows -> run = Throw (UnknownSource fromAcct))
      /\ (fromAcct ∈ account <$> rows /\ toAcct ∉ account <$> rows ->
          run = Throw (UnknownDestination toAcct))
      /\ (fromAcct ∈ account <$> rows /\ toAcct ∈ account <$> rows ->
          (fromAcct = toAcct -> run = Throw SameAccounts)
          /\ (fromAcct <> toAcct ->
              (forall e,
                 computeTransferImpact rates toAcct amountCents mode = Throw e ->
                 run = Throw e)
              /\ (forall impact i fromRow,
                    computeTransferImpact rates toAcct amountCents mode
                    = Ok impact ->
                    find_row fromAcct rows = Some (i, fromRow) ->
                    let fromAfter :=
                      sub (toCents (inl (proposed_budget fromRow)))
                          (source_out impact) in
                    let enc :=
                      toCents (inl (encumbrancesFor fromAcct snapshot)) in
                    (ltb fromAfter enc = true ->
                     run = Throw (EncumbranceBreach fromAcct))
                    /\ (ltb fromAfter enc = false
                        /\ ltb fromAfter (of_Z 0) = true ->
                        run = Throw (NegativeBalance fromAcct)))))).
Proof.
  intros fandaAcct rows run. split.
  - intros H. subst run. unfold Engine.applyOne. fold fandaAcct.
    replace (bool_decide (fromAcct = fandaAcct)
             || bool_decide (toAcct = fandaAcct)) with true; [reflexivity|].
    symmetry. apply orb_true_iff.
    destruct H as [H|H]; [left|right]; now apply bool_decide_eq_true.
  - intros [Hf Ht].
    assert (Hw : working_copy fandaAcct baselineRows
                 = (rows, snd (working_copy fandaAcct baselineRows)))
      by (subst rows; now destruct (working_copy fandaAcct baselineRows)).
    split; [|split].
    + intros Hn. apply find_row_None in Hn. subst run.
      unfold Engine.applyOne. fold fandaAcct.
      rewrite (bool_decide_eq_false_2 _ Hf), (bool_decide_eq_false_2 _ Ht).
      rewrite Hw, Hn. reflexivity.
    + intros [Hi Hn]. apply find_row_None in Hn.
      apply find_row_is_Some in Hi as (i & r & Hi). subst run.
      unfold Engine.applyOne. fold fandaAcct.
      rewrite (bool_decide_eq_false_2 _ Hf), (bool_decide_eq_false_2 _ Ht).
      rewrite Hw, Hi, Hn. reflexivity.
    + intros [Hi Hj].
      apply find_row_is_Some in Hi as (i & r & Hi).
      apply find_row_is_Some in Hj as (j & r' & Hj). split; [|intros Hne; split].
      * intros E. subst run. unfold Engine.applyOne. fold fandaAcct.
        rewrite (bool_decide_eq_false_2 _ Hf), (bool_decide_eq_false_2 _ Ht).
        rewrite Hw, Hi, Hj, (bool_decide_eq_true_2 _ E). reflexivity.
      * intros e He. subst run. unfold Engine.applyOne. fold fandaAcct.
        rewrite (bool_decide_eq_false_2 _ Hf), (bool_decide_eq_false_2 _ Ht).
        rewrite Hw, Hi, Hj, (bool_decide_eq_false_2 _ Hne), He. reflexivity.
      * intros impact i' fromRow Himp Hi' fromAfter enc.
        subst run.
        rewrite (applyOne_checked id rates baselineRows snapshot fromAcct
                   toAcct amountCents mode rows _ _ _ impact
                   Hf Ht Hw Hi' Hj Hne Himp).
        simpl. fold fromAfter. fold enc. split.
        -- intros ->. reflexivity.
        -- intros [-> ->]. reflexivity.
Qed.

(** ** A source without encumbrance *)

Lemma toCents_zero : toCents (inl (of_Z 0)) = of_Z 0.
Proof. vm_compute. reflexivity. Qed.

(** C10.  When the snapshot has no row for the source, or its row has no
    [encumbrances], the encumbrance is zero: once the earlier checks are
    passed, such a transfer is refused for its encumbrance exactly when the
    source would be left below zero, it is never refused for a negative
    balance, and a source left at zero or above passes the encumbrance
    check. *)
Theorem applyOne_without_encumbrance (id : string)
    (rates : option RatesData) (baselineRows snapshot : list BudgetRow)
    (fromAcct toAcct : string) (amountCents : number) (mode : TransferMode)
    (Hsnap : find_row fromAcct snapshot = None
             \/ exists j r, find_row fromAcct snapshot = Some (j, r)
                            /\ encumbrances r = None) :
  let fandaAcct := fandaAcctOf rates in
  let rows := fst (working_copy fandaAcct baselineRows) in
  let run :=
    applyOne id rates baselineRows snapshot fromAcct toAcct amountCents mode in
  encumbrancesFor fromAcct snapshot = of_Z 0
  /\ toCents (inl (encumbrancesFor fromAcct snapshot)) = of_Z 0
  /\ forall impact i fromRow,
       fromAcct <> fandaAcct -> toAcct <> fandaAcct ->
       find_row fromAcct rows = Some (i, fromRow) ->
       toAcct ∈ account <$> rows ->
       fromAcct <> toAcct ->
       computeTransferImpact rates toAcct amountCents mode = Ok impact ->
       let fromAfter :=
         sub (toCents (inl (proposed_budget fromRow))) (source_out impact) in
       (run = Throw (EncumbranceBreach fromAcct)
        <-> ltb fromAfter (of_Z 0) = true)
       /\ (leb (of_Z 0) fromAfter = true ->
           run <> Throw (EncumbranceBreach fromAcct))
       /\ run <> Throw (NegativeBalance fromAcct).
Proof.
  intros fandaAcct rows run.
  assert (Henc : encumbrancesFor fromAcct snapshot = of_Z 0).
  { unfold encumbrancesFor.
    destruct Hsnap as [-> | (j & r & -> & Hr)]; simpl; [reflexivity|].
    now rewrite Hr. }
  split; [exact Henc|]. split; [rewrite Henc; apply toCents_zero|].
  intros impact i fromRow Hf Ht Hi Hj Hne Himp fromAfter.
  apply find_row_is_Some in Hj as (j & r' & Hj).
  assert (Hw : working_copy fandaAcct baselineRows
               = (rows, snd (working_copy fandaAcct baselineRows)))
    by (subst rows; now destruct (working_copy fandaAcct baselineRows)).
  assert (Hrun := applyOne_checked id rates baselineRows snapshot fromAcct
                    toAcct amountCents mode rows _ _ _ impact
                    Hf Ht Hw Hi Hj Hne Himp).
  fold run in Hrun. simpl in Hrun. fold fromAfter in Hrun.
  rewrite Henc, toCents_zero in Hrun.
  assert (Hiff : run = Throw (EncumbranceBreach fromAcct)
                 <-> ltb fromAfter (of_Z 0) = true).
  { rewrite Hrun. destruct (ltb fromAfter (of_Z 0)).
    - split; reflexivity.
    - split; [|discriminate]. destruct (negb _); discriminate. }
  split; [exact Hiff|]. split.
  - intros Hle E. apply Hiff in E. clear -Hle E.
    destruct fromAfter as [q| | |]; simpl in *; try discriminate.
    apply negb_true_iff in E. change (inject_Z 0) with 0%Q in *. congruence.
  - rewrite Hrun. destruct (ltb fromAfter (of_Z 0)); [discriminate|].
    destruct (negb _); discriminate.
Qed.

(** ** What a successful call went through *)

(** A call that returns, or that stops at the reconciliation, has passed
    every earlier check. *)
Lemma applyOne_reached (id : string) (rates : option RatesData)
    (baselineRows snapshot : list BudgetRow) (fromAcct toAcct : string)
    (amountCents : number) (mode : TransferMode) :
  let run :=
    applyOne id rates baselineRows snapshot fromAcct toAcct amountCents mode in
  ((exists out, run = Ok out) \/ run = Throw NotReconciled) ->
  exists rows fandaRow fromRow toRow impact,
    fromAcct <> fandaAcctOf rates
    /\ toAcct <> fandaAcctOf rates
    /\ working_copy (fandaAcctOf rates) baselineRows = (rows, fandaRow)
    /\ find_row fromAcct rows = Some fromRow
    /\ find_row toAcct rows = Some toRow
    /\ fromAcct <> toAcct
    /\ computeTransferImpact rates toAcct amountCents mode = Ok impact.
Proof.
  intros run Hrun.
  assert (Hgood : forall e, run = Throw e -> e = NotReconciled).
  { intros e He. destruct Hrun as [[out Ho]|Hn]; congruence. }
  clear Hrun. subst run. unfold Engine.applyOne in Hgood.
  destruct (working_copy (fandaAcctOf rates) baselineRows)
    as [rows fandaRow] eqn:Hw.
  destruct (decide (fromAcct = fandaAcctOf rates)) as [E|Hf].
  { rewrite (bool_decide_eq_true_2 _ E) in Hgood.
    now specialize (Hgood _ eq_refl). }
  destruct (decide (toAcct = fandaAcctOf rates)) as [E|Ht].
  { rewrite (bool_decide_eq_true_2 _ E), orb_true_r in Hgood.
    now specialize (Hgood _ eq_refl). }
  rewrite (bool_decide_eq_false_2 _ Hf), (bool_decide_eq_false_2 _ Ht)
    in Hgood.
  destruct (find_row fromAcct rows) as [fromRow|] eqn:Hfr;
    [|now specialize (Hgood _ eq_refl)].
  destruct (find_row toAcct rows) as [toRow|] eqn:Htr;
    [|now specialize (Hgood _ eq_refl)].
  destruct (decide (fromAcct = toAcct)) as [E|Hne].
  { rewrite (bool_decide_eq_true_2 _ E) in Hgood.
    now specialize (Hgood _ eq_refl). }
  rewrite (bool_decide_eq_false_2 _ Hne) in Hgood.
  destruct (computeTransferImpact rates toAcct amountCents mode)
    as [impact|e] eqn:Himp.
  - exists rows, fandaRow, fromRow, toRow, impact. tauto.
  - specialize (Hgood e eq_refl). subst e.
    unfold computeTransferImpact in Himp.
    destruct (leb amountCents (of_Z 0)); [discriminate|].
    destruct mode; discriminate.
Qed.

(** The rows a successful call returns. *)
Lemma applyOne_Ok_rows (id : string) (rates : option RatesData)
    (baselineRows snapshot : list BudgetRow) (fromAcct toAcct : string)
    (amountCents : number) (mode : TransferMode)
    (rows' : list BudgetRow) (logRow : MappingRow) :
  applyOne id rates baselineRows snapshot fromAcct toAcct amountCents mode
  = Ok (rows', logRow) ->
  exists rows fandaRow fromRow toRow impact,
    fromAcct <> fandaAcctOf rates
    /\ toAcct <> fandaAcctOf rates
    /\ working_copy (fandaAcctOf rates) baselineRows = (rows, fandaRow)
    /\ find_row fromAcct rows = Some fromRow
    /\ find_row toAcct rows = Some toRow
    /\ computeTransferImpact rates toAcct amountCents mode = Ok impact
    /\ rows' = post_amounts impact (fst fromRow) (fst toRow) fandaRow rows
    /\ logRow = logRowOf id fromAcct toAcct impact mode.
Proof.
  intros Hrun.
  destruct (applyOne_reached id rates baselineRows snapshot fromAcct toAcct
              amountCents mode (or_introl (ex_intro _ _ Hrun)))
    as (rows & fandaRow & fromRow & toRow & impact
        & Hf & Ht & Hw & Hfr & Htr & Hne & Himp).
  rewrite (applyOne_checked id rates baselineRows snapshot fromAcct toAcct
             amountCents mode rows fandaRow fromRow toRow impact
             Hf Ht Hw Hfr Htr Hne Himp) in Hrun.
  simpl in Hrun.
  destruct (ltb _ (toCents _)); [discriminate|].
  destruct (ltb _ (of_Z 0)); [discriminate|].
  destruct (negb _); [discriminate|].
  injection Hrun as <- <-.
  exists rows, fandaRow, fromRow, toRow, impact. tauto.
Qed.

(** ** What the assignments leave alone *)

(** The assignments write [proposed_budget] and [change] only: whatever is
    read off the other fields is the same before and after. *)
Lemma post_amounts_fmap {B : Type} (f : BudgetRow -> B) (impact : Impact)
    (i j k : nat) (rows : list BudgetRow) :
  (forall d r, f (debit d r) = f r) ->
  (forall d r, f (credit d r) = f r) ->
  (forall r, f (set_change r) = f r) ->
  f <$> post_amounts impact i j k rows = f <$> rows.
Proof.
  intros Hd Hc Hs. unfold Engine.post_amounts.
  rewrite <- list_fmap_compose.
  rewrite (list_fmap_ext (f ∘ set_change) f) by (intros; apply Hs).
  rewrite (list_fmap_alter f _ id) by (apply Forall_forall; intros; apply Hc).
  rewrite list_alter_id by reflexivity.
  rewrite (list_fmap_alter f _ id) by (apply Forall_forall; intros; apply Hc).
  rewrite list_alter_id by reflexivity.
  rewrite (list_fmap_alter f _ id) by (apply Forall_forall; intros; apply Hd).
  now rewrite list_alter_id.
Qed.

Lemma post_amounts_accounts (impact : Impact) (i j k : nat)
    (rows : list BudgetRow) :
  account <$> post_amounts impact i j k rows = account <$> rows.
Proof. now apply post_amounts_fmap. Qed.

Lemma post_amounts_lookup (impact : Impact) (i j k : nat)
    (rows : list BudgetRow) (r : BudgetRow) :
  i <> k -> j <> k -> rows !! k = Some r ->
  post_amounts impact i j k rows !! k
  = Some (set_change
            (credit (Number_of_string (fromCents (fa_added impact))) r)).
Proof.
  intros Hi Hj Hk. unfold Engine.post_amounts.
  rewrite list_lookup_fmap, list_lookup_alter_eq.
  rewrite list_lookup_alter_ne by assumption.
  rewrite list_lookup_alter_ne by assumption.
  now rewrite Hk.
Qed.

Lemma post_amounts_length (impact : Impact) (i j k : nat)
    (rows : list BudgetRow) :
  length (post_amounts impact i j k rows) = length rows.
Proof.
  unfold Engine.post_amounts. now rewrite length_fmap, !length_alter.
Qed.

(** ** The rows that come back *)

(** C9, as the engine has it.  The rows a successful call returns always
    hold a row for the indirect-cost account, an ineligible destination
    included, where nothing is added to it.  A row named "SUMMARY" is among
    them only when "SUMMARY" is the indirect-cost account of the policy.
    When the input has no row for the indirect-cost account other than
    SUMMARY rows, the row is new and comes last: description "F&A", current
    budget 0, and a proposed budget that starts at 0 and receives the
    amount added. *)
Theorem applyOne_returned_rows (id : string) (rates : option RatesData)
    (baselineRows snapshot : list BudgetRow) (fromAcct toAcct : string)
    (amountCents : number) (mode : TransferMode)
    (rows' : list BudgetRow) (logRow : MappingRow)
    (Hrun : applyOne id rates baselineRows snapshot fromAcct toAcct
              amountCents mode = Ok (rows', logRow)) :
  let fandaAcct := fandaAcctOf rates in
  fandaAcct ∈ account <$> rows'
  /\ (fandaAcct <> "SUMMARY" -> "SUMMARY" ∉ account <$> rows')
  /\ (isMtdcEligible toAcct rates = false ->
      fa_added_to_fanda_cents logRow = of_Z 0)
  /\ ((fandaAcct ∉ account <$> List.filter not_summary baselineRows) ->
      exists r,
        last rows' = Some r
        /\ account r = fandaAcct
        /\ description r = "F&A"
        /\ current_budget r = of_Z 0
        /\ proposed_budget r
           = add (of_Z 0)
               (Number_of_string
                  (fromCents (fa_added_to_fanda_cents logRow)))).
Proof.
  intros fandaAcct.
  destruct (applyOne_Ok_rows _ _ _ _ _ _ _ _ _ _ Hrun)
    as (rows & fandaRow & [i fr] & [j tr] & impact
        & Hf & Ht & Hw & Hfr & Htr & Himp & -> & ->).
  fold fandaAcct in Hf, Ht, Hw. simpl.
  assert (Hrows : rows = fst (working_copy fandaAcct baselineRows))
    by now rewrite Hw.
  rewrite post_amounts_accounts. split; [|split; [|split]].
  - rewrite Hrows. apply working_copy_accounts. now right.
  - intros Hs Hin. rewrite Hrows in Hin.
    apply working_copy_accounts in Hin as [[_ Hin]|Hin]; congruence.
  - intros Hel. unfold computeTransferImpact in Himp. rewrite Hel in Himp.
    destruct (leb amountCents (of_Z 0)); [discriminate|].
    destruct mode; injection Himp as <-; reflexivity.
  - intros Hni.
    destruct (working_copy_rows fandaAcct baselineRows) as [[Hin _]|[_ Hw']];
      [contradiction|].
    rewrite Hw' in Hw. injection Hw as <- <-.
    set (kept := List.filter not_summary baselineRows) in *.
    assert (Hlast : (kept ++ [newFandaRow fandaAcct])%list !! length kept
                    = Some (newFandaRow fandaAcct)).
    { now rewrite lookup_app_r, Nat.sub_diag by reflexivity. }
    assert (Hi : i <> length kept).
    { intros ->. apply find_row_Some in Hfr as [Hl Ha].
      rewrite Hlast in Hl. injection Hl as <-. now apply Hf. }
    assert (Hj : j <> length kept).
    { intros ->. apply find_row_Some in Htr as [Hl Ha].
      rewrite Hlast in Hl. injection Hl as <-. now apply Ht. }
    eexists. split.
    { rewrite last_lookup, post_amounts_length, length_app. simpl.
      replace (Nat.pred (length kept + 1)) with (length kept) by lia.
      apply post_amounts_lookup; [exact Hi | exact Hj | exact Hlast]. }
    repeat split; reflexivity.
Qed.

(** ** Conservation *)

(** The cents [baselineSum] adds up, in order. *)
Lemma baselineSum_ext (rows1 rows2 : list BudgetRow) :
  (fun r => (account r, current_budget r)) <$> rows1
  = (fun r => (account r, current_budget r)) <$> rows2 ->
  baselineSum rows1 = baselineSum rows2.
Proof.
  intros H. unfold Engine.baselineSum. f_equal.
  revert rows2 H. induction rows1 as [|a rows1 IH]; intros [|b rows2] H;
    try discriminate; [reflexivity|].
  injection H as Ha Hc Hrest.
  assert (Hs : not_summary a = not_summary b)
    by (unfold not_summary; now rewrite Ha).
  simpl. rewrite Hs.
  destruct (not_summary b); simpl; rewrite ?Hc; [f_equal|]; now apply IH.
Qed.

Lemma baselineSum_post_amounts (impact : Impact) (i j k : nat)
    (rows : list BudgetRow) :
  baselineSum (post_amounts impact i j k rows) = baselineSum rows.
Proof. apply baselineSum_ext. now apply post_amounts_fmap. Qed.

Lemma filter_not_summary_idem (rows : list BudgetRow) :
  List.filter not_summary (List.filter not_summary rows)
  = List.filter not_summary rows.
Proof.
  induction rows as [|r rows IH]; [reflexivity|]. simpl.
  destruct (not_summary r) eqn:E; simpl; rewrite ?E, IH; reflexivity.
Qed.

Lemma sum_snoc (xs : list number) (x : number) :
  sum (xs ++ [x]) = add (sum xs) x.
Proof. unfold sum. now rewrite fold_left_app. Qed.

(** Leaving SUMMARY out and adding an empty row for the indirect-cost
    account does not change the total. *)
Lemma baselineSum_working_copy (fandaAcct : string)
    (baselineRows : list BudgetRow) :
  baselineSum (fst (working_copy fandaAcct baselineRows))
  = baselineSum baselineRows.
Proof.
  destruct (working_copy_rows fandaAcct baselineRows) as [[_ ->]|[_ ->]].
  - unfold Engine.baselineSum. now rewrite filter_not_summary_idem.
  - simpl. unfold Engine.baselineSum.
    rewrite List.filter_app, filter_not_summary_idem. simpl.
    destruct (not_summary (newFandaRow fandaAcct)).
    + rewrite map_app. simpl. rewrite sum_snoc, toCents_zero.
      apply add_zero_r.
    + now rewrite app_nil_r.
Qed.

(** The total of the rows a call returns is the total of the rows it was
    given. *)
Lemma applyOne_conserves (id : string) (rates : option RatesData)
    (baselineRows snapshot : list BudgetRow) (fromAcct toAcct : string)
    (amountCents : number) (mode : TransferMode)
    (rows' : list BudgetRow) (logRow : MappingRow) :
  applyOne id rates baselineRows snapshot fromAcct toAcct amountCents mode
  = Ok (rows', logRow) ->
  baselineSum rows' = baselineSum baselineRows.
Proof.
  intros Hrun.
  destruct (applyOne_Ok_rows _ _ _ _ _ _ _ _ _ _ Hrun)
    as (rows & fandaRow & fromRow & toRow & impact
        & _ & _ & Hw & _ & _ & _ & -> & _).
  rewrite baselineSum_post_amounts.
  rewrite <- (baselineSum_working_copy (fandaAcctOf rates) baselineRows).
  now rewrite Hw.
Qed.

(** The reconciliation stops a call only on a total that is not a
    number. *)
Lemma applyOne_NotReconciled (id : string) (rates : option RatesData)
    (baselineRows snapshot : list BudgetRow) (fromAcct toAcct : string)
    (amountCents : number) (mode : TransferMode) :
  applyOne id rates baselineRows snapshot fromAcct toAcct amountCents mode
  = Throw NotReconciled ->
  baselineSum baselineRows = NaN.
Proof.
  intros Hrun.
  destruct (applyOne_reached id rates baselineRows snapshot fromAcct toAcct
              amountCents mode (or_intror Hrun))
    as (rows & fandaRow & fromRow & toRow & impact
        & Hf & Ht & Hw & Hfr & Htr & Hne & Himp).
  rewrite (applyOne_checked id rates baselineRows snapshot fromAcct toAcct
             amountCents mode rows fandaRow fromRow toRow impact
             Hf Ht Hw Hfr Htr Hne Himp) in Hrun.
  simpl in Hrun.
  destruct (ltb _ (toCents _)); [discriminate|].
  destruct (ltb _ (of_Z 0)); [discriminate|].
  rewrite baselineSum_post_amounts in Hrun.
  replace rows with (fst (working_copy (fandaAcctOf rates) baselineRows))
    in Hrun by now rewrite Hw.
  rewrite baselineSum_working_copy in Hrun.
  destruct (baselineSum baselineRows) as [q| | |] eqn:E;
    [| discriminate | discriminate | reflexivity].
  rewrite strict_eq_refl in Hrun by discriminate. discriminate.
Qed.

Lemma project_loop_conserves (ids : nat -> string) (rates : option RatesData)
    (snapshot : list BudgetRow) (transfers : list TransferItem) :
  forall (n : nat) (working : list BudgetRow) (logs : list MappingRow)
         (p : Projection),
    project_loop ids n rates snapshot working logs transfers = Ok p ->
    baselineSum (finalRows p) = baselineSum working.
Proof.
  induction transfers as [|t rest IH]; intros n working logs p Hp.
  - injection Hp as <-. reflexivity.
  - simpl in Hp.
    destruct (applyOne (ids n) rates working snapshot (t_from t) (t_to t)
                (amount_cents t) (t_mode t)) as [[rows' logRow]|e] eqn:E;
      [|discriminate].
    simpl in Hp. rewrite (IH _ _ _ _ Hp).
    now apply applyOne_conserves in E.
Qed.

Lemma project_loop_NotReconciled (ids : nat -> string)
    (rates : option RatesData) (snapshot : list BudgetRow)
    (transfers : list TransferItem) :
  forall (n : nat) (working : list BudgetRow) (logs : list MappingRow),
    project_loop ids n rates snapshot working logs transfers
    = Throw NotReconciled ->
    baselineSum working = NaN.
Proof.
  induction transfers as [|t rest IH]; intros n working logs Hp;
    [discriminate|].
  simpl in Hp.
  destruct (applyOne (ids n) rates working snapshot (t_from t) (t_to t)
              (amount_cents t) (t_mode t)) as [[rows' logRow]|e] eqn:E.
  - simpl in Hp. apply IH in Hp.
    now rewrite <- (applyOne_conserves _ _ _ _ _ _ _ _ _ _ E).
  - simpl in Hp. injection Hp as ->. now apply applyOne_NotReconciled in E.
Qed.

(** Conservation.  When [projectWithTransfers] returns, the cents of the
    current budgets of the rows other than SUMMARY add up to the same total
    in [finalRows] as in the input.  The reconciliation at the end of
    [applyOne] stops a call, or a batch, only when that total of the input
    is not a number. *)
Theorem projectWithTransfers_conserves (ids : nat -> string)
    (rates : option RatesData) (baselineRows snapshot : list BudgetRow)
    (transfers : list TransferItem) :
  (forall p,
     projectWithTransfers ids rates baselineRows snapshot transfers = Ok p ->
     baselineSum (finalRows p) = baselineSum baselineRows)
  /\ (baselineSum baselineRows <> NaN ->
      projectWithTransfers ids rates baselineRows snapshot transfers
      <> Throw NotReconciled)
  /\ (baselineSum baselineRows <> NaN ->
      forall id fromAcct toAcct amountCents mode,
        applyOne id rates baselineRows snapshot fromAcct toAcct amountCents
          mode <> Throw NotReconciled).
Proof.
  split; [|split].
  - intros p Hp. now apply project_loop_conserves in Hp.
  - intros Hn Hp. now apply project_loop_NotReconciled in Hp.
  - intros Hn id fromAcct toAcct amountCents mode Hp.
    now apply applyOne_NotReconciled in Hp.
Qed.

(** A total of integers is an integer. *)
Lemma sum_NaN (xs : list number) :
  (forall x, x ∈ xs -> x = NaN \/ exists z, x = of_Z z) ->
  sum xs = NaN -> NaN ∈ xs.
Proof.
  unfold sum. generalize 0 as acc.
  induction xs as [|x xs IH]; intros acc Hxs H; [discriminate|].
  cbn [fold_left] in H.
  destruct (Hxs x (list_elem_of_here _ _)) as [-> | [z ->]];
    [apply list_elem_of_here|].
  rewrite add_of_Z in H. apply list_elem_of_further.
  apply (IH (acc + z)); [|exact H].
  intros y Hy. apply Hxs. now apply list_elem_of_further.
Qed.

(** The total is not a number only when a row other than SUMMARY has
    [-Infinity] for current budget, or a budget so large that its text is
    in exponent form. *)
Lemma baselineSum_NaN (rows : list BudgetRow) :
  baselineSum rows = NaN ->
  exists r,
    r ∈ rows /\ account r <> "SUMMARY"
    /\ (current_budget r = NInf
        \/ exists q, current_budget r = Fin q
                     /\ (inject_Z (10 ^ 21) <= Qabs q)%Q).
Proof.
  intros H. unfold Engine.baselineSum in H. apply sum_NaN in H.
  - apply list_elem_of_In, in_map_iff in H as (r & Hr & Hin).
    apply list_elem_of_In, elem_of_kept in Hin as [Hin Hs].
    exists r. split; [exact Hin|]. split; [exact Hs|].
    now apply (toCents_number_NaN exp_form).
  - intros x Hx. apply list_elem_of_In, in_map_iff in Hx as (r & <- & _).
    apply toCents_cases.
Qed.

(** With budgets that are finite and below [10^21], or [NaN], or
    [Infinity], no call and no batch stops at the reconciliation. *)
Theorem reconciliation_passes (ids : nat -> string)
    (rates : option RatesData) (baselineRows snapshot : list BudgetRow)
    (transfers : list TransferItem) :
  (forall r, r ∈ baselineRows -> account r <> "SUMMARY" ->
     current_budget r <> NInf
     /\ forall q, current_budget r = Fin q ->
                  (Qabs q < inject_Z (10 ^ 21))%Q) ->
  projectWithTransfers ids rates baselineRows snapshot transfers
  <> Throw NotReconciled
  /\ forall id fromAcct toAcct amountCents mode,
       applyOne id rates baselineRows snapshot fromAcct toAcct amountCents
         mode <> Throw NotReconciled.
Proof.
  intros Hrows.
  assert (Hn : baselineSum baselineRows <> NaN).
  { intros H. apply baselineSum_NaN in H as (r & Hin & Hs & Hbad).
    destruct (Hrows r Hin Hs) as [Hinf Hfin].
    destruct Hbad as [Hbad | (q & Hq & Hbig)]; [contradiction|].
    apply (Qlt_not_le _ _ (Hfin q Hq)). exact Hbig. }
  split.
  - intros Hp. now apply project_loop_NotReconciled in Hp.
  - intros id fromAcct toAcct amountCents mode Hp.
    now apply applyOne_NotReconciled in Hp.
Qed.

End Ledger.

(** ** The statements on the sample budget *)

(** Ten thousand dollars to Supplies take 12,760.00 from Student Aid and
    add 2,760.00 to the indirect-cost row. *)
Example applyOne_mock :
  Engine.applyOne Samples.no_exp_form "t1" (Some Samples.mockRates)
    Samples.mockBudget Samples.mockBudget "53800" "52000"
    (of_Z 1000000) DirectToDest
  = Ok (set_change <$>
          [ debit (Fin (1276000 # 100))
              (Samples.mockRow "53800" "Student Aid" 50000);
            Samples.mockRow "51110" "PI Summer" 0;
            credit (Fin (1000000 # 100))
              (Samples.mockRow "52000" "Supplies" 20000);
            credit (Fin (276000 # 100))
              (Samples.mockRow "58960" "F&A" 30000) ],
        logRowOf "t1" "53800" "52000"
          {| source_out := of_Z 1276000; direct_to_dest := of_Z 1000000;
             fa_added := of_Z 276000; eligible := true |} DirectToDest).
Proof. vm_compute. reflexivity. Qed.

Lemma applyOne_validation_order_witness :
  Engine.applyOne Samples.no_exp_form "t1" (Some Samples.mockRates)
    Samples.mockBudget Samples.mockBudget "53800" "52000"
    (of_Z 10000000) DirectToDest
  = Throw (EncumbranceBreach "53800").
Proof.
  pose proof (applyOne_validation_order Samples.no_exp_form "t1"
                (Some Samples.mockRates) Samples.mockBudget
                Samples.mockBudget "53800" "52000" (of_Z 10000000)
                DirectToDest) as H.
  cbv zeta in H. destruct H as [_ H].
  destruct H as (_ & _ & H); [split; discriminate|].
  destruct H as [_ H]; [split; apply list_elem_of_In; vm_compute; tauto|].
  destruct H as [_ H]; [discriminate|].
  exact (proj1 (H _ _ _ eq_refl eq_refl) eq_refl).
Defined.

Lemma applyOne_without_encumbrance_witness :
  Engine.applyOne Samples.no_exp_form "t1" (Some Samples.mockRates)
    Samples.mockBudget [] "53800" "52000" (of_Z 10000000) DirectToDest
  = Throw (EncumbranceBreach "53800").
Proof.
  pose proof (applyOne_without_encumbrance Samples.no_exp_form "t1"
                (Some Samples.mockRates) Samples.mockBudget [] "53800"
                "52000" (of_Z 10000000) DirectToDest (or_introl eq_refl))
    as H.
  cbv zeta in H. destruct H as (_ & _ & H).
  destruct (H {| source_out := of_Z 12760000; direct_to_dest := of_Z 10000000;
                 fa_added := of_Z 2760000; eligible := true |}
              O (Samples.mockRow "53800" "Student Aid" 50000))
    as [H' _].
  - discriminate.
  - discriminate.
  - reflexivity.
  - apply list_elem_of_In; vm_compute; tauto.
  - discriminate.
  - reflexivity.
  - apply H'. reflexivity.
Defined.

(** A policy whose indirect-cost account is "SUMMARY": the row the call
    creates for it is a row named "SUMMARY" among the rows returned. *)
Lemma applyOne_returns_SUMMARY :
  exists rows' logRow,
    Engine.applyOne Samples.no_exp_form "t1"
      (Some {| fa_rate := None;
               wrs_account_numbers := Some {| indirect_costs := Some "SUMMARY" |};
               mtdc_eligible_accounts := None |})
      Samples.mockBudget Samples.mockBudget "53800" "52000"
      (of_Z 1000000) DirectToDest
    = Ok (rows', logRow)
    /\ "SUMMARY" ∈ account <$> rows'.
Proof.
  eexists _, _. split; [vm_compute; reflexivity|].
  apply list_elem_of_In. simpl. tauto.
Qed.

Lemma applyOne_returned_rows_witness :
  "58960" ∈ account <$>
    (set_change <$>
       [ debit (Fin (1276000 # 100)) (Samples.mockRow "53800" "Student Aid" 50000);
         Samples.mockRow "51110" "PI Summer" 0;
         credit (Fin (1000000 # 100)) (Samples.mockRow "52000" "Supplies" 20000);
         credit (Fin (276000 # 100)) (Samples.mockRow "58960" "F&A" 30000) ]).
Proof.
  refine (proj1 (applyOne_returned_rows Samples.no_exp_form "t1"
                   (Some Samples.mockRates) Samples.mockBudget
                   Samples.mockBudget "53800" "52000" (of_Z 1000000)
                   DirectToDest _
                   (logRowOf "t1" "53800" "52000"
                      {| source_out := of_Z 1276000;
                         direct_to_dest := of_Z 1000000;
                         fa_added := of_Z 276000; eligible := true |}
                      DirectToDest) _)).
  vm_compute. reflexivity.
Defined.

(** C1, at a baseline with a current budget of [-Infinity].  [toFixed]
    prints "-Infinity", of which only the minus sign is kept, and
    [parseInt] makes [NaN] of it: the fraction is guarded by [|| 0], the
    integer part is not.  The two totals are [NaN], they differ, and the
    call stops at the reconciliation although every check before it
    passed; so does a batch with this one transfer. *)
Theorem applyOne_not_reconciled :
  let baselineRows :=
    {| account := "59000"; description := "Other";
       current_budget := NInf; proposed_budget := of_Z 0;
       encumbrances := None; change := None |} :: Samples.mockBudget in
  Engine.toCents Samples.no_exp_form (inl NInf) = NaN
  /\ Engine.baselineSum Samples.no_exp_form baselineRows = NaN
  /\ Engine.applyOne Samples.no_exp_form "t1" (Some Samples.mockRates)
       baselineRows Samples.mockBudget "53800" "52000" (of_Z 1000000)
       DirectToDest
     = Throw NotReconciled
  /\ Engine.projectWithTransfers Samples.no_exp_form (fun _ => "t1")
       (Some Samples.mockRates) baselineRows Samples.mockBudget
       [ {| t_id := "a"; t_from := "53800"; t_to := "52000";
            amount_cents := of_Z 1000000; t_mode := DirectToDest |} ]
     = Throw NotReconciled.
Proof. vm_compute. repeat split; reflexivity. Qed.

Lemma reconciliation_passes_witness :
  Engine.projectWithTransfers Samples.no_exp_form (fun _ => "t")
    (Some Samples.mockRates) Samples.mockBudget Samples.mockBudget
    [ {| t_id := "a"; t_from := "53800"; t_to := "52000";
         amount_cents := of_Z 1000000; t_mode := DirectToDest |} ]
  <> Throw NotReconciled
  /\ forall id fromAcct toAcct amountCents mode,
       Engine.applyOne Samples.no_exp_form id (Some Samples.mockRates)
         Samples.mockBudget Samples.mockBudget fromAcct toAcct amountCents
         mode
       <> Throw NotReconciled.
Proof.
  apply (reconciliation_passes Samples.no_exp_form (fun _ => "t")
           (Some Samples.mockRates) Samples.mockBudget Samples.mockBudget).
  intros r Hr _. apply list_elem_of_In in Hr. simpl in Hr.
  destruct Hr as [<- | [<- | [<- | [<- | []]]]];
    (split; [discriminate | intros q [= <-]; reflexivity]).
Defined.

(* ================================================================== *)
(** * What a call may modify *)
(* ================================================================== *)

Module StoreFacts.
Import Store.

(** ** Rules *)

Lemma triple_ret {A : Type} (P : store -> Prop) (a : A)
    (Q : A -> store -> Prop) (E : store -> Prop) :
  (forall σ, P σ -> Q a σ) -> triple P (mret a) Q E.
Proof. intros H σ HP. now apply H. Qed.

Lemma triple_bind {A B : Type} (P : store -> Prop) (m : M A) (k : A -> M B)
    (Q : A -> store -> Prop) (R : B -> store -> Prop) (E : store -> Prop) :
  triple P m Q E -> (forall a, triple (Q a) (k a) R E) ->
  triple P (m ≫= k) R E.
Proof.
  intros Hm Hk σ HP. specialize (Hm σ HP). unfold mbind, M_bind.
  destruct (m σ) as [[a| |] σ']; try exact Hm. now apply Hk.
Qed.

(** The same, when [m] establishes a fact [φ] about its value alone. *)
Lemma triple_bind_pure {A B : Type} (P P' : store -> Prop) (φ : A -> Prop)
    (m : M A) (k : A -> M B) (R : B -> store -> Prop) (E : store -> Prop) :
  triple P m (fun a σ => φ a /\ P' σ) E ->
  (forall a, φ a -> triple P' (k a) R E) ->
  triple P (m ≫= k) R E.
Proof.
  intros Hm Hk. apply (triple_bind _ _ _ _ _ _ Hm).
  intros a σ [Ha HP]. now apply Hk.
Qed.

(** A fact that is not about the store can leave the precondition. *)
Lemma triple_pre_pure {A : Type} (φ : Prop) (P : store -> Prop) (m : M A)
    (Q : A -> store -> Prop) (E : store -> Prop) :
  (φ -> triple P m Q E) -> triple (fun σ => φ /\ P σ) m Q E.
Proof. intros H σ [Hφ HP]. now apply H. Qed.

Lemma triple_weaken {A : Type} (P P' : store -> Prop) (m : M A)
    (Q Q' : A -> store -> Prop) (E : store -> Prop) :
  (forall σ, P' σ -> P σ) -> (forall a σ, Q a σ -> Q' a σ) ->
  triple P m Q E -> triple P' m Q' E.
Proof.
  intros HP HQ Hm σ H. specialize (Hm σ (HP σ H)).
  destruct (m σ) as [[a| |] σ']; auto.
Qed.

(** ** Computations that only read *)

Lemma triple_readonly {A : Type} (P E : store -> Prop) (m : M A) :
  readonly m -> (forall σ, P σ -> E σ) ->
  triple P m (fun _ σ => P σ) E.
Proof.
  intros Hr HE σ HP. specialize (Hr σ).
  destruct (m σ) as [[a| |] σ']; simpl in Hr; subst σ'; auto.
Qed.

Lemma readonly_ret {A : Type} (a : A) : readonly (mret a : M A).
Proof. intros σ. reflexivity. Qed.

Lemma readonly_bind {A B : Type} (m : M A) (k : A -> M B) :
  readonly m -> (forall a, readonly (k a)) -> readonly (m ≫= k).
Proof.
  intros Hm Hk σ. unfold mbind, M_bind. specialize (Hm σ).
  destruct (m σ) as [[a| |] σ']; simpl in *; subst σ'; try reflexivity.
  apply Hk.
Qed.

Lemma readonly_throw {A : Type} (e : error) : readonly (throw e : M A).
Proof. intros σ. reflexivity. Qed.

Lemma readonly_throw_if (c : bool) (e : error) : readonly (throw_if c e).
Proof. intros σ. now destruct c. Qed.

Lemma readonly_lift {A : Type} (o : outcome A) : readonly (lift o).
Proof. intros σ. now destruct o. Qed.

Lemma readonly_found {A : Type} (row : option A) (e : error) :
  readonly (found row e).
Proof. intros σ. now destruct row. Qed.

Lemma readonly_get_row (l : loc) : readonly (get_row l).
Proof. intros σ. unfold get_row. now destruct (σ !! l) as [[]|]. Qed.

Lemma readonly_get_arr (l : loc) : readonly (get_arr l).
Proof. intros σ. unfold get_arr. now destruct (σ !! l) as [[]|]. Qed.

Lemma readonly_get_item (l : loc) : readonly (get_item l).
Proof. intros σ. unfold get_item. now destruct (σ !! l) as [[]|]. Qed.

Lemma readonly_filter_rows (p : BudgetRow -> bool) (refs : list loc) :
  readonly (filter_rows p refs).
Proof.
  induction refs as [|l refs IH]; simpl; [apply readonly_ret|].
  apply readonly_bind; [apply readonly_get_row|]. intros r.
  apply readonly_bind; [exact IH|]. intros rest. apply readonly_ret.
Qed.

Lemma readonly_map_rows {A : Type} (f : BudgetRow -> A) (refs : list loc) :
  readonly (map_rows f refs).
Proof.
  induction refs as [|l refs IH]; simpl; [apply readonly_ret|].
  apply readonly_bind; [apply readonly_get_row|]. intros r.
  apply readonly_bind; [exact IH|]. intros rest. apply readonly_ret.
Qed.

Lemma readonly_find_ref (acct : string) (refs : list loc) :
  readonly (find_ref acct refs).
Proof.
  induction refs as [|l refs IH]; simpl; [apply readonly_ret|].
  apply readonly_bind; [apply readonly_get_row|]. intros r.
  destruct (bool_decide _); [apply readonly_ret | exact IH].
Qed.

Lemma readonly_encumbrancesFor (acct : string) (snapshot : loc) :
  readonly (encumbrancesFor acct snapshot).
Proof.
  unfold encumbrancesFor.
  apply readonly_bind; [apply readonly_get_arr|]. intros elems.
  apply readonly_bind; [apply readonly_find_ref|]. intros [l|].
  - apply readonly_bind; [apply readonly_get_row|]. intros r.
    apply readonly_ret.
  - apply readonly_ret.
Qed.

Lemma readonly_baselineSum (exp_form : Q -> string) (rows : loc) :
  readonly (baselineSum exp_form rows).
Proof.
  unfold baselineSum.
  apply readonly_bind; [apply readonly_get_arr|]. intros elems.
  apply readonly_bind; [apply readonly_filter_rows|]. intros kept.
  apply readonly_bind; [apply readonly_map_rows|]. intros cents.
  apply readonly_ret.
Qed.

(** What [find] returns is an element of the array. *)
Lemma find_ref_elem (acct : string) (refs : list loc) (σ σ' : store)
    (l : loc) :
  find_ref acct refs σ = (Val (Some l), σ') -> l ∈ refs.
Proof.
  revert σ. induction refs as [|x refs IH]; intros σ H; [discriminate|].
  simpl in H. unfold mbind, M_bind in H.
  pose proof (readonly_get_row x σ) as Hr.
  destruct (get_row x σ) as [[r| |] σ1]; try discriminate.
  simpl in Hr. subst σ1.
  destruct (bool_decide _).
  - injection H as <- _. apply list_elem_of_here.
  - apply list_elem_of_further. now apply (IH σ).
Qed.

(** ** Stores that extend a given one *)

Section Extending.

Variable σ0 : store.

Lemma extends_refl : extends σ0 σ0.
Proof. unfold extends. reflexivity. Qed.

Lemma extends_length (σ : store) :
  extends σ0 σ -> (length σ0 <= length σ)%nat.
Proof. apply prefix_length. Qed.

Lemma extends_alloc (σ : store) (c : cell) :
  extends σ0 σ -> extends σ0 (σ ++ [c])%list.
Proof. intros H. now apply prefix_app_r. Qed.

(** A write to an object allocated after [σ0]. *)
Lemma extends_insert (σ : store) (l : loc) (c : cell) :
  extends σ0 σ -> (length σ0 <= l)%nat -> extends σ0 (<[l := c]> σ).
Proof.
  intros [k ->] Hl. unfold extends.
  rewrite insert_app_r_alt by exact Hl. now apply prefix_app_r.
Qed.

Lemma extends_lookup (σ : store) (l : loc) (c : cell) :
  extends σ0 σ -> σ0 !! l = Some c -> σ !! l = Some c.
Proof. intros [k ->] H. now apply lookup_app_l_Some. Qed.

Lemma fresh_arr_extends (a : loc) (σ : store) :
  fresh_arr σ0 a σ -> extends σ0 σ.
Proof. now intros [H _]. Qed.

Lemma triple_read {A : Type} (P : store -> Prop) (m : M A) :
  readonly m -> (forall σ, P σ -> extends σ0 σ) ->
  triple P m (fun _ σ => P σ) (extends σ0).
Proof. apply triple_readonly. Qed.

Lemma triple_find_ref (P : store -> Prop) (acct : string) (refs : list loc) :
  (forall σ, P σ -> extends σ0 σ) ->
  Forall (fun l => (length σ0 <= l)%nat) refs ->
  triple P (find_ref acct refs)
    (fun r σ => (forall l, r = Some l -> (length σ0 <= l)%nat) /\ P σ)
    (extends σ0).
Proof.
  intros HE Hrefs σ HP.
  pose proof (readonly_find_ref acct refs σ) as Hr.
  destruct (find_ref acct refs σ) as [[r| |] σ'] eqn:Ef; simpl in Hr;
    subst σ'; auto.
  split; [|exact HP]. intros l ->.
  apply find_ref_elem in Ef. rewrite Forall_forall in Hrefs. now apply Hrefs.
Qed.

Lemma triple_alloc (c : cell) :
  triple (extends σ0) (alloc c)
    (fun l σ => (length σ0 <= l)%nat /\ extends σ0 σ) (extends σ0).
Proof.
  intros σ H. simpl. split; [now apply extends_length | now apply extends_alloc].
Qed.

Lemma triple_copy_rows (refs : list loc) :
  triple (extends σ0) (copy_rows refs)
    (fun copies σ =>
       Forall (fun l => (length σ0 <= l)%nat) copies /\ extends σ0 σ)
    (extends σ0).
Proof.
  induction refs as [|l refs IH]; simpl.
  - apply triple_ret. intros σ H. split; [constructor | exact H].
  - eapply triple_bind;
      [apply (triple_read (extends σ0)); [apply readonly_get_row | auto]|].
    intros r. eapply triple_bind_pure; [apply triple_alloc|].
    intros l' Hl'. eapply triple_bind_pure; [exact IH|].
    intros rest Hrest. apply triple_ret. intros σ H.
    split; [now constructor | exact H].
Qed.

(** The new array of fresh copies. *)
Lemma triple_alloc_arr (refs : list loc) :
  Forall (fun l => (length σ0 <= l)%nat) refs ->
  triple (extends σ0) (alloc (Arr refs)) (fun a σ => fresh_arr σ0 a σ)
    (extends σ0).
Proof.
  intros Hrefs σ H. simpl. split; [now apply extends_alloc|].
  split; [now apply extends_length|]. exists refs. split; [|exact Hrefs].
  now rewrite lookup_app_r, Nat.sub_diag by reflexivity.
Qed.

Lemma triple_get_fresh_arr (a : loc) :
  triple (fresh_arr σ0 a) (get_arr a)
    (fun elems σ =>
       Forall (fun l => (length σ0 <= l)%nat) elems /\ fresh_arr σ0 a σ)
    (extends σ0).
Proof.
  intros σ H. unfold get_arr.
  destruct H as (He & Ha & refs & Hl & Hrefs). rewrite Hl.
  split; [exact Hrefs|]. split; [exact He|]. split; [exact Ha|]. eauto.
Qed.

Lemma triple_alloc_keep (a : loc) (c : cell) :
  triple (fresh_arr σ0 a) (alloc c)
    (fun l σ => (length σ0 <= l)%nat /\ fresh_arr σ0 a σ) (extends σ0).
Proof.
  intros σ (He & Ha & refs & Hl & Hrefs). simpl.
  split; [now apply extends_length|]. split; [now apply extends_alloc|].
  split; [exact Ha|]. exists refs. split; [|exact Hrefs].
  now apply lookup_app_l_Some.
Qed.

Lemma triple_push (a l : loc) :
  (length σ0 <= l)%nat ->
  triple (fresh_arr σ0 a) (push a l) (fun _ σ => fresh_arr σ0 a σ)
    (extends σ0).
Proof.
  intros Hfresh σ (He & Ha & refs & Hl & Hrefs). unfold push. rewrite Hl.
  split; [now apply extends_insert|]. split; [exact Ha|].
  exists (refs ++ [l])%list. split.
  - apply list_lookup_insert_eq. now apply lookup_lt_Some in Hl.
  - apply Forall_app. split; [exact Hrefs | now constructor].
Qed.

(** An assignment to a row allocated after [σ0]; the array is another
    object. *)
Lemma triple_update_row (a l : loc) (f : BudgetRow -> BudgetRow) :
  (length σ0 <= l)%nat ->
  triple (fresh_arr σ0 a) (update_row l f) (fun _ σ => fresh_arr σ0 a σ)
    (extends σ0).
Proof.
  intros Hfresh σ (He & Ha & refs & Hl & Hrefs). unfold update_row.
  destruct (σ !! l) as [[r| | |]|] eqn:El; try exact He.
  split; [now apply extends_insert|]. split; [exact Ha|].
  exists refs. split; [|exact Hrefs].
  rewrite list_lookup_insert_ne; [exact Hl|]. intros ->. congruence.
Qed.

Lemma triple_for_each_update (a : loc) (f : BudgetRow -> BudgetRow)
    (refs : list loc) :
  Forall (fun l => (length σ0 <= l)%nat) refs ->
  triple (fresh_arr σ0 a) (for_each (fun l => update_row l f) refs)
    (fun _ σ => fresh_arr σ0 a σ) (extends σ0).
Proof.
  induction 1 as [|l refs Hl Hrefs IH]; simpl.
  - apply triple_ret. auto.
  - eapply triple_bind; [now apply triple_update_row|]. intros ?. exact IH.
Qed.

Lemma triple_push_ext (a l : loc) :
  (length σ0 <= a)%nat ->
  triple (extends σ0) (push a l) (fun _ σ => extends σ0 σ) (extends σ0).
Proof.
  intros Ha σ He. unfold push.
  destruct (σ !! a) as [[r|refs| |]|]; try exact He.
  now apply extends_insert.
Qed.

Lemma triple_found {A : Type} (P : store -> Prop) (row : option A)
    (e : error) (φ : A -> Prop) :
  (forall σ, P σ -> extends σ0 σ) ->
  (forall x, row = Some x -> φ x) ->
  triple P (found row e) (fun x σ => φ x /\ P σ) (extends σ0).
Proof.
  intros HE Hφ σ HP. destruct row as [x|]; simpl; auto.
Qed.

(** ** The two ledger functions *)

Variable exp_form : Q -> string.

Ltac read_step lem :=
  eapply triple_bind;
  [ apply triple_read; [apply lem | try apply fresh_arr_extends; auto]
  | intros ? ].

Lemma triple_working_copy (fandaAcct : string) (baselineRows : loc) :
  triple (extends σ0) (working_copy fandaAcct baselineRows)
    (fun out σ => (length σ0 <= snd out)%nat /\ fresh_arr σ0 (fst out) σ)
    (extends σ0).
Proof.
  unfold working_copy.
  read_step readonly_get_arr.
  read_step readonly_filter_rows.
  eapply triple_bind_pure; [apply triple_copy_rows|]. intros copies Hcopies.
  eapply triple_bind; [apply triple_alloc_arr; exact Hcopies|]. intros rows.
  eapply triple_bind_pure; [apply triple_get_fresh_arr|].
  intros elems Helems.
  eapply triple_bind_pure;
    [apply triple_find_ref; [apply fresh_arr_extends | exact Helems]|].
  intros found_fanda Hfound.
  eapply (triple_bind_pure _ (fresh_arr σ0 rows)
            (fun l => (length σ0 <= l)%nat)).
  { destruct found_fanda as [l|].
    - apply triple_ret. intros σ H. split; [now apply Hfound | exact H].
    - eapply triple_bind_pure; [apply triple_alloc_keep|]. intros l Hl.
      eapply triple_bind; [apply triple_push; exact Hl|]. intros ?.
      apply triple_ret. auto. }
  intros fandaRow Hfanda. apply triple_ret. auto.
Qed.

Lemma triple_post_amounts (impact : Impact) (fromRow toRow fandaRow rows : loc) :
  (length σ0 <= fromRow)%nat -> (length σ0 <= toRow)%nat ->
  (length σ0 <= fandaRow)%nat ->
  triple (fresh_arr σ0 rows)
    (post_amounts exp_form impact fromRow toRow fandaRow rows)
    (fun _ σ => fresh_arr σ0 rows σ) (extends σ0).
Proof.
  intros Hfrom Hto Hfanda. unfold post_amounts.
  eapply triple_bind; [apply triple_update_row; exact Hfrom|]. intros ?.
  eapply triple_bind; [apply triple_update_row; exact Hto|]. intros ?.
  eapply triple_bind; [apply triple_update_row; exact Hfanda|]. intros ?.
  eapply triple_bind_pure; [apply triple_get_fresh_arr|].
  intros elems Helems. now apply triple_for_each_update.
Qed.

(** [applyOne] writes to the copies it has made, and to nothing else: the
    array it returns, and every row in it, is allocated by the call. *)
Lemma triple_applyOne (id : string) (rates : option RatesData)
    (baselineRows snapshot : loc) (fromAcct toAcct : string)
    (amountCents : number) (mode : TransferMode) :
  triple (extends σ0)
    (applyOne exp_form id rates baselineRows snapshot fromAcct toAcct
       amountCents mode)
    (fun out σ => fresh_arr σ0 (fst out) σ) (extends σ0).
Proof.
  unfold applyOne.
  read_step readonly_throw_if.
  eapply triple_bind; [apply triple_working_copy|].
  intros [rows fandaRow]. apply triple_pre_pure. intros Hfanda.
  simpl in Hfanda. simpl fst.
  eapply triple_bind_pure; [apply triple_get_fresh_arr|].
  intros elems Helems.
  eapply triple_bind_pure;
    [apply triple_find_ref; [apply fresh_arr_extends | exact Helems]|].
  intros found_from Hfrom.
  eapply triple_bind_pure;
    [apply triple_find_ref; [apply fresh_arr_extends | exact Helems]|].
  intros found_to Hto.
  eapply triple_bind_pure;
    [apply (triple_found _ _ _ (fun l => (length σ0 <= l)%nat));
     [apply fresh_arr_extends | exact Hfrom]|].
  intros fromRow HfromRow.
  eapply triple_bind_pure;
    [apply (triple_found _ _ _ (fun l => (length σ0 <= l)%nat));
     [apply fresh_arr_extends | exact Hto]|].
  intros toRow HtoRow.
  read_step readonly_throw_if.
  read_step (@readonly_lift Impact).
  read_step readonly_encumbrancesFor.
  read_step readonly_get_row.
  cbv zeta.
  read_step readonly_throw_if.
  read_step readonly_throw_if.
  eapply triple_bind; [now apply triple_post_amounts|]. intros ?.
  eapply triple_bind_pure; [apply triple_alloc_keep|]. intros logRow _.
  read_step readonly_baselineSum.
  read_step readonly_baselineSum.
  read_step readonly_throw_if.
  apply triple_ret. auto.
Qed.

Lemma triple_project_loop (ids : nat -> string) (rates : option RatesData)
    (snapshot logs : loc) (transfers : list loc) :
  (length σ0 <= logs)%nat ->
  forall (n : nat) (working : loc),
    triple (extends σ0)
      (project_loop exp_form ids n rates snapshot working logs transfers)
      (fun _ σ => extends σ0 σ) (extends σ0).
Proof.
  intros Hlogs. induction transfers as [|l rest IH]; intros n working; simpl.
  - apply triple_ret. auto.
  - read_step readonly_get_item.
    eapply triple_bind.
    { eapply triple_weaken; [| |apply triple_applyOne]; [auto|].
      intros out σ H. apply (fresh_arr_extends _ _ H). }
    intros out.
    eapply triple_bind; [now apply triple_push_ext|]. intros ?. apply IH.
Qed.

Lemma triple_projectWithTransfers (ids : nat -> string)
    (rates : option RatesData) (baselineRows snapshot transfers : loc) :
  triple (extends σ0)
    (projectWithTransfers exp_form ids rates baselineRows snapshot transfers)
    (fun _ σ => extends σ0 σ) (extends σ0).
Proof.
  unfold projectWithTransfers.
  eapply triple_bind_pure; [apply triple_alloc|]. intros logs Hlogs.
  read_step readonly_get_arr.
  eapply triple_bind; [now apply triple_project_loop|]. intros working.
  apply triple_ret. auto.
Qed.

End Extending.

(** Read at a reference: what was there before a call is there after. *)
Lemma applyOne_keeps_lookup (exp_form : Q -> string) (σ : store)
    (id : string) (rates : option RatesData) (baselineRows snapshot : loc)
    (fromAcct toAcct : string) (amountCents : number) (mode : TransferMode)
    (l : loc) (c : cell) :
  σ !! l = Some c ->
  snd (applyOne exp_form id rates baselineRows snapshot fromAcct toAcct
         amountCents mode σ) !! l = Some c.
Proof.
  intros Hl.
  pose proof (triple_applyOne σ exp_form id rates baselineRows snapshot
                fromAcct toAcct amountCents mode σ (extends_refl σ)) as H.
  destruct (applyOne exp_form id rates baselineRows snapshot fromAcct toAcct
              amountCents mode σ) as [[out| |] σ']; simpl.
  - apply (extends_lookup σ); [|exact Hl].
    now apply (fresh_arr_extends σ (fst out)).
  - now apply (extends_lookup σ).
  - now apply (extends_lookup σ).
Qed.

(** C8.  Whatever [applyOne] or [projectWithTransfers] does, return or
    throw, at the first transfer or in the middle of a batch, the store
    after the call extends the store before it: every object that existed,
    the rows of the baseline, the rows of the snapshot, the transfer items
    and the three arrays among them, is at its reference with the content it
    had.  The rows [applyOne] returns are an array the call has allocated,
    holding rows the call has allocated. *)
Theorem calls_keep_their_arguments (exp_form : Q -> string) (σ : store) :
  (forall id rates baselineRows snapshot fromAcct toAcct amountCents mode,
     match applyOne exp_form id rates baselineRows snapshot fromAcct toAcct
             amountCents mode σ with
     | (Val out, σ') => fresh_arr σ (fst out) σ'
     | (_, σ') => extends σ σ'
     end)
  /\ (forall ids rates baselineRows snapshot transfers,
        extends σ
          (snd (projectWithTransfers exp_form ids rates baselineRows snapshot
                  transfers σ))).
Proof.
  split.
  - intros. apply (triple_applyOne σ). apply extends_refl.
  - intros.
    pose proof (triple_projectWithTransfers σ exp_form ids rates baselineRows
                  snapshot transfers σ (extends_refl σ)) as H.
    destruct (projectWithTransfers exp_form ids rates baselineRows snapshot
                transfers σ) as [[out| |] σ']; exact H.
Qed.

(** The mock budget in a store: four rows, the array of the baseline at 4,
    the array of the snapshot (the same rows) at 5, two transfer items and
    their array at 8.  The second transfer overdraws Student Aid: the batch
    throws after the first transfer has been applied to its copies, and
    the nine objects are as they were. *)
Example projectWithTransfers_mock_store :
  let σ := ((Row <$> Samples.mockBudget)
            ++ [ Arr [0; 1; 2; 3]; Arr [0; 1; 2; 3];
                 Item {| t_id := "a"; t_from := "53800"; t_to := "52000";
                         amount_cents := of_Z 1000000;
                         t_mode := DirectToDest |};
                 Item {| t_id := "b"; t_from := "53800"; t_to := "51110";
                         amount_cents := of_Z 4000000;
                         t_mode := BudgetTotal |};
                 Arr [6; 7] ])%list%nat in
  let '(r, σ') :=
    projectWithTransfers Samples.no_exp_form (fun _ => "id")
      (Some Samples.mockRates) 4%nat 5%nat 8%nat σ in
  r = Exn (EncumbranceBreach "53800")
  /\ take 9 σ' = σ
  /\ σ' !! 10%nat
     = Some (Row (set_change (debit (Fin (1276000 # 100))
                    (Samples.mockRow "53800" "Student Aid" 50000)))).
Proof. vm_compute. repeat split; reflexivity. Qed.

End StoreFacts.

(* ================================================================== *)
(** * The two ledgers agree *)
(* ================================================================== *)

(** The ledger on row values reads [fromRow], [toRow] and [fandaRow] as
    positions; the ledger on the store follows references.  They compute
    the same thing, because the working copy has one object of its own per
    position. *)

Module Refinement.
Import Store StoreFacts.

(** ** Running a computation *)

Lemma bind_Val {A B : Type} (m : M A) (k : A -> M B) (σ σ' : store) (a : A) :
  m σ = (Val a, σ') -> (m ≫= k) σ = k a σ'.
Proof. intros H. unfold mbind, M_bind. now rewrite H. Qed.

Lemma bind_Exn {A B : Type} (m : M A) (k : A -> M B) (σ σ' : store)
    (e : error) :
  m σ = (Exn e, σ') -> (m ≫= k) σ = (Exn e, σ').
Proof. intros H. unfold mbind, M_bind. now rewrite H. Qed.

Lemma holds_extends (σ σ' : store) (refs : list loc) (rows : list BudgetRow) :
  extends σ σ' -> holds σ refs rows -> holds σ' refs rows.
Proof.
  intros He H. unfold holds in *. eapply Forall2_impl; [exact H|].
  intros l r Hl. now apply (extends_lookup σ).
Qed.

Lemma holds_lookup (σ : store) (refs : list loc) (rows : list BudgetRow)
    (i : nat) (r : BudgetRow) :
  holds σ refs rows -> rows !! i = Some r ->
  exists l, refs !! i = Some l /\ σ !! l = Some (Row r).
Proof.
  intros H Hr. destruct (Forall2_lookup_r _ _ _ _ _ H Hr) as (l & Hl & Hs).
  eauto.
Qed.

Lemma get_row_run (σ : store) (l : loc) (r : BudgetRow) :
  σ !! l = Some (Row r) -> get_row l σ = (Val r, σ).
Proof. intros H. unfold get_row. now rewrite H. Qed.

Lemma get_arr_run (σ : store) (a : loc) (refs : list loc) :
  σ !! a = Some (Arr refs) -> get_arr a σ = (Val refs, σ).
Proof. intros H. unfold get_arr. now rewrite H. Qed.

Lemma filter_rows_run (p : BudgetRow -> bool) (σ : store) (refs : list loc)
    (rows : list BudgetRow) :
  holds σ refs rows ->
  exists kept,
    filter_rows p refs σ = (Val kept, σ)
    /\ holds σ kept (List.filter p rows).
Proof.
  induction 1 as [|l r refs rows Hl H IH]; simpl.
  - exists []. split; [reflexivity | constructor].
  - destruct IH as (kept & Hrun & Hk).
    rewrite (bind_Val _ _ _ _ _ (get_row_run σ l r Hl)).
    rewrite (bind_Val _ _ _ _ _ Hrun).
    destruct (p r).
    + exists (l :: kept). split; [reflexivity | now constructor].
    + exists kept. split; [reflexivity | exact Hk].
Qed.

Lemma map_rows_run {A : Type} (f : BudgetRow -> A) (σ : store)
    (refs : list loc) (rows : list BudgetRow) :
  holds σ refs rows -> map_rows f refs σ = (Val (map f rows), σ).
Proof.
  induction 1 as [|l r refs rows Hl H IH]; simpl; [reflexivity|].
  rewrite (bind_Val _ _ _ _ _ (get_row_run σ l r Hl)).
  now rewrite (bind_Val _ _ _ _ _ IH).
Qed.

(** [find] on references and [find_row] on values stop at the same
    position. *)
Lemma find_ref_run (acct : string) (σ : store) (refs : list loc)
    (rows : list BudgetRow) :
  holds σ refs rows ->
  find_ref acct refs σ
  = (Val (match find_row acct rows with
          | Some (i, _) => refs !! i
          | None => None
          end), σ).
Proof.
  induction 1 as [|l r refs rows Hl H IH]; simpl; [reflexivity|].
  rewrite (bind_Val _ _ _ _ _ (get_row_run σ l r Hl)).
  unfold find_row. simpl. destruct (decide (account r = acct)) as [E|E].
  - now rewrite (bool_decide_eq_true_2 _ E).
  - rewrite (bool_decide_eq_false_2 _ E), IH. unfold find_row.
    destruct (list_find _ rows) as [[i x]|]; reflexivity.
Qed.

Lemma copy_rows_run (σ : store) (refs : list loc) (rows : list BudgetRow) :
  holds σ refs rows ->
  copy_rows refs σ
  = (Val (seq (length σ) (length refs)), (σ ++ (Row <$> rows))%list).
Proof.
  intros H. revert σ H. revert rows.
  induction refs as [|l refs IH]; intros rows σ H.
  - apply Forall2_nil_inv_l in H as ->. simpl. now rewrite app_nil_r.
  - apply Forall2_cons_inv_l in H as (r & rows' & Hl & H & ->). simpl.
    rewrite (bind_Val _ _ _ _ _ (get_row_run σ l r Hl)).
    change ((alloc (Row r) ≫= _) σ) with
      ((rest ← copy_rows refs; mret (length σ :: rest)) (σ ++ [Row r])%list).
    assert (H' : holds (σ ++ [Row r])%list refs rows').
    { apply (holds_extends σ); [|exact H]. now apply prefix_app_r. }
    rewrite (bind_Val _ _ _ _ _ (IH rows' _ H')).
    unfold mret, M_ret. rewrite length_app, <- app_assoc. simpl.
    now rewrite Nat.add_1_r.
Qed.

Lemma holds_fresh_copies (σ : store) (rows : list BudgetRow) :
  holds (σ ++ (Row <$> rows))%list (seq (length σ) (length rows)) rows.
Proof.
  unfold holds. apply Forall2_same_length_lookup. split.
  - now rewrite length_seq.
  - intros i l r Hl Hr. apply lookup_seq in Hl as [-> Hi].
    rewrite lookup_app_r by lia.
    replace (length σ + i - length σ)%nat with i by lia.
    now rewrite list_lookup_fmap, Hr.
Qed.

Lemma working_extends (σ0 σ : store) (a : loc) (refs : list loc)
    (rows : list BudgetRow) :
  working σ0 σ a refs rows -> extends σ0 σ.
Proof. now intros [H _]. Qed.

(** The copies, once their array is allocated. *)
Lemma working_fresh (σ : store) (rows : list BudgetRow) :
  let σ1 := (σ ++ (Row <$> rows))%list in
  let refs := seq (length σ) (length rows) in
  working σ (σ1 ++ [Arr refs])%list (length σ1) refs rows.
Proof.
  intros σ1 refs. split; [|split; [|split; [|split]]].
  - unfold extends, σ1. rewrite <- app_assoc. now apply prefix_app_r.
  - now rewrite lookup_app_r, Nat.sub_diag by reflexivity.
  - apply (holds_extends σ1); [now apply prefix_app_r|].
    apply holds_fresh_copies.
  - apply NoDup_seq.
  - apply Forall_seq. intros j Hj. lia.
Qed.

(** An assignment to the row at position [i] of a working copy. *)
Lemma working_update (σ0 σ : store) (a : loc) (refs : list loc)
    (rows : list BudgetRow) (i : nat) (l : loc) (r : BudgetRow)
    (f : BudgetRow -> BudgetRow) :
  working σ0 σ a refs rows ->
  refs !! i = Some l -> rows !! i = Some r ->
  update_row l f σ = (Val tt, <[l := Row (f r)]> σ)
  /\ working σ0 (<[l := Row (f r)]> σ) a refs (alter f i rows).
Proof.
  intros (He & Ha & Hh & Hnd & Hfr) Hl Hr.
  assert (Hσl : σ !! l = Some (Row r)).
  { destruct (holds_lookup _ _ _ _ _ Hh Hr) as (l' & Hl' & Hs). congruence. }
  split; [unfold update_row; now rewrite Hσl|].
  split; [|split; [|split; [|split]]]; try assumption.
  - apply extends_insert; [exact He|].
    rewrite Forall_forall in Hfr. apply Hfr.
    now apply list_elem_of_lookup_2 in Hl.
  - rewrite list_lookup_insert_ne; [exact Ha|]. intros ->. congruence.
  - unfold holds in *. apply Forall2_same_length_lookup. split.
    + rewrite length_alter. now apply Forall2_length in Hh.
    + intros j l' r' Hl' Hr'. rewrite list_lookup_alter in Hr'.
      destruct (decide (i = j)) as [->|Hij].
      * rewrite Hr in Hr'. injection Hr' as <-.
        assert (l' = l) by congruence. subst l'.
        apply list_lookup_insert_eq. now apply lookup_lt_Some in Hσl.
      * assert (l <> l').
        { intros ->. apply Hij. now apply (NoDup_lookup refs i j l'). }
        rewrite list_lookup_insert_ne by assumption.
        destruct (Forall2_lookup_r _ _ _ _ _ Hh Hr') as (l'' & Hl'' & Hs).
        congruence.
Qed.

(** [forEach] over a working copy. *)
Lemma for_each_run (σ0 : store) (a : loc) (f : BudgetRow -> BudgetRow)
    (refs : list loc) :
  forall (done todo : list loc) (rows1 rows2 : list BudgetRow) (σ : store),
    refs = (done ++ todo)%list -> length done = length rows1 ->
    working σ0 σ a refs (rows1 ++ rows2)%list ->
    exists σ',
      for_each (fun l => update_row l f) todo σ = (Val tt, σ')
      /\ working σ0 σ' a refs (rows1 ++ (f <$> rows2))%list.
Proof.
  intros done todo. revert done.
  induction todo as [|l todo IH]; intros done rows1 rows2 σ Hrefs Hlen Hw.
  - exists σ. split; [reflexivity|].
    assert (Hl : length refs = length (rows1 ++ rows2)%list).
    { destruct Hw as (_ & _ & Hh & _). now apply Forall2_length in Hh. }
    rewrite Hrefs, !length_app in Hl. simpl in Hl.
    destruct rows2; [exact Hw | simpl in Hl; lia].
  - assert (Hl : length refs = length (rows1 ++ rows2)%list).
    { destruct Hw as (_ & _ & Hh & _). now apply Forall2_length in Hh. }
    rewrite Hrefs, !length_app in Hl. simpl in Hl.
    destruct rows2 as [|r rows2]; [simpl in Hl; lia|].
    assert (Hi : refs !! length done = Some l).
    { rewrite Hrefs, lookup_app_r, Nat.sub_diag by reflexivity. reflexivity. }
    assert (Hr : (rows1 ++ r :: rows2)%list !! length done = Some r).
    { rewrite Hlen, lookup_app_r, Nat.sub_diag by reflexivity. reflexivity. }
    destruct (working_update _ _ _ _ _ _ _ _ f Hw Hi Hr) as [Hrun Hw1].
    replace (alter f (length done) (rows1 ++ r :: rows2)%list)
      with ((rows1 ++ [f r]) ++ rows2)%list in Hw1.
    2:{ rewrite Hlen, alter_app_r_alt, Nat.sub_diag by reflexivity.
        now rewrite <- app_assoc. }
    destruct (IH (done ++ [l])%list (rows1 ++ [f r])%list rows2
                (<[l := Row (f r)]> σ))
      as (σ2 & Hrun2 & Hw2);
      [now rewrite <- app_assoc | rewrite !length_app; simpl; lia
      | exact Hw1 |].
    exists σ2. split.
    + simpl. rewrite (bind_Val _ _ _ _ _ Hrun). exact Hrun2.
    + now rewrite <- app_assoc in Hw2.
Qed.

Lemma for_each_all (σ0 σ : store) (a : loc) (f : BudgetRow -> BudgetRow)
    (refs : list loc) (rows : list BudgetRow) :
  working σ0 σ a refs rows ->
  exists σ',
    for_each (fun l => update_row l f) refs σ = (Val tt, σ')
    /\ working σ0 σ' a refs (f <$> rows).
Proof.
  intros Hw. now apply (for_each_run σ0 a f refs [] refs [] rows σ).
Qed.

Section Reading.

Variable exp_form : Q -> string.

Lemma encumbrancesFor_run (σ : store) (acct : string) (snapshot : loc)
    (snap : list BudgetRow) :
  rows_at σ snapshot snap ->
  Store.encumbrancesFor acct snapshot σ
  = (Val (Engine.encumbrancesFor acct snap), σ).
Proof.
  intros (refs & Ha & Hh). unfold Store.encumbrancesFor.
  rewrite (bind_Val _ _ _ _ _ (get_arr_run σ _ _ Ha)).
  rewrite (bind_Val _ _ _ _ _ (find_ref_run acct σ _ _ Hh)).
  unfold Engine.encumbrancesFor.
  destruct (find_row acct snap) as [[i r]|] eqn:E; [|reflexivity].
  apply find_row_Some in E as [Hi _].
  destruct (holds_lookup _ _ _ _ _ Hh Hi) as (l & -> & Hl).
  now rewrite (bind_Val _ _ _ _ _ (get_row_run σ l r Hl)).
Qed.

Lemma baselineSum_run (σ : store) (a : loc) (rows : list BudgetRow) :
  rows_at σ a rows ->
  Store.baselineSum exp_form a σ
  = (Val (Engine.baselineSum exp_form rows), σ).
Proof.
  intros (refs & Ha & Hh). unfold Store.baselineSum.
  rewrite (bind_Val _ _ _ _ _ (get_arr_run σ _ _ Ha)).
  destruct (filter_rows_run not_summary σ refs rows Hh) as (kept & Hrun & Hk).
  rewrite (bind_Val _ _ _ _ _ Hrun).
  now rewrite (bind_Val _ _ _ _ _ (map_rows_run _ σ kept _ Hk)).
Qed.

End Reading.

Lemma rows_at_extends (σ σ' : store) (a : loc) (rows : list BudgetRow) :
  extends σ σ' -> rows_at σ a rows -> rows_at σ' a rows.
Proof.
  intros He (refs & Ha & Hh). exists refs. split.
  - now apply (extends_lookup σ).
  - now apply (holds_extends σ).
Qed.

Lemma working_rows_at (σ0 σ : store) (a : loc) (refs : list loc)
    (rows : list BudgetRow) :
  working σ0 σ a refs rows -> rows_at σ a rows.
Proof. intros (_ & Ha & Hh & _). now exists refs. Qed.

(** The working copy in the store is the working copy on values. *)
Lemma working_copy_run (σ : store) (fandaAcct : string) (baselineRows : loc)
    (base : list BudgetRow) :
  rows_at σ baselineRows base ->
  exists σ' rows refs fandaRow,
    Store.working_copy fandaAcct baselineRows σ = (Val (rows, fandaRow), σ')
    /\ working σ σ' rows refs (fst (Engine.working_copy fandaAcct base))
    /\ refs !! snd (Engine.working_copy fandaAcct base) = Some fandaRow.
Proof.
  intros (B & Ha & Hh). unfold Store.working_copy.
  rewrite (bind_Val _ _ _ _ _ (get_arr_run σ _ _ Ha)).
  destruct (filter_rows_run not_summary σ B base Hh) as (kept & Hrun & Hk).
  rewrite (bind_Val _ _ _ _ _ Hrun).
  rewrite (bind_Val _ _ _ _ _ (copy_rows_run σ kept _ Hk)).
  set (W := List.filter not_summary base) in *.
  assert (Hlen : length kept = length W) by now apply Forall2_length in Hk.
  rewrite Hlen.
  set (σ1 := (σ ++ (Row <$> W))%list).
  set (C := seq (length σ) (length W)).
  pose proof (working_fresh σ W) as Hw. fold σ1 C in Hw. cbv zeta in Hw.
  change ((alloc (Arr C) ≫= _) σ1) with
    ((fun rows =>
        elems ← get_arr rows;
        fandaRow ← find_ref fandaAcct elems;
        fandaRow ← match fandaRow with
                   | Some l => mret l
                   | None =>
                       l ← alloc (Row (newFandaRow fandaAcct));
                       push rows l ;;
                       mret l
                   end;
        mret (rows, fandaRow)) (length σ1) (σ1 ++ [Arr C])%list).
  cbv beta.
  set (σ2 := (σ1 ++ [Arr C])%list) in *. set (rows := length σ1) in *.
  destruct Hw as (He & Hrows & HhC & Hnd & Hfr).
  rewrite (bind_Val _ _ _ _ _ (get_arr_run σ2 _ _ Hrows)).
  rewrite (bind_Val _ _ _ _ _ (find_ref_run fandaAcct σ2 _ _ HhC)).
  unfold Engine.working_copy. fold W.
  destruct (find_row fandaAcct W) as [[i r]|] eqn:Ef.
  - apply find_row_Some in Ef as [Hi _].
    destruct (holds_lookup _ _ _ _ _ HhC Hi) as (l & Hl & _).
    rewrite Hl. exists σ2, rows, C, l. simpl. repeat split; assumption.
  - set (nf := newFandaRow fandaAcct).
    assert (Hσ2 : length σ2 = S rows).
    { unfold σ2. rewrite length_app. simpl. unfold rows. lia. }
    exists (<[rows := Arr (C ++ [S rows])%list]> (σ2 ++ [Row nf])%list),
      rows, (C ++ [S rows])%list, (S rows).
    assert (Hr2 : (σ2 ++ [Row nf])%list !! rows = Some (Arr C)).
    { now apply lookup_app_l_Some. }
    assert (Hσ : (length σ <= rows)%nat).
    { unfold rows, σ1. rewrite length_app. lia. }
    split; [|split].
    + unfold mbind at 1, M_bind at 1. unfold mret at 1, M_ret at 1.
      unfold mbind at 1, M_bind at 1. unfold mbind at 1, M_bind at 1.
      unfold alloc. rewrite Hσ2. unfold push. rewrite Hr2. reflexivity.
    + split; [|split; [|split; [|split]]].
      * apply extends_insert; [|exact Hσ]. now apply extends_alloc.
      * apply list_lookup_insert_eq. apply lookup_lt_Some in Hr2. exact Hr2.
      * simpl. unfold holds. apply Forall2_app.
        -- eapply Forall2_impl; [exact HhC|]. intros l r Hl.
           assert (l <> rows) by (intros ->; congruence).
           rewrite list_lookup_insert_ne by congruence.
           now apply lookup_app_l_Some.
        -- constructor; [|constructor].
           rewrite list_lookup_insert_ne by lia.
           now rewrite lookup_app_r, Hσ2, Nat.sub_diag by lia.
      * apply NoDup_app. split; [exact Hnd|]. split; [|apply NoDup_singleton].
        intros l Hl Hin. apply list_elem_of_singleton in Hin. subst l.
        unfold C in Hl. apply elem_of_seq in Hl. unfold rows, σ1 in Hl.
        rewrite length_app, length_fmap in Hl. lia.
      * apply Forall_app. split; [exact Hfr|]. constructor; [lia|constructor].
    + simpl. rewrite lookup_app_r; unfold C; rewrite length_seq; [|lia].
      now rewrite Nat.sub_diag.
Qed.

Lemma working_row (σ0 σ : store) (a : loc) (refs : list loc)
    (rows : list BudgetRow) (i : nat) (l : loc) :
  working σ0 σ a refs rows -> refs !! i = Some l ->
  exists r, rows !! i = Some r /\ σ !! l = Some (Row r).
Proof.
  intros (_ & _ & Hh & _) Hl.
  destruct (Forall2_lookup_l _ _ _ _ _ Hh Hl) as (r & Hr & Hs). eauto.
Qed.

Lemma bind_ret {A B : Type} (a : A) (k : A -> M B) (σ : store) :
  (mret a ≫= k) σ = k a σ.
Proof. reflexivity. Qed.

Lemma bind_throw_if (c : bool) (e : error) {B : Type} (k : unit -> M B)
    (σ : store) :
  (Store.throw_if c e ≫= k) σ = if c then (Exn e, σ) else k tt σ.
Proof. now destruct c. Qed.

Lemma bind_lift {A B : Type} (o : outcome A) (k : A -> M B) (σ : store) :
  (lift o ≫= k) σ
  = match o with Ok a => k a σ | Throw e => (Exn e, σ) end.
Proof. now destruct o. Qed.

Lemma bind_found {A B : Type} (row : option A) (e : error) (k : A -> M B)
    (σ : store) :
  (Store.found row e ≫= k) σ
  = match row with Some x => k x σ | None => (Exn e, σ) end.
Proof. now destruct row. Qed.

Lemma bind_alloc {B : Type} (c : cell) (k : loc -> M B) (σ : store) :
  (alloc c ≫= k) σ = k (length σ) (σ ++ [c])%list.
Proof. reflexivity. Qed.

Lemma outcome_bind_Ok {A B : Type} (a : A) (k : A -> outcome B) :
  (Ok a ≫= k) = k a.
Proof. reflexivity. Qed.

Lemma outcome_bind_throw_if (c : bool) (e : error) {B : Type}
    (k : unit -> outcome B) :
  (Engine.throw_if c e ≫= k) = if c then Throw e else k tt.
Proof. now destruct c. Qed.

Lemma outcome_bind_found {A B : Type} (row : option A) (e : error)
    (k : A -> outcome B) :
  (Engine.found row e ≫= k)
  = match row with Some x => k x | None => Throw e end.
Proof. now destruct row. Qed.

Section Agreement.

Variable exp_form : Q -> string.

Lemma post_amounts_run (σ0 σ : store) (rows : loc) (refs : list loc)
    (W : list BudgetRow) (impact : Impact) (i j k : nat)
    (fromRow toRow fandaRow : loc) :
  working σ0 σ rows refs W ->
  refs !! i = Some fromRow -> refs !! j = Some toRow ->
  refs !! k = Some fandaRow ->
  exists σ',
    Store.post_amounts exp_form impact fromRow toRow fandaRow rows σ
    = (Val tt, σ')
    /\ working σ0 σ' rows refs (Engine.post_amounts exp_form impact i j k W).
Proof.
  intros Hw Hi Hj Hk. unfold Store.post_amounts, Engine.post_amounts.
  destruct (working_row _ _ _ _ _ _ _ Hw Hi) as (r1 & Hr1 & _).
  destruct (working_update _ _ _ _ _ _ _ _
              (debit (Number_of_string
                        (fromCents exp_form (source_out impact))))
              Hw Hi Hr1) as [Hrun1 Hw1].
  rewrite (bind_Val _ _ _ _ _ Hrun1).
  destruct (working_row _ _ _ _ _ _ _ Hw1 Hj) as (r2 & Hr2 & _).
  destruct (working_update _ _ _ _ _ _ _ _
              (credit (Number_of_string
                         (fromCents exp_form (direct_to_dest impact))))
              Hw1 Hj Hr2) as [Hrun2 Hw2].
  rewrite (bind_Val _ _ _ _ _ Hrun2).
  destruct (working_row _ _ _ _ _ _ _ Hw2 Hk) as (r3 & Hr3 & _).
  destruct (working_update _ _ _ _ _ _ _ _
              (credit (Number_of_string
                         (fromCents exp_form (fa_added impact))))
              Hw2 Hk Hr3) as [Hrun3 Hw3].
  rewrite (bind_Val _ _ _ _ _ Hrun3).
  assert (Ha : <[fandaRow:=Row
                   (credit (Number_of_string
                              (fromCents exp_form (fa_added impact))) r3)]>
                 (<[toRow:=Row
                      (credit (Number_of_string
                                 (fromCents exp_form (direct_to_dest impact)))
                         r2)]>
                    (<[fromRow:=Row
                         (debit (Number_of_string
                                   (fromCents exp_form (source_out impact)))
                            r1)]> σ)) !! rows = Some (Arr refs))
    by now destruct Hw3 as (_ & ? & _).
  rewrite (bind_Val _ _ _ _ _ (get_arr_run _ _ _ Ha)).
  now apply for_each_all.
Qed.

(** The ledger on the store and the ledger on values are one function:
    from a store where the two arrays hold [base] and [snap], a call
    throws what the call on [base] and [snap] throws, or returns an array
    that holds the rows this call returns, and the same log row; it never
    goes wrong. *)
Theorem applyOne_agrees (id : string) (rates : option RatesData)
    (baselineRows snapshot : loc) (fromAcct toAcct : string)
    (amountCents : number) (mode : TransferMode) (σ : store)
    (base snap : list BudgetRow) :
  rows_at σ baselineRows base -> rows_at σ snapshot snap ->
  match Store.applyOne exp_form id rates baselineRows snapshot fromAcct
          toAcct amountCents mode σ with
  | (Val (rows, logRow), σ') =>
      exists rows' log,
        Engine.applyOne exp_form id rates base snap fromAcct toAcct
          amountCents mode = Ok (rows', log)
        /\ rows_at σ' rows rows'
        /\ σ' !! logRow = Some (Log log)
  | (Exn e, _) =>
      Engine.applyOne exp_form id rates base snap fromAcct toAcct
        amountCents mode = Throw e
  | (Wrong, _) => False
  end.
Proof.
  intros Hbase Hsnap. unfold Store.applyOne, Engine.applyOne.
  rewrite bind_throw_if, outcome_bind_throw_if.
  destruct (bool_decide (fromAcct = fandaAcctOf rates)
            || bool_decide (toAcct = fandaAcctOf rates)); [reflexivity|].
  destruct (working_copy_run σ (fandaAcctOf rates) baselineRows base Hbase)
    as (σ1 & rows & refs & fandaRow & Hrun & Hw & Hfi).
  rewrite (bind_Val _ _ _ _ _ Hrun).
  destruct (Engine.working_copy (fandaAcctOf rates) base) as [W fi].
  cbn [fst snd] in Hw, Hfi.
  pose proof Hw as (He1 & Hrows & Hh & _).
  rewrite (bind_Val _ _ _ _ _ (get_arr_run σ1 _ _ Hrows)).
  rewrite (bind_Val _ _ _ _ _ (find_ref_run fromAcct σ1 _ _ Hh)).
  rewrite (bind_Val _ _ _ _ _ (find_ref_run toAcct σ1 _ _ Hh)).
  rewrite bind_found, outcome_bind_found.
  destruct (find_row fromAcct W) as [[i r]|] eqn:Efrom; [|reflexivity].
  pose proof (find_row_Some _ _ _ _ Efrom) as [Hi _].
  destruct (holds_lookup _ _ _ _ _ Hh Hi) as (fromRow & Hfrom & Hfr).
  rewrite Hfrom. cbv beta iota.
  rewrite bind_found, outcome_bind_found.
  destruct (find_row toAcct W) as [[j r']|] eqn:Eto; [|reflexivity].
  pose proof (find_row_Some _ _ _ _ Eto) as [Hj _].
  destruct (holds_lookup _ _ _ _ _ Hh Hj) as (toRow & Hto & _).
  rewrite Hto. cbv beta iota.
  rewrite bind_throw_if, outcome_bind_throw_if.
  destruct (bool_decide (fromAcct = toAcct)); [reflexivity|].
  rewrite bind_lift.
  destruct (computeTransferImpact rates toAcct amountCents mode)
    as [impact|e]; [|reflexivity].
  rewrite outcome_bind_Ok.
  rewrite (bind_Val _ _ _ _ _
             (encumbrancesFor_run σ1 fromAcct snapshot snap
                (rows_at_extends _ _ _ _ He1 Hsnap))).
  rewrite (bind_Val _ _ _ _ _ (get_row_run σ1 _ _ Hfr)).
  cbn [fst snd]. cbv zeta.
  rewrite bind_throw_if, outcome_bind_throw_if.
  destruct (ltb _ (toCents exp_form _)); [reflexivity|].
  rewrite bind_throw_if, outcome_bind_throw_if.
  destruct (ltb _ (of_Z 0)); [reflexivity|].
  destruct (post_amounts_run σ σ1 rows refs W impact i j fi fromRow toRow
              fandaRow Hw Hfrom Hto Hfi) as (σ2 & Hrun2 & Hw2).
  rewrite (bind_Val _ _ _ _ _ Hrun2), bind_alloc.
  set (log := logRowOf id fromAcct toAcct impact mode).
  assert (He3 : extends σ (σ2 ++ [Log log])%list).
  { apply extends_alloc. now apply (working_extends _ _ _ _ _ Hw2). }
  rewrite (bind_Val _ _ _ _ _
             (baselineSum_run exp_form _ baselineRows base
                (rows_at_extends _ _ _ _ He3 Hbase))).
  assert (Hat : rows_at (σ2 ++ [Log log])%list rows
                  (Engine.post_amounts exp_form impact i j fi W)).
  { apply (rows_at_extends σ2); [now apply prefix_app_r|].
    now apply (working_rows_at σ σ2 rows refs). }
  rewrite (bind_Val _ _ _ _ _ (baselineSum_run exp_form _ rows _ Hat)).
  rewrite bind_throw_if, outcome_bind_throw_if.
  destruct (negb _); [reflexivity|].
  eexists _, _. split; [reflexivity|]. split; [exact Hat|].
  now rewrite lookup_app_r, Nat.sub_diag by reflexivity.
Qed.

End Agreement.

(** A write to another array leaves the rows of an array in place. *)
Lemma rows_at_insert_arr (σ : store) (a b : loc) (rows : list BudgetRow)
    (old new : list loc) :
  rows_at σ a rows -> σ !! b = Some (Arr old) -> a <> b ->
  rows_at (<[b := Arr new]> σ) a rows.
Proof.
  intros (refs & Ha & Hh) Hb Hab. exists refs. split.
  - now rewrite list_lookup_insert_ne by congruence.
  - unfold holds in *. eapply Forall2_impl; [exact Hh|].
    intros l r Hl. rewrite list_lookup_insert_ne; [exact Hl|].
    intros ->. congruence.
Qed.

Lemma logs_at_push (σ : store) (a : loc) (logs : list MappingRow)
    (l : loc) (m : MappingRow) :
  logs_at σ a logs -> σ !! l = Some (Log m) ->
  exists refs,
    σ !! a = Some (Arr refs)
    /\ logs_at (<[a := Arr (refs ++ [l])%list]> σ) a (logs ++ [m])%list.
Proof.
  intros (refs & Ha & Hl) Hm. exists refs. split; [exact Ha|].
  exists (refs ++ [l])%list. split.
  - apply list_lookup_insert_eq. now apply lookup_lt_Some in Ha.
  - apply Forall2_app.
    + eapply Forall2_impl; [exact Hl|]. intros l' m' Hl'.
      rewrite list_lookup_insert_ne; [exact Hl'|]. intros ->. congruence.
    + constructor; [|constructor].
      rewrite list_lookup_insert_ne; [exact Hm|]. intros ->. congruence.
Qed.

Section BatchAgreement.

Variable exp_form : Q -> string.

Lemma project_loop_agrees (ids : nat -> string) (rates : option RatesData)
    (snapshot logs : loc) (snap : list BudgetRow) (σ0 : store)
    (items : list loc) (ts : list TransferItem) :
  Forall2 (fun l t => σ0 !! l = Some (Item t)) items ts ->
  rows_at σ0 snapshot snap ->
  (length σ0 <= logs)%nat ->
  forall (n : nat) (working : loc) (W : list BudgetRow)
         (done : list MappingRow) (σ : store),
    extends σ0 σ ->
    rows_at σ working W -> working <> logs -> logs_at σ logs done ->
    match Store.project_loop exp_form ids n rates snapshot working logs
            items σ with
    | (Val final, σ') =>
        exists p,
          Engine.project_loop exp_form ids n rates snap W done ts = Ok p
          /\ rows_at σ' final (finalRows p)
          /\ logs_at σ' logs (mapping p)
    | (Exn e, _) =>
        Engine.project_loop exp_form ids n rates snap W done ts = Throw e
    | (Wrong, _) => False
    end.
Proof.
  intros Hitems Hsnap Hlogs.
  induction Hitems as [|l t items ts Hl Hitems IH];
    intros n working W done σ He HW Hne Hdone.
  - simpl. eexists. split; [reflexivity|]. split; assumption.
  - simpl.
    assert (Hget : get_item l σ = (Val t, σ)).
    { unfold get_item. now rewrite (extends_lookup σ0 σ l _ He Hl). }
    rewrite (bind_Val _ _ _ _ _ Hget).
    pose proof (applyOne_agrees exp_form (ids n) rates working snapshot
                  (t_from t) (t_to t) (amount_cents t) (t_mode t) σ W snap
                  HW (rows_at_extends _ _ _ _ He Hsnap)) as Hag.
    pose proof (triple_applyOne σ exp_form (ids n) rates working snapshot
                  (t_from t) (t_to t) (amount_cents t) (t_mode t) σ
                  (extends_refl σ)) as Hfr.
    unfold mbind at 1, M_bind at 1.
    destruct (Store.applyOne exp_form (ids n) rates working snapshot
                (t_from t) (t_to t) (amount_cents t) (t_mode t) σ)
      as [[[rows logRow]| e |] σ1].
    + destruct Hag as (rows' & log & Hrun & Hrows & Hlog).
      rewrite Hrun. rewrite outcome_bind_Ok. cbn [fst snd] in *.
      destruct Hfr as (He1 & Hfresh & _).
      assert (Hdone1 : logs_at σ1 logs done).
      { destruct Hdone as (refs & Ha & Hf). exists refs. split.
        - now apply (extends_lookup σ).
        - eapply Forall2_impl; [exact Hf|]. intros ? ? ?.
          now apply (extends_lookup σ). }
      destruct (logs_at_push σ1 logs done logRow log Hdone1 Hlog)
        as (refs & Ha & Hdone2).
      assert (Hpush : push logs logRow σ1
                      = (Val tt, <[logs := Arr (refs ++ [logRow])%list]> σ1)).
      { unfold push. now rewrite Ha. }
      rewrite (bind_Val _ _ _ _ _ Hpush).
      assert (Hlt : (logs < length σ)%nat).
      { destruct Hdone as (? & Hx & _). now apply lookup_lt_Some in Hx. }
      apply IH.
      * apply extends_insert; [|exact Hlogs].
        unfold extends in *. now transitivity σ.
      * apply (rows_at_insert_arr σ1 rows logs rows' refs); [exact Hrows
        | exact Ha | lia].
      * lia.
      * exact Hdone2.
    + now rewrite Hag.
    + contradiction.
Qed.

(** [projectWithTransfers] on the store and on values. *)
Theorem projectWithTransfers_agrees (ids : nat -> string)
    (rates : option RatesData) (baselineRows snapshot transfers : loc)
    (σ : store) (base snap : list BudgetRow) (ts : list TransferItem) :
  rows_at σ baselineRows base -> rows_at σ snapshot snap ->
  items_at σ transfers ts ->
  match Store.projectWithTransfers exp_form ids rates baselineRows snapshot
          transfers σ with
  | (Val (final, logs), σ') =>
      exists p,
        Engine.projectWithTransfers exp_form ids rates base snap ts = Ok p
        /\ rows_at σ' final (finalRows p)
        /\ logs_at σ' logs (mapping p)
  | (Exn e, _) =>
      Engine.projectWithTransfers exp_form ids rates base snap ts = Throw e
  | (Wrong, _) => False
  end.
Proof.
  intros Hbase Hsnap (items & Ht & Hitems).
  unfold Store.projectWithTransfers, Engine.projectWithTransfers.
  rewrite bind_alloc.
  assert (He : extends σ (σ ++ [Arr []])%list) by now apply prefix_app_r.
  rewrite (bind_Val _ _ _ _ _
             (get_arr_run _ _ _ (extends_lookup σ _ _ _ He Ht))).
  pose proof (project_loop_agrees ids rates snapshot (length σ) snap σ items
                ts Hitems Hsnap (le_n _) O baselineRows base []
                (σ ++ [Arr []])%list He
                (rows_at_extends _ _ _ _ He Hbase)) as H.
  unfold mbind at 1, M_bind at 1.
  destruct (Store.project_loop exp_form ids 0 rates snapshot baselineRows
              (length σ) items (σ ++ [Arr []])%list) as [[final| e |] σ'];
    apply H.
  all: try (destruct Hbase as (? & Hx & _); apply lookup_lt_Some in Hx; lia).
  all: exists []; split; [|constructor];
    now rewrite lookup_app_r, Nat.sub_diag by reflexivity.
Qed.

End BatchAgreement.

(** The batch of [StoreFacts.projectWithTransfers_mock_store], read on
    values: it stops at the second transfer. *)
Lemma projectWithTransfers_agrees_witness :
  Engine.projectWithTransfers Samples.no_exp_form (fun _ => "id")
    (Some Samples.mockRates) Samples.mockBudget Samples.mockBudget
    [ {| t_id := "a"; t_from := "53800"; t_to := "52000";
         amount_cents := of_Z 1000000; t_mode := DirectToDest |};
      {| t_id := "b"; t_from := "53800"; t_to := "51110";
         amount_cents := of_Z 4000000; t_mode := BudgetTotal |} ]
  = Throw (EncumbranceBreach "53800").
Proof.
  refine (projectWithTransfers_agrees Samples.no_exp_form (fun _ => "id")
            (Some Samples.mockRates) 4%nat 5%nat 8%nat
            ((Row <$> Samples.mockBudget)
             ++ [ Arr [0; 1; 2; 3]; Arr [0; 1; 2; 3];
                  Item {| t_id := "a"; t_from := "53800"; t_to := "52000";
                          amount_cents := of_Z 1000000;
                          t_mode := DirectToDest |};
                  Item {| t_id := "b"; t_from := "53800"; t_to := "51110";
                          amount_cents := of_Z 4000000;
                          t_mode := BudgetTotal |};
                  Arr [6; 7] ])%list%nat
            Samples.mockBudget Samples.mockBudget _ _ _ _).
  - exists [0; 1; 2; 3]%nat. split; [reflexivity|].
    repeat constructor.
  - exists [0; 1; 2; 3]%nat. split; [reflexivity|].
    repeat constructor.
  - exists [6; 7]%nat. split; [reflexivity|].
    repeat constructor.
Defined.

End Refinement.

Import Csv App Views.

(* ================================================================== *)
(** * Splitting an amount *)
(* ================================================================== *)

(** [Math.round] of a rational, between integer bounds. *)
Lemma Qfloor_half_bounds (q : Q) (lo hi : Z) :
  (inject_Z lo <= q + (1 # 2))%Q -> (q + (1 # 2) < inject_Z hi + 1)%Q ->
  lo <= Qfloor (q + (1 # 2)) <= hi.
Proof.
  intros Hlo Hhi. split.
  - rewrite <- (Qfloor_Z lo). now apply Qfloor_resp_le.
  - apply Z.lt_succ_r. rewrite Zlt_Qlt.
    apply Qle_lt_trans with (q + (1 # 2))%Q; [apply Qfloor_le|].
    unfold Z.succ. rewrite inject_Z_plus. exact Hhi.
Qed.

Lemma one_plus_rate (ρ : Q) :
  (0 <= ρ)%Q -> add (of_Z 1) (Fin ρ) = Fin (inject_Z 1 + ρ)
  /\ Qeq_bool (inject_Z 1 + ρ) 0 = false.
Proof.
  intros H. split; [reflexivity|].
  apply not_true_iff_false. rewrite Qeq_bool_iff. intros E.
  change (inject_Z 1) with 1%Q in E. lra.
Qed.

Lemma truthy_Fin (q : Q) : truthy (Fin q) = true <-> ~ (q == 0)%Q.
Proof.
  simpl. rewrite negb_true_iff, <- not_true_iff_false, Qeq_bool_iff.
  reflexivity.
Qed.

Lemma leb_pos (z : Z) : 0 < z -> leb (of_Z z) (of_Z 0) = false.
Proof. intros H. rewrite leb_of_Z. now apply Z.leb_gt. Qed.

Lemma div_by_one_plus (z : Z) (ρ : Q) :
  (0 <= ρ)%Q ->
  divByOnePlus (of_Z z) (Fin ρ)
  = of_Z (Qfloor (inject_Z z / (1 + ρ) + (1 # 2))).
Proof.
  intros H. unfold divByOnePlus. destruct (one_plus_rate ρ H) as [-> Hne].
  unfold div, of_Z at 1. rewrite Hne. reflexivity.
Qed.



(** ** A policy without a rate *)

(** When the policy gives no rate, or a rate of zero or [NaN], or when the
    destination is not eligible, nothing goes to the indirect-cost account:
    in both modes the source gives the amount and the destination gets
    it. *)
Theorem computeTransferImpact_no_rate (rates : option RatesData)
    (toAcct : string) (amountCents : number) (mode : TransferMode) :
  leb amountCents (of_Z 0) = false ->
  (rates = None
   \/ (exists r, rates = Some r /\ fa_rate r = None)
   \/ (exists r f, rates = Some r /\ fa_rate r = Some f
                   /\ (rate f = None \/ rate f = Some NaN
                       \/ rate f = Some (of_Z 0)))
   \/ isMtdcEligible toAcct rates = false) ->
  computeTransferImpact rates toAcct amountCents mode
  = Ok {| source_out := amountCents; direct_to_dest := amountCents;
          fa_added := of_Z 0;
          eligible := isMtdcEligible toAcct rates |}.
Proof.
  intros Hpos Hcase. unfold computeTransferImpact. rewrite Hpos.
  change (throw_if false AmountNotPositive ;; ?k) with k.
  assert (Hr : truthy (if isMtdcEligible toAcct rates
                       then faRateForDest toAcct rates else of_Z 0) = false).
  { destruct (isMtdcEligible toAcct rates) eqn:Hel; [|reflexivity].
    unfold faRateForDest.
    destruct Hcase as [-> | [(r & -> & Hf) | [(r & f & -> & Hf & Hrate) | H]]].
    - reflexivity.
    - cbn [mbind option_bind]. now rewrite Hf.
    - cbn [mbind option_bind]. rewrite Hf. cbn [mbind option_bind].
      destruct Hrate as [-> | [-> | ->]]; reflexivity.
    - discriminate. }
  rewrite Hr. destruct mode; [reflexivity|]. now rewrite add_zero_r.
Qed.

(* ================================================================== *)
(** * The codec on typed texts and on numbers *)
(* ================================================================== *)

(** ** Texts of digits, continued *)

Lemma read_digits_acc (s : string) :
  all_digits s = true ->
  forall v k,
    fst (fst (read_digits s v k))
    = v * 10 ^ Z.of_nat (String.length s) + digits_value s
    /\ 0 <= digits_value s < 10 ^ Z.of_nat (String.length s).
Proof.
  unfold digits_value.
  induction s as [|c s IH]; intros H v k.
  - simpl. lia.
  - rewrite all_digits_cons in H. apply andb_true_iff in H as [Hc Hs].
    cbn [read_digits String.length]. rewrite Hc.
    destruct (IH Hs (10 * v + digit_val c) (S k)) as [E1 Hb].
    destruct (IH Hs (10 * 0 + digit_val c) 1%nat) as [E2 _].
    rewrite E1, E2. pose proof (digit_val_range c Hc) as Hd.
    rewrite Nat2Z.inj_succ, Z.pow_succ_r by lia. nia.
Qed.

Lemma digits_value_app (s t : string) :
  all_digits s = true -> all_digits t = true ->
  digits_value (s ++ t)
  = digits_value s * 10 ^ Z.of_nat (String.length t) + digits_value t.
Proof.
  intros Hs Ht. unfold digits_value at 1.
  rewrite (read_digits_app s t Hs).
  fold (digits_value s).
  now destruct (read_digits_acc t Ht (digits_value s) (0 + String.length s)).
Qed.

Lemma parseInt_all_digits (a : string) :
  all_digits a = true -> parseInt (str_or a "0") = of_Z (digits_value a).
Proof.
  intros Ha. destruct a as [|c a]; [reflexivity|].
  apply (parseInt_digits false (String c a) Ha). discriminate.
Qed.

(** The two digits [toCents] keeps of a fraction. *)
Lemma two_decimals (b : string) :
  all_digits b = true ->
  or_else (parseInt (slice0 2 (padEnd 2 "0" (str_or b "")))) (of_Z 0)
  = of_Z (digits_value b * 100 / 10 ^ Z.of_nat (String.length b)).
Proof.
  intros Hb.
  assert (Hs : str_or b "" = b) by now destruct b.
  rewrite Hs.
  destruct b as [|c1 [|c2 b]].
  - reflexivity.
  - rewrite all_digits_cons in Hb. apply andb_true_iff in Hb as [H1 _].
    change (slice0 2 (padEnd 2 "0" (String c1 "")))
      with ("" ++ String c1 (String "0" "")).
    rewrite (parseInt_digits false) by
      (try discriminate; rewrite !all_digits_cons, H1; reflexivity).
    rewrite or_else_of_Z. f_equal.
    unfold digits_value. simpl. rewrite H1. simpl.
    change (10 ^ 1) with 10. pose proof (digit_val_range c1 H1).
    change (digit_val "0") with 0.
    rewrite Z.add_0_l, Z.add_0_r.
    replace (digit_val c1 * 100) with (10 * digit_val c1 * 10) by lia.
    now rewrite Z.div_mul by lia.
  - pose proof Hb as Hb'.
    rewrite !all_digits_cons in Hb.
    apply andb_true_iff in Hb as [H1 [H2 H3]%andb_true_iff].
    assert (Hsl : slice0 2 (padEnd 2 "0" (String c1 (String c2 b)))
                  = "" ++ String c1 (String c2 "")) by reflexivity.
    rewrite Hsl.
    assert (H12 : all_digits (String c1 (String c2 "")) = true)
      by (rewrite !all_digits_cons, H1, H2; reflexivity).
    rewrite (parseInt_digits false _ H12) by discriminate.
    rewrite or_else_of_Z. f_equal.
    change (String c1 (String c2 b)) with (String c1 (String c2 "") ++ b).
    rewrite (digits_value_app _ b H12 H3), length_append.
    destruct (read_digits_acc b H3 0 O) as [_ Hr].
    set (n := Z.of_nat (String.length b)) in *.
    change (String.length (String c1 (String c2 ""))) with 2%nat.
    rewrite Nat2Z.inj_add. fold n. change (Z.of_nat 2) with 2.
    rewrite Z.pow_add_r by lia. change (10 ^ 2) with 100.
    set (v := digits_value (String c1 (String c2 ""))).
    apply (Z.div_unique _ _ _ (digits_value b * 100)); nia.
Qed.

Section CodecMore.

Variable exp_form : Q -> string.


End CodecMore.

(** ** [Number] on a decimal text *)

Lemma read_digits_stop (c : ascii) (s : string) :
  is_digit c = false ->
  forall v k, read_digits (String c s) v k = (v, k, String c s).
Proof. intros H v k. simpl. now rewrite H. Qed.

(** A text that starts with a digit is read by [Number] as a plain decimal
    literal. *)
Lemma Number_of_digits_first (minus : bool) (c : ascii) (t : string) :
  is_digit c = true ->
  (forall c' t', t = String c' t' -> is_digit c' = true \/ c' = "."%char) ->
  Number_of_string ((if minus then "-" else "") ++ String c t)
  = match read_decimal (String c t) with
    | Some (q, rest) =>
        if all_spaces rest then Fin (if minus then - q else q) else NaN
    | None => NaN
    end.
Proof.
  intros Hc Ht.
  destruct (is_digit_plain c Hc) as (Hsp & Hdot & Hm & Hp).
  assert (HI : Ascii.eqb "I" c = false).
  { destruct c as [[] [] [] [] [] [] [] []]; try discriminate Hc; reflexivity. }
  assert (Hpre : read_prefixed (String c t) = None).
  { unfold read_prefixed.
    destruct (Ascii.eqb_spec c "0") as [->|Hn0].
    - destruct t as [|c' t']; [reflexivity|].
      destruct (Ht c' t' eq_refl) as [Hd| ->]; [|reflexivity].
      replace (Ascii.eqb c' "x" || Ascii.eqb c' "X") with false
        by (destruct c' as [[] [] [] [] [] [] [] []]; try discriminate Hd;
            reflexivity).
      replace (Ascii.eqb c' "o" || Ascii.eqb c' "O") with false
        by (destruct c' as [[] [] [] [] [] [] [] []]; try discriminate Hd;
            reflexivity).
      replace (Ascii.eqb c' "b" || Ascii.eqb c' "B") with false
        by (destruct c' as [[] [] [] [] [] [] [] []]; try discriminate Hd;
            reflexivity).
      reflexivity.
    - destruct c as [[] [] [] [] [] [] [] []]; try reflexivity.
      now contradiction Hn0. }
  unfold Number_of_string. destruct minus.
  - change ("-" ++ String c t) with (String "-" (String c t)).
    change (skip_spaces (String "-" (String c t)))
      with (String "-" (String c t)).
    change (all_spaces (String "-" (String c t))) with false.
    change (read_prefixed (String "-" (String c t))) with (@None (Z * string)).
    change (read_sign (String "-" (String c t))) with (true, String c t).
    cbv iota beta.
    cbn [strip_prefix]. rewrite HI. reflexivity.
  - rewrite append_nil_l.
    replace (skip_spaces (String c t)) with (String c t)
      by (simpl; now rewrite Hsp).
    replace (all_spaces (String c t)) with false
      by (simpl; now rewrite Hsp).
    rewrite Hpre.
    replace (read_sign (String c t)) with (false, String c t)
      by (simpl; now rewrite Hm, Hp).
    cbv iota beta. cbn [strip_prefix]. rewrite HI. reflexivity.
Qed.

Lemma read_decimal_fraction (a b : string) :
  all_digits a = true -> a <> "" -> all_digits b = true ->
  read_decimal (a ++ "." ++ b)
  = Some (((inject_Z (digits_value a)
            + inject_Z (digits_value b)
              / inject_Z (10 ^ Z.of_nat (String.length b)))
           * Qpower 10 0)%Q, "").
Proof.
  intros Ha Hne Hb. unfold read_decimal.
  rewrite (read_digits_app a _ Ha).
  fold (digits_value a).
  change ("." ++ b) with (String "." b).
  rewrite (read_digits_stop "." b eq_refl).
  change (Ascii.eqb "." ".") with true. cbv iota.
  rewrite (read_digits_all b Hb). fold (digits_value b).
  cbn [plus]. destruct a as [|c a]; [congruence|].
  cbn [String.length plus].
  change (read_exponent "") with (Some (0, "")).
  reflexivity.
Qed.

Lemma read_decimal_integer (a : string) :
  all_digits a = true -> a <> "" ->
  read_decimal a
  = Some (((inject_Z (digits_value a) + inject_Z 0 / inject_Z (10 ^ Z.of_nat 0))
           * Qpower 10 0)%Q, "").
Proof.
  intros Ha Hne. unfold read_decimal.
  rewrite (read_digits_all a Ha). fold (digits_value a).
  destruct a as [|c a]; [congruence|].
  cbn [String.length plus].
  change (read_exponent "") with (Some (0, "")). reflexivity.
Qed.

Section CodecNumber.

Variable exp_form : Q -> string.

(** An amount of dollars that is a whole number of cents. *)
Lemma toCents_whole_cents (q : Q) (p : Z) :
  (q * 100 == inject_Z p)%Q -> 0 <= p < 10 ^ 23 ->
  toCents exp_form (inl (Fin q)) = of_Z p.
Proof.
  intros Hq Hp.
  assert (H0 : (0 <= q)%Q).
  { assert (0 <= inject_Z p)%Q
      by (change 0%Q with (inject_Z 0); rewrite <- Zle_Qle; lia).
    lra. }
  assert (Hlt : (q < inject_Z (10 ^ 21))%Q).
  { assert (inject_Z p < inject_Z (10 ^ 23))%Q by (rewrite <- Zlt_Qlt; lia).
    change (inject_Z (10 ^ 23)) with (inject_Z (10 ^ 21) * 100)%Q in H.
    lra. }
  rewrite (toCents_number_nonneg exp_form q H0 Hlt). f_equal.
  assert (E : (q * 100 + (1 # 2) == inject_Z p + (1 # 2))%Q) by lra.
  rewrite E.
  assert (Hb : p <= Qfloor (inject_Z p + (1 # 2)) <= p); [|lia].
  apply Qfloor_half_bounds; lra.
Qed.

(** The dollars [Number] reads off the text of a whole number of cents. *)
Lemma Number_of_fromCents (x : Z) :
  Z.abs x < 10 ^ 23 ->
  exists q,
    Number_of_string (fromCents exp_form (of_Z x)) = Fin q
    /\ (q * 100 == inject_Z x)%Q.
Proof.
  intros Hx. rewrite (fromCents_int exp_form x Hx).
  pose proof (Z.abs_nonneg x) as Hx0.
  assert (Hr : 0 <= Z.abs x mod 100 < 100) by (apply Z.mod_pos_bound; lia).
  destruct (pad2_spec _ Hr) as (Hb & Hlen & Hv).
  set (a := digits (Z.abs x / 100)).
  set (b := padStart 2 "0" (digits (Z.abs x mod 100))) in *.
  assert (Ha : all_digits a = true) by apply all_digits_digits.
  assert (Hne : a <> "") by apply digits_nonempty.
  assert (Hva : digits_value a = Z.abs x / 100)
    by (apply digits_value_of_digits, Z.div_pos; lia).
  destruct a as [|c a'] eqn:Ea; [congruence|].
  pose proof Ha as Hc. rewrite all_digits_cons in Hc.
  apply andb_true_iff in Hc as [Hc Ha'].
  rewrite append_cons.
  rewrite (Number_of_digits_first (x <? 0) c (a' ++ "." ++ b) Hc).
  - rewrite <- append_cons.
    rewrite (read_decimal_fraction (String c a') b Ha Hne Hb).
    change (all_spaces "") with true. cbv iota.
    rewrite Hva, Hv, Hlen.
    eexists. split; [reflexivity|].
    change (inject_Z (10 ^ Z.of_nat 2)) with 100%Q.
    change (Qpower 10 0) with 1%Q.
    assert (E : (inject_Z (Z.abs x) ==
                 inject_Z (Z.abs x / 100) * 100
                 + inject_Z (Z.abs x mod 100))%Q).
    { rewrite (Z.div_mod (Z.abs x) 100) at 1 by lia.
      rewrite inject_Z_plus, inject_Z_mult. change (inject_Z 100) with 100%Q.
      ring. }
    destruct (Z.ltb_spec x 0) as [Hneg|Hpos].
    + rewrite Z.abs_neq in E by lia. rewrite inject_Z_opp in E.
      rewrite Z.abs_neq by lia. field_simplify_eq. lra.
    + rewrite Z.abs_eq in E by lia. rewrite Z.abs_eq by lia.
      field_simplify_eq. lra.
  - intros c' t' Et. destruct a' as [|c2 a2].
    + rewrite append_nil_l in Et. change ("." ++ b) with (String "." b) in Et.
      injection Et as <- _. now right.
    + rewrite append_cons in Et. injection Et as <- _.
      rewrite all_digits_cons in Ha'. apply andb_true_iff in Ha' as [? _].
      now left.
Qed.



End CodecNumber.

(* ================================================================== *)
(** * What a transfer posts *)
(* ================================================================== *)

Section Posting.

Variable exp_form : Q -> string.

#[local] Abbreviation toCents := (Engine.toCents exp_form).
#[local] Abbreviation fromCents := (Engine.fromCents exp_form).
#[local] Abbreviation applyOne := (Engine.applyOne exp_form).
#[local] Abbreviation post_amounts := (Engine.post_amounts exp_form).

(** [fandaRow] is the first row of the working copy with the indirect-cost
    account. *)
Lemma working_copy_fanda (fandaAcct : string) (baselineRows rows : list BudgetRow)
    (fandaRow : nat) :
  working_copy fandaAcct baselineRows = (rows, fandaRow) ->
  exists r, find_row fandaAcct rows = Some (fandaRow, r).
Proof.
  unfold working_copy.
  destruct (find_row fandaAcct (List.filter not_summary baselineRows))
    as [[i r]|] eqn:E; intros [= <- <-].
  - now exists r.
  - exists (newFandaRow fandaAcct). unfold find_row in *.
    apply list_find_Some. split; [|split; [reflexivity|]].
    + now rewrite lookup_app_r, Nat.sub_diag by reflexivity.
    + intros j y Hj Hlt. rewrite lookup_app_l in Hj by exact Hlt.
      rewrite list_find_None, Forall_forall in E.
      apply E. now apply list_elem_of_lookup_2 in Hj.
Qed.

(** Rows found under different accounts are at different positions. *)
Lemma find_row_apart (a b : string) (rows : list BudgetRow) (i j : nat)
    (r1 r2 : BudgetRow) :
  a <> b -> find_row a rows = Some (i, r1) -> find_row b rows = Some (j, r2) ->
  i <> j.
Proof.
  intros Hne H1 H2 ->. apply find_row_Some in H1 as [H1 E1].
  apply find_row_Some in H2 as [H2 E2]. congruence.
Qed.

(** What a call that returns has done.  The log entry carries the
    figures of [computeTransferImpact].  The rows are those of the working
    copy, in order and as many; each keeps its account, description, current
    budget and encumbrances, and has its change set to proposed minus
    current.  The proposed budget is taken down by [Number(fromCents
    (source_out))] in the first row of the source account, taken up by the
    direct amount in the first row of the destination and by the indirect
    amount in the first row of the indirect-cost account; it is left as it
    was in every other row. *)
Theorem applyOne_posts (id : string) (rates : option RatesData)
    (baselineRows snapshot : list BudgetRow) (fromAcct toAcct : string)
    (amountCents : number) (mode : TransferMode)
    (rows' : list BudgetRow) (logRow : MappingRow) :
  applyOne id rates baselineRows snapshot fromAcct toAcct amountCents mode
  = Ok (rows', logRow) ->
  let fandaAcct := fandaAcctOf rates in
  let rows := fst (working_copy fandaAcct baselineRows) in
  let s := Number_of_string (fromCents (source_out_cents logRow)) in
  let d := Number_of_string (fromCents (direct_to_dest_cents logRow)) in
  let f := Number_of_string (fromCents (fa_added_to_fanda_cents logRow)) in
  computeTransferImpact rates toAcct amountCents mode
  = Ok {| source_out := source_out_cents logRow;
          direct_to_dest := direct_to_dest_cents logRow;
          fa_added := fa_added_to_fanda_cents logRow;
          eligible := dest_mtdc_eligible logRow |}
  /\ (m_id logRow, m_from logRow, m_to logRow, m_mode logRow)
     = (id, fromAcct, toAcct, mode)
  /\ length rows' = length rows
  /\ forall k r,
       rows !! k = Some r ->
       exists r',
         rows' !! k = Some r'
         /\ (account r', description r', current_budget r', encumbrances r')
            = (account r, description r, current_budget r, encumbrances r)
         /\ change r' = Some (sub (proposed_budget r') (current_budget r'))
         /\ proposed_budget r'
            = if first_at fromAcct rows k then sub (proposed_budget r) s
              else if first_at toAcct rows k then add (proposed_budget r) d
              else if first_at fandaAcct rows k then add (proposed_budget r) f
              else proposed_budget r.
Proof.
  intros Hrun fandaAcct rows s d f.
  destruct (applyOne_Ok_rows exp_form _ _ _ _ _ _ _ _ _ _ Hrun)
    as (rows0 & kf & [i fr] & [j tr] & impact
        & Hf & Ht & Hw & Hfr & Htr & Himp & -> & ->).
  fold fandaAcct in Hf, Ht, Hw.
  assert (Hrows : rows0 = rows) by (subst rows; now rewrite Hw).
  subst rows0.
  destruct (working_copy_fanda _ _ _ _ Hw) as [far Hfa].
  assert (Hne : fromAcct <> toAcct).
  { destruct (applyOne_reached exp_form id rates baselineRows snapshot fromAcct
                toAcct amountCents mode (or_introl (ex_intro _ _ Hrun)))
      as (? & ? & ? & ? & ? & _ & _ & _ & _ & _ & H & _). exact H. }
  pose proof (find_row_apart _ _ _ _ _ _ _ Hne Hfr Htr) as Hij.
  pose proof (find_row_apart _ _ _ _ _ _ _ Hf Hfr Hfa) as Hik.
  pose proof (find_row_apart _ _ _ _ _ _ _ Ht Htr Hfa) as Hjk.
  destruct impact as [so dd fa el]. cbn [snd fst] in *.
  split; [exact Himp|]. split; [reflexivity|].
  split; [apply (post_amounts_length exp_form)|].
  intros k r Hk. unfold first_at. rewrite Hfr, Htr, Hfa. cbn [fmap option_fmap option_map fst].
  unfold Engine.post_amounts. cbn [source_out direct_to_dest fa_added].
  subst s d f. cbn [logRowOf source_out_cents direct_to_dest_cents
                      fa_added_to_fanda_cents source_out direct_to_dest
                      fa_added].
  rewrite list_lookup_fmap.
  destruct (decide (k = i)) as [->|Hki].
  - rewrite list_lookup_alter_ne by congruence.
    rewrite list_lookup_alter_ne by congruence.
    rewrite list_lookup_alter_eq, Hk. eexists. split; [reflexivity|].
    rewrite bool_decide_eq_true_2 by reflexivity. repeat split.
  - rewrite (bool_decide_eq_false_2 (Some i = Some k)) by congruence.
    destruct (decide (k = j)) as [->|Hkj].
    + rewrite list_lookup_alter_ne by congruence.
      rewrite list_lookup_alter_eq.
      rewrite list_lookup_alter_ne by congruence. rewrite Hk.
      eexists. split; [reflexivity|].
      rewrite bool_decide_eq_true_2 by reflexivity. repeat split.
    + rewrite (bool_decide_eq_false_2 (Some j = Some k)) by congruence.
      destruct (decide (k = kf)) as [->|Hkk].
      * rewrite list_lookup_alter_eq.
        rewrite list_lookup_alter_ne by congruence.
        rewrite list_lookup_alter_ne by congruence. rewrite Hk.
        eexists. split; [reflexivity|].
        rewrite bool_decide_eq_true_2 by reflexivity. repeat split.
      * rewrite (bool_decide_eq_false_2 (Some kf = Some k)) by congruence.
        rewrite !list_lookup_alter_ne by congruence. rewrite Hk.
        eexists. split; [reflexivity|]. repeat split.
Qed.

End Posting.

Section Overdraw.

Variable exp_form : Q -> string.

#[local] Abbreviation toCents := (Engine.toCents exp_form).
#[local] Abbreviation fromCents := (Engine.fromCents exp_form).
#[local] Abbreviation applyOne := (Engine.applyOne exp_form).
#[local] Abbreviation post_amounts := (Engine.post_amounts exp_form).


End Overdraw.

(* ================================================================== *)
(** * Batches *)
(* ================================================================== *)

Section Batch.

Variable exp_form : Q -> string.

#[local] Abbreviation applyOne := (Engine.applyOne exp_form).
#[local] Abbreviation post_amounts := (Engine.post_amounts exp_form).
#[local] Abbreviation projectWithTransfers := (Engine.projectWithTransfers exp_form).
#[local] Abbreviation project_loop := (Engine.project_loop exp_form).

(** ** The loop, piece by piece *)

Lemma project_loop_logs (ids : nat -> string) (rates : option RatesData)
    (snapshot : list BudgetRow) (transfers : list TransferItem) :
  forall (n : nat) (working : list BudgetRow) (logs : list MappingRow),
    project_loop ids n rates snapshot working logs transfers
    = p ← project_loop ids n rates snapshot working [] transfers;
      Ok {| finalRows := finalRows p; mapping := (logs ++ mapping p)%list |}.
Proof.
  induction transfers as [|t rest IH]; intros n working logs.
  - simpl. now rewrite app_nil_r.
  - cbn [Engine.project_loop].
    destruct (applyOne (ids n) rates working snapshot (t_from t) (t_to t)
                (amount_cents t) (t_mode t)) as [out|e]; [|reflexivity].
    cbn [mbind outcome_bind].
    rewrite (IH (S n) (fst out) (logs ++ [snd out])%list).
    rewrite (IH (S n) (fst out) ([] ++ [snd out])%list).
    destruct (project_loop ids (S n) rates snapshot (fst out) [] rest)
      as [p|e]; [|reflexivity].
    cbn [mbind outcome_bind finalRows mapping]. now rewrite <- app_assoc.
Qed.

Lemma project_loop_shift (ids : nat -> string) (k : nat)
    (rates : option RatesData) (snapshot : list BudgetRow)
    (transfers : list TransferItem) :
  forall (n : nat) (working : list BudgetRow) (logs : list MappingRow),
    project_loop ids (k + n) rates snapshot working logs transfers
    = project_loop (fun m => ids (k + m)%nat) n rates snapshot working logs
        transfers.
Proof.
  induction transfers as [|t rest IH]; intros n working logs; [reflexivity|].
  cbn [Engine.project_loop].
  destruct (applyOne (ids (k + n)%nat) rates working snapshot (t_from t)
              (t_to t) (amount_cents t) (t_mode t)) as [out|e];
    [|reflexivity].
  cbn [mbind outcome_bind]. rewrite <- (IH (S n)). f_equal. lia.
Qed.

Lemma project_loop_app (ids : nat -> string) (rates : option RatesData)
    (snapshot : list BudgetRow) (ts1 ts2 : list TransferItem) :
  forall (n : nat) (working : list BudgetRow) (logs : list MappingRow),
    project_loop ids n rates snapshot working logs (ts1 ++ ts2)
    = p1 ← project_loop ids n rates snapshot working logs ts1;
      project_loop ids (length ts1 + n) rates snapshot (finalRows p1)
        (mapping p1) ts2.
Proof.
  induction ts1 as [|t rest IH]; intros n working logs; [reflexivity|].
  cbn [Engine.project_loop app length].
  destruct (applyOne (ids n) rates working snapshot (t_from t) (t_to t)
              (amount_cents t) (t_mode t)) as [out|e]; [|reflexivity].
  cbn [mbind outcome_bind]. rewrite IH.
  destruct (project_loop ids (S n) rates snapshot (fst out)
              (logs ++ [snd out]) rest) as [p|e]; [|reflexivity].
  cbn [mbind outcome_bind]. f_equal. lia.
Qed.

(** A batch in two parts: the second part starts from the rows the first
    one returns, and the logs follow each other. *)
Theorem projectWithTransfers_app (ids : nat -> string)
    (rates : option RatesData) (baselineRows snapshot : list BudgetRow)
    (ts1 ts2 : list TransferItem) :
  projectWithTransfers ids rates baselineRows snapshot (ts1 ++ ts2)
  = p1 ← projectWithTransfers ids rates baselineRows snapshot ts1;
    p2 ← projectWithTransfers (fun n => ids (length ts1 + n)%nat) rates
           (finalRows p1) snapshot ts2;
    Ok {| finalRows := finalRows p2;
          mapping := (mapping p1 ++ mapping p2)%list |}.
Proof.
  unfold Engine.projectWithTransfers. rewrite project_loop_app.
  destruct (project_loop ids 0 rates snapshot baselineRows [] ts1)
    as [p1|e]; [|reflexivity].
  cbn [mbind outcome_bind].
  rewrite project_loop_logs, project_loop_shift. reflexivity.
Qed.

(** ** The log of a batch *)

Lemma applyOne_log (id : string) (rates : option RatesData)
    (baselineRows snapshot : list BudgetRow) (fromAcct toAcct : string)
    (amountCents : number) (mode : TransferMode)
    (out : list BudgetRow * MappingRow) :
  applyOne id rates baselineRows snapshot fromAcct toAcct amountCents mode
  = Ok out ->
  exists impact,
    computeTransferImpact rates toAcct amountCents mode = Ok impact
    /\ snd out = logRowOf id fromAcct toAcct impact mode.
Proof.
  destruct out as [rows' logRow]. intros Hrun.
  destruct (applyOne_Ok_rows exp_form _ _ _ _ _ _ _ _ _ _ Hrun)
    as (rows & kf & fr & tr & impact & _ & _ & _ & _ & _ & Himp & _ & ->).
  now exists impact.
Qed.

Lemma project_loop_mapping (ids : nat -> string) (rates : option RatesData)
    (snapshot : list BudgetRow) (transfers : list TransferItem) :
  forall (n : nat) (working : list BudgetRow) (p : Projection),
    project_loop ids n rates snapshot working [] transfers = Ok p ->
    length (mapping p) = length transfers
    /\ forall i t,
         transfers !! i = Some t ->
         exists impact,
           computeTransferImpact rates (t_to t) (amount_cents t) (t_mode t)
           = Ok impact
           /\ mapping p !! i
              = Some (logRowOf (ids (n + i)%nat) (t_from t) (t_to t) impact
                        (t_mode t)).
Proof.
  induction transfers as [|t rest IH]; intros n working p Hp.
  - injection Hp as <-. split; [reflexivity|]. intros i t Hi.
    now rewrite lookup_nil in Hi.
  - cbn [Engine.project_loop] in Hp.
    destruct (applyOne (ids n) rates working snapshot (t_from t) (t_to t)
                (amount_cents t) (t_mode t)) as [out|e] eqn:E;
      [|discriminate].
    cbn [mbind outcome_bind] in Hp. rewrite project_loop_logs in Hp.
    destruct (project_loop ids (S n) rates snapshot (fst out) [] rest)
      as [p'|e] eqn:E'; [|discriminate].
    cbn [mbind outcome_bind] in Hp. injection Hp as <-.
    destruct (IH _ _ _ E') as [Hlen Hlog].
    destruct (applyOne_log _ _ _ _ _ _ _ _ _ E) as (impact & Himp & Hout).
    cbn [mapping]. split; [simpl; now rewrite Hlen|].
    intros [|i] t' Hi.
    + injection Hi as <-. exists impact. split; [exact Himp|].
      rewrite Nat.add_0_r. simpl. now rewrite Hout.
    + destruct (Hlog i t' Hi) as (impact' & Himp' & Hl).
      exists impact'. split; [exact Himp'|].
      replace (n + S i)%nat with (S n + i)%nat by lia. simpl. exact Hl.
Qed.

(** The log of a batch that returns has one entry per transfer, in order;
    the figures of an entry are those [computeTransferImpact] gives for its
    transfer, whatever the rows are. *)
Theorem projectWithTransfers_mapping (ids : nat -> string)
    (rates : option RatesData) (baselineRows snapshot : list BudgetRow)
    (transfers : list TransferItem) (p : Projection) :
  projectWithTransfers ids rates baselineRows snapshot transfers = Ok p ->
  length (mapping p) = length transfers
  /\ forall i t,
       transfers !! i = Some t ->
       exists impact,
         computeTransferImpact rates (t_to t) (amount_cents t) (t_mode t)
         = Ok impact
         /\ mapping p !! i
            = Some (logRowOf (ids i) (t_from t) (t_to t) impact (t_mode t)).
Proof.
  intros Hp. apply project_loop_mapping in Hp. exact Hp.
Qed.

(** ** The rows of a batch *)

Lemma static_accounts (l1 l2 : list BudgetRow) :
  static <$> l1 = static <$> l2 -> account <$> l1 = account <$> l2.
Proof.
  intros H.
  change account with ((fun t : string * string * number * option number =>
                          fst (fst (fst t))) ∘ static).
  now rewrite !list_fmap_compose, H.
Qed.

Lemma filter_static (l1 : list BudgetRow) :
  forall l2,
    static <$> l1 = static <$> l2 ->
    static <$> List.filter not_summary l1
    = static <$> List.filter not_summary l2.
Proof.
  induction l1 as [|a l1 IH]; intros [|b l2] H; try discriminate;
    [reflexivity|].
  injection H as Hacc Hd Hc He Hrest.
  assert (Hs : not_summary a = not_summary b)
    by (unfold not_summary; now rewrite Hacc).
  simpl. rewrite Hs. destruct (not_summary b); [|now apply IH].
  rewrite !fmap_cons. f_equal; [|now apply IH].
  unfold static. now rewrite Hacc, Hd, Hc, He.
Qed.

Lemma working_copy_static (fandaAcct : string) (l1 l2 : list BudgetRow) :
  static <$> l1 = static <$> l2 ->
  static <$> fst (working_copy fandaAcct l1)
  = static <$> fst (working_copy fandaAcct l2).
Proof.
  intros H. apply filter_static in H. pose proof (static_accounts _ _ H) as Ha.
  unfold working_copy.
  destruct (find_row fandaAcct (List.filter not_summary l1)) as [[i r]|] eqn:E1;
    destruct (find_row fandaAcct (List.filter not_summary l2)) as [[j r']|] eqn:E2;
    cbn [fst].
  - exact H.
  - apply find_row_None in E2. rewrite <- Ha in E2.
    apply find_row_None in E2. congruence.
  - apply find_row_None in E1. rewrite Ha in E1.
    apply find_row_None in E1. congruence.
  - now rewrite !fmap_app, H.
Qed.

Lemma filter_not_summary_all (rows : list BudgetRow) :
  "SUMMARY" ∉ account <$> rows -> List.filter not_summary rows = rows.
Proof.
  induction rows as [|r rows IH]; [reflexivity|].
  intros H. rewrite fmap_cons, not_elem_of_cons in H. destruct H as [H1 H2].
  simpl. unfold not_summary at 1.
  rewrite bool_decide_eq_false_2 by congruence. simpl. now rewrite IH.
Qed.

Lemma kept_no_summary (rows : list BudgetRow) :
  "SUMMARY" ∉ account <$> List.filter not_summary rows.
Proof.
  intros H. apply list_elem_of_fmap in H as (r & Hr & Hin).
  apply elem_of_kept in Hin as [_ Hs]. congruence.
Qed.

Lemma filter_not_summary_app (l1 l2 : list BudgetRow) :
  List.filter not_summary (l1 ++ l2)
  = (List.filter not_summary l1 ++ List.filter not_summary l2)%list.
Proof. apply List.filter_app. Qed.

(** Making the working copy of a working copy changes nothing. *)
Lemma working_copy_idem (fandaAcct : string) (baselineRows : list BudgetRow) :
  fst (working_copy fandaAcct (fst (working_copy fandaAcct baselineRows)))
  = fst (working_copy fandaAcct baselineRows).
Proof.
  pose proof (kept_no_summary baselineRows) as Hk.
  destruct (working_copy_rows fandaAcct baselineRows) as [[Hin ->]|[Hni ->]];
    cbn [fst].
  - unfold working_copy. rewrite filter_not_summary_idem.
    destruct (find_row fandaAcct (List.filter not_summary baselineRows))
      as [[i r]|] eqn:E; [reflexivity|].
    now apply find_row_None in E.
  - set (kept := List.filter not_summary baselineRows) in *.
    unfold working_copy. rewrite filter_not_summary_app.
    rewrite (filter_not_summary_all kept Hk).
    destruct (decide (fandaAcct = "SUMMARY")) as [->|Hs].
    + simpl. rewrite app_nil_r.
      destruct (find_row "SUMMARY" kept) as [[i r]|] eqn:E; [|reflexivity].
      apply find_row_None in Hni. congruence.
    + replace (List.filter not_summary [newFandaRow fandaAcct])
        with [newFandaRow fandaAcct].
      2:{ simpl. unfold not_summary. simpl.
          now rewrite bool_decide_eq_false_2. }
      destruct (find_row fandaAcct (kept ++ [newFandaRow fandaAcct]))
        as [[i r]|] eqn:E; [reflexivity|].
      apply find_row_None in E. exfalso. apply E.
      rewrite fmap_app. apply elem_of_app. right. simpl. left.
Qed.

Lemma applyOne_static (id : string) (rates : option RatesData)
    (baselineRows snapshot : list BudgetRow) (fromAcct toAcct : string)
    (amountCents : number) (mode : TransferMode)
    (out : list BudgetRow * MappingRow) :
  applyOne id rates baselineRows snapshot fromAcct toAcct amountCents mode
  = Ok out ->
  static <$> fst out
  = static <$> fst (working_copy (fandaAcctOf rates) baselineRows)
  /\ Forall (fun r => change r
                      = Some (sub (proposed_budget r) (current_budget r)))
       (fst out).
Proof.
  destruct out as [rows' logRow]. intros Hrun.
  destruct (applyOne_Ok_rows exp_form _ _ _ _ _ _ _ _ _ _ Hrun)
    as (rows & kf & fr & tr & impact & _ & _ & Hw & _ & _ & _ & -> & _).
  rewrite Hw. cbn [fst]. split.
  - now apply (post_amounts_fmap exp_form).
  - unfold Engine.post_amounts. apply Forall_fmap, Forall_forall.
    intros r _. reflexivity.
Qed.

Lemma project_loop_static (ids : nat -> string) (rates : option RatesData)
    (snapshot : list BudgetRow) (W0 : list BudgetRow)
    (transfers : list TransferItem) :
  forall (n : nat) (working : list BudgetRow) (logs : list MappingRow)
         (p : Projection),
    transfers <> [] ->
    static <$> fst (working_copy (fandaAcctOf rates) working) = static <$> W0 ->
    project_loop ids n rates snapshot working logs transfers = Ok p ->
    static <$> finalRows p = static <$> W0
    /\ Forall (fun r => change r
                        = Some (sub (proposed_budget r) (current_budget r)))
         (finalRows p).
Proof.
  induction transfers as [|t rest IH]; intros n working logs p Hne Hinv Hp;
    [congruence|].
  cbn [Engine.project_loop] in Hp.
  destruct (applyOne (ids n) rates working snapshot (t_from t) (t_to t)
              (amount_cents t) (t_mode t)) as [out|e] eqn:E; [|discriminate].
  cbn [mbind outcome_bind] in Hp.
  destruct (applyOne_static _ _ _ _ _ _ _ _ _ E) as [Hst Hch].
  destruct rest as [|t' rest'].
  - injection Hp as <-. cbn [finalRows]. split; [congruence | exact Hch].
  - apply (IH _ _ _ _ ltac:(discriminate)) in Hp; [exact Hp|].
    rewrite (working_copy_static _ _ _ Hst), working_copy_idem. exact Hinv.
Qed.

(** Without transfers the rows come back as they were given, SUMMARY rows
    included.  With transfers, the rows of a batch that returns are those
    of the working copy of the input, in order, each with the account, the
    description, the current budget and the encumbrances it had, and with
    its change set to proposed minus current. *)
Theorem projectWithTransfers_rows (ids : nat -> string)
    (rates : option RatesData) (baselineRows snapshot : list BudgetRow)
    (transfers : list TransferItem) :
  projectWithTransfers ids rates baselineRows snapshot []
  = Ok {| finalRows := baselineRows; mapping := [] |}
  /\ forall p,
       transfers <> [] ->
       projectWithTransfers ids rates baselineRows snapshot transfers = Ok p ->
       static <$> finalRows p
       = static <$> fst (working_copy (fandaAcctOf rates) baselineRows)
       /\ Forall (fun r => change r
                           = Some (sub (proposed_budget r) (current_budget r)))
            (finalRows p).
Proof.
  split; [reflexivity|]. intros p Hne Hp.
  now apply (project_loop_static ids rates snapshot _ transfers O baselineRows
               [] p Hne eq_refl).
Qed.

End Batch.

Lemma find_row_index_accounts (acct : string) (rows : list BudgetRow) :
  fst <$> find_row acct rows
  = fst <$> list_find (fun a => a = acct) (account <$> rows).
Proof.
  unfold find_row. rewrite list_find_fmap.
  destruct (list_find ((fun a => a = acct) ∘ account) rows) as [[i r]|] eqn:E.
  - unfold compose in E.
    replace (list_find (fun x => account x = acct) rows) with (Some (i, r)).
    reflexivity.
  - unfold compose in E.
    replace (list_find (fun x => account x = acct) rows)
      with (@None (nat * BudgetRow)).
    reflexivity.
Qed.

Lemma first_at_accounts (acct : string) (l1 l2 : list BudgetRow) (k : nat) :
  account <$> l1 = account <$> l2 ->
  first_at acct l1 k = first_at acct l2 k.
Proof.
  intros H. unfold first_at. now rewrite !find_row_index_accounts, H.
Qed.

Lemma first_at_true (acct : string) (rows : list BudgetRow) (k : nat)
    (r : BudgetRow) :
  find_row acct rows = Some (k, r) -> first_at acct rows k = true.
Proof. intros H. unfold first_at. now rewrite H, bool_decide_eq_true_2. Qed.

Lemma first_at_false (acct : string) (rows : list BudgetRow) (i k : nat)
    (r : BudgetRow) :
  find_row acct rows = Some (i, r) -> first_at acct rows k = false -> k <> i.
Proof.
  intros H Hk ->. now rewrite (first_at_true _ _ _ _ H) in Hk.
Qed.

Section Untouched.

Variable exp_form : Q -> string.

#[local] Abbreviation applyOne := (Engine.applyOne exp_form).
#[local] Abbreviation post_amounts := (Engine.post_amounts exp_form).
#[local] Abbreviation projectWithTransfers := (Engine.projectWithTransfers exp_form).
#[local] Abbreviation project_loop := (Engine.project_loop exp_form).

Lemma post_amounts_other (impact : Impact) (i j kf k : nat)
    (rows : list BudgetRow) :
  k <> i -> k <> j -> k <> kf ->
  post_amounts impact i j kf rows !! k = set_change <$> rows !! k.
Proof.
  intros Hi Hj Hk. unfold Engine.post_amounts.
  now rewrite list_lookup_fmap, !list_lookup_alter_ne by congruence.
Qed.

(** One call, at a position that is neither the source's, nor the
    destination's, nor that of the indirect-cost row. *)
Lemma applyOne_other (id : string) (rates : option RatesData)
    (baselineRows snapshot : list BudgetRow) (fromAcct toAcct : string)
    (amountCents : number) (mode : TransferMode)
    (out : list BudgetRow * MappingRow) (k : nat) :
  let rows := fst (working_copy (fandaAcctOf rates) baselineRows) in
  applyOne id rates baselineRows snapshot fromAcct toAcct amountCents mode
  = Ok out ->
  first_at fromAcct rows k = false -> first_at toAcct rows k = false ->
  first_at (fandaAcctOf rates) rows k = false ->
  fst out !! k = set_change <$> rows !! k.
Proof.
  intros rows Hrun H1 H2 H3. destruct out as [rows' logRow].
  destruct (applyOne_Ok_rows exp_form _ _ _ _ _ _ _ _ _ _ Hrun)
    as (rows0 & kf & [i fr] & [j tr] & impact
        & Hf & Ht & Hw & Hfr & Htr & Himp & -> & _).
  assert (Hrows : rows0 = rows) by (subst rows; now rewrite Hw).
  subst rows0. destruct (working_copy_fanda _ _ _ _ Hw) as [far Hfa].
  cbn [fst]. apply post_amounts_other.
  - exact (first_at_false _ _ _ _ _ Hfr H1).
  - exact (first_at_false _ _ _ _ _ Htr H2).
  - exact (first_at_false _ _ _ _ _ Hfa H3).
Qed.

(** On rows that are a working copy but for their amounts, making the
    working copy again leaves every row in place, but for the row of the
    indirect-cost account. *)
Lemma working_copy_again (fandaAcct : string) (baselineRows w : list BudgetRow)
    (k : nat) :
  let W0 := fst (working_copy fandaAcct baselineRows) in
  static <$> w = static <$> W0 ->
  first_at fandaAcct W0 k = false ->
  fst (working_copy fandaAcct w) !! k = w !! k.
Proof.
  intros W0 Hst Hk.
  pose proof (static_accounts _ _ Hst) as Hacc.
  pose proof (kept_no_summary baselineRows) as Hkept.
  destruct (working_copy fandaAcct baselineRows) as [W kf] eqn:Hw.
  destruct (working_copy_fanda _ _ _ _ Hw) as [far Hfa].
  assert (HW : W0 = W) by (subst W0; reflexivity).
  rewrite HW in *. clear HW W0.
  pose proof (first_at_false _ _ _ _ _ Hfa Hk) as Hkf.
  destruct (decide (fandaAcct = "SUMMARY")) as [->|Hs].
  - (* the indirect-cost row is a SUMMARY row: it is dropped and made anew *)
    destruct (working_copy_rows "SUMMARY" baselineRows) as [[Hin _]|[_ Hw']];
      [contradiction|].
    rewrite Hw in Hw'. injection Hw' as -> ->.
    set (kept := List.filter not_summary baselineRows) in *.
    rewrite fmap_app in Hacc. simpl in Hacc.
    destruct (decide (w = [])) as [->|Hne].
    { destruct kept; discriminate Hacc. }
    destruct (exists_last Hne) as (w1 & x & ->).
    rewrite fmap_app in Hacc. simpl in Hacc.
    apply app_inj_tail in Hacc as [Hacc1 Hx].
    assert (Hw1 : "SUMMARY" ∉ account <$> w1) by now rewrite Hacc1.
    assert (Hlen : length w1 = length kept).
    { rewrite <- (length_fmap account w1), Hacc1. apply length_fmap. }
    assert (Hnx : List.filter not_summary [x] = []).
    { simpl. unfold not_summary. now rewrite Hx. }
    unfold working_copy.
    rewrite filter_not_summary_app, (filter_not_summary_all w1 Hw1), Hnx,
      app_nil_r.
    destruct (find_row "SUMMARY" w1) as [[i r]|] eqn:E.
    { apply find_row_Some in E as [Hi Hr].
      exfalso. apply Hw1. apply list_elem_of_fmap. exists r.
      split; [now symmetry|]. now apply list_elem_of_lookup_2 in Hi. }
    cbn [fst].
    destruct (decide (k < length w1)%nat).
    + rewrite (lookup_app_l w1 [newFandaRow "SUMMARY"]) by assumption.
      now rewrite (lookup_app_l w1 [x]) by assumption.
    + rewrite (lookup_ge_None_2 (w1 ++ [newFandaRow "SUMMARY"]))
        by (rewrite length_app; simpl; lia).
      rewrite (lookup_ge_None_2 (w1 ++ [x]))
        by (rewrite length_app; simpl; lia).
      reflexivity.
  - assert (HW : "SUMMARY" ∉ account <$> W).
    { intros H. change W with (fst (W, kf)) in H. rewrite <- Hw in H.
      apply working_copy_accounts in H as [[_ H]|H]; congruence. }
    assert (Hin : fandaAcct ∈ account <$> W).
    { change W with (fst (W, kf)). rewrite <- Hw.
      apply working_copy_accounts. now right. }
    rewrite <- Hacc in HW, Hin.
    unfold working_copy. rewrite (filter_not_summary_all w HW).
    destruct (find_row fandaAcct w) as [[i r]|] eqn:E; [reflexivity|].
    now apply find_row_None in E.
Qed.

Lemma project_loop_untouched (ids : nat -> string) (rates : option RatesData)
    (baselineRows snapshot : list BudgetRow) (k : nat)
    (transfers : list TransferItem) :
  let W0 := fst (working_copy (fandaAcctOf rates) baselineRows) in
  first_at (fandaAcctOf rates) W0 k = false ->
  Forall (fun t => first_at (t_from t) W0 k = false
                   /\ first_at (t_to t) W0 k = false) transfers ->
  forall (n : nat) (w : list BudgetRow) (logs : list MappingRow)
         (p : Projection),
    static <$> w = static <$> W0 ->
    project_loop ids n rates snapshot w logs transfers = Ok p ->
    proposed_budget <$> finalRows p !! k = proposed_budget <$> w !! k.
Proof.
  intros W0 Hfa. induction 1 as [|t rest [Hf Ht] _ IH];
    intros n w logs p Hst Hp.
  - now injection Hp as <-.
  - cbn [Engine.project_loop] in Hp.
    destruct (applyOne (ids n) rates w snapshot (t_from t) (t_to t)
                (amount_cents t) (t_mode t)) as [out|e] eqn:E; [|discriminate].
    cbn [mbind outcome_bind] in Hp.
    destruct (applyOne_static exp_form _ _ _ _ _ _ _ _ _ E) as [Hst' _].
    assert (Hwc : static <$> fst (working_copy (fandaAcctOf rates) w)
                  = static <$> W0).
    { rewrite (working_copy_static _ _ _ Hst). subst W0.
      now rewrite working_copy_idem. }
    pose proof (static_accounts _ _ Hwc) as Hacc.
    rewrite (IH _ _ _ _ (eq_trans Hst' Hwc) Hp).
    rewrite (applyOne_other _ _ _ _ _ _ _ _ _ k E).
    + rewrite (working_copy_again _ baselineRows w k Hst Hfa).
      now destruct (w !! k).
    + now rewrite (first_at_accounts _ _ _ _ Hacc).
    + now rewrite (first_at_accounts _ _ _ _ Hacc).
    + now rewrite (first_at_accounts _ _ _ _ Hacc).
Qed.

(** A batch that returns leaves the proposed budget of a row as it was,
    unless the row is the one a transfer of the batch finds for its source
    or for its destination, or the row of the indirect-cost account. *)
Theorem projectWithTransfers_untouched (ids : nat -> string)
    (rates : option RatesData) (baselineRows snapshot : list BudgetRow)
    (transfers : list TransferItem) (p : Projection) (k : nat) :
  let W0 := fst (working_copy (fandaAcctOf rates) baselineRows) in
  projectWithTransfers ids rates baselineRows snapshot transfers = Ok p ->
  transfers <> [] ->
  first_at (fandaAcctOf rates) W0 k = false ->
  Forall (fun t => first_at (t_from t) W0 k = false
                   /\ first_at (t_to t) W0 k = false) transfers ->
  proposed_budget <$> finalRows p !! k = proposed_budget <$> W0 !! k.
Proof.
  intros W0 Hp Hne Hfa Hts. unfold Engine.projectWithTransfers in Hp.
  destruct transfers as [|t rest]; [congruence|].
  apply Forall_cons in Hts as [[Hf Ht] Hrest].
  cbn [Engine.project_loop] in Hp.
  destruct (applyOne (ids O) rates baselineRows snapshot (t_from t) (t_to t)
              (amount_cents t) (t_mode t)) as [out|e] eqn:E; [|discriminate].
  cbn [mbind outcome_bind] in Hp.
  destruct (applyOne_static exp_form _ _ _ _ _ _ _ _ _ E) as [Hst _].
  rewrite (project_loop_untouched ids rates baselineRows snapshot k rest
             Hfa Hrest _ _ _ _ Hst Hp).
  rewrite (applyOne_other _ _ _ _ _ _ _ _ _ k E Hf Ht Hfa).
  fold W0. now destruct (W0 !! k).
Qed.

End Untouched.

(** ** The indirect costs a batch adds *)

(** The total [addedFA] makes of entries that are whole numbers of cents. *)
Lemma addedFA_whole (ms : list MappingRow) :
  Forall (fun m => exists f, fa_added_to_fanda_cents m = of_Z f
                             /\ 0 <= f < 10 ^ 23) ms ->
  exists F,
    0 <= F
    /\ forall a,
         fold_left
           (fun s m => add s (or_else (fa_added_to_fanda_cents m) (of_Z 0)))
           ms (of_Z a)
         = of_Z (a + F).
Proof.
  induction 1 as [|m ms (f & Hf & Hr) _ (F & HF & IH)].
  - exists 0. split; [lia|]. intros a. simpl. f_equal. lia.
  - exists (f + F). split; [lia|]. intros a. cbn [fold_left].
    rewrite Hf, or_else_of_Z, add_of_Z, IH. f_equal. lia.
Qed.

Section AddedFA.

Variable exp_form : Q -> string.

#[local] Abbreviation toCents := (Engine.toCents exp_form).
#[local] Abbreviation fromCents := (Engine.fromCents exp_form).
#[local] Abbreviation applyOne := (Engine.applyOne exp_form).
#[local] Abbreviation post_amounts := (Engine.post_amounts exp_form).
#[local] Abbreviation projectWithTransfers := (Engine.projectWithTransfers exp_form).
#[local] Abbreviation project_loop := (Engine.project_loop exp_form).

(** Rows that are a working copy but for their amounts are their own
    working copy, when the indirect-cost account is not SUMMARY. *)
Lemma working_copy_fixed (fandaAcct : string) (baselineRows w : list BudgetRow)
    (kf : nat) (r0 : BudgetRow) :
  let W0 := fst (working_copy fandaAcct baselineRows) in
  static <$> w = static <$> W0 ->
  fandaAcct <> "SUMMARY" ->
  find_row fandaAcct W0 = Some (kf, r0) ->
  working_copy fandaAcct w = (w, kf).
Proof.
  intros W0 Hst Hs Hfa. pose proof (static_accounts _ _ Hst) as Hacc.
  assert (HW : "SUMMARY" ∉ account <$> W0).
  { intros H. apply working_copy_accounts in H as [[_ H]|H]; congruence. }
  rewrite <- Hacc in HW.
  unfold working_copy. rewrite (filter_not_summary_all w HW).
  pose proof (find_row_index_accounts fandaAcct w) as Hi.
  rewrite Hacc, <- find_row_index_accounts, Hfa in Hi.
  destruct (find_row fandaAcct w) as [[i x]|]; [|discriminate].
  injection Hi as ->. reflexivity.
Qed.

(** One call, at the row of the indirect-cost account. *)
Lemma applyOne_fanda_row (id : string) (rates : option RatesData)
    (baselineRows snapshot : list BudgetRow) (fromAcct toAcct : string)
    (amountCents : number) (mode : TransferMode)
    (out : list BudgetRow * MappingRow) (kf : nat) (r : BudgetRow)
    (pq : Q) (P f : Z) :
  applyOne id rates baselineRows snapshot fromAcct toAcct amountCents mode
  = Ok out ->
  find_row (fandaAcctOf rates)
    (fst (working_copy (fandaAcctOf rates) baselineRows)) = Some (kf, r) ->
  proposed_budget r = Fin pq -> (pq * 100 == inject_Z P)%Q ->
  fa_added_to_fanda_cents (snd out) = of_Z f -> 0 <= f < 10 ^ 23 ->
  exists r' pq',
    fst out !! kf = Some r' /\ account r' = fandaAcctOf rates
    /\ proposed_budget r' = Fin pq'
    /\ (pq' * 100 == inject_Z (P + f))%Q.
Proof.
  intros Hrun Hfa Hp Hpq Hf Hfr. destruct out as [rows' logRow].
  destruct (applyOne_Ok_rows exp_form _ _ _ _ _ _ _ _ _ _ Hrun)
    as (rows & kf' & [i fr] & [j tr] & impact
        & Hff & Htf & Hw & Hfi & Htj & Himp & -> & ->).
  rewrite Hw in Hfa. cbn [fst] in Hfa.
  destruct (working_copy_fanda _ _ _ _ Hw) as [far Hfa'].
  rewrite Hfa' in Hfa. injection Hfa as -> ->.
  pose proof (find_row_apart _ _ _ _ _ _ _ Hff Hfi Hfa') as Hik.
  pose proof (find_row_apart _ _ _ _ _ _ _ Htf Htj Hfa') as Hjk.
  apply find_row_Some in Hfa' as [Hk Hacc].
  cbn [fst snd logRowOf fa_added_to_fanda_cents] in *.
  rewrite (post_amounts_lookup exp_form impact i j kf rows r Hik Hjk Hk).
  destruct (Number_of_fromCents exp_form f ltac:(lia)) as (q & Hq & Hqf).
  rewrite Hf, Hq. eexists _, _. split; [reflexivity|].
  cbn [set_change credit account proposed_budget]. rewrite Hp.
  split; [exact Hacc|]. split; [reflexivity|].
  rewrite inject_Z_plus. lra.
Qed.

Lemma project_loop_addedFA (ids : nat -> string) (rates : option RatesData)
    (baselineRows snapshot : list BudgetRow) (kf : nat) (r0 : BudgetRow)
    (transfers : list TransferItem) :
  let W0 := fst (working_copy (fandaAcctOf rates) baselineRows) in
  fandaAcctOf rates <> "SUMMARY" ->
  find_row (fandaAcctOf rates) W0 = Some (kf, r0) ->
  forall (n : nat) (w : list BudgetRow) (p : Projection)
         (r : BudgetRow) (pq : Q) (P : Z),
    static <$> w = static <$> W0 ->
    w !! kf = Some r -> proposed_budget r = Fin pq ->
    (pq * 100 == inject_Z P)%Q ->
    project_loop ids n rates snapshot w [] transfers = Ok p ->
    Forall (fun m => exists f, fa_added_to_fanda_cents m = of_Z f
                               /\ 0 <= f < 10 ^ 23) (mapping p) ->
    exists F r' pq',
      addedFA (mapping p) = of_Z F /\ 0 <= F
      /\ finalRows p !! kf = Some r' /\ account r' = fandaAcctOf rates
      /\ proposed_budget r' = Fin pq'
      /\ (pq' * 100 == inject_Z (P + F))%Q.
Proof.
  intros W0 Hs Hfa0. induction transfers as [|t rest IH];
    intros n w p r pq P Hst Hk Hp Hpq Hrun Hlog.
  - injection Hrun as <-. exists 0, r, pq. cbn [finalRows mapping].
    repeat split; try assumption; try lia.
    + apply find_row_Some in Hfa0 as [Hk0 Ha0].
      assert (Hacc := static_accounts _ _ Hst).
      apply (f_equal (fun l => l !! kf)) in Hacc.
      rewrite !list_lookup_fmap, Hk, Hk0 in Hacc. cbn in Hacc. congruence.
    + now rewrite Z.add_0_r.
  - cbn [Engine.project_loop] in Hrun.
    destruct (applyOne (ids n) rates w snapshot (t_from t) (t_to t)
                (amount_cents t) (t_mode t)) as [out|e] eqn:E; [|discriminate].
    cbn [mbind outcome_bind] in Hrun.
    rewrite (project_loop_logs exp_form) in Hrun.
    destruct (project_loop ids (S n) rates snapshot (fst out) [] rest)
      as [p'|e] eqn:E'; [|discriminate].
    cbn [mbind outcome_bind] in Hrun. injection Hrun as <-.
    cbn [finalRows mapping] in *.
    apply Forall_cons in Hlog as [(f & Hf & Hfr) Hlog].
    pose proof (working_copy_fixed _ baselineRows w kf r0 Hst Hs Hfa0) as Hw.
    destruct (applyOne_static exp_form _ _ _ _ _ _ _ _ _ E) as [Hst' _].
    rewrite Hw in Hst'. cbn [fst] in Hst'.
    assert (Hfaw : find_row (fandaAcctOf rates)
                     (fst (working_copy (fandaAcctOf rates) w)) = Some (kf, r)).
    { rewrite Hw. cbn [fst].
      pose proof (find_row_index_accounts (fandaAcctOf rates) w) as Hi.
      rewrite (static_accounts _ _ Hst), <- find_row_index_accounts, Hfa0 in Hi.
      destruct (find_row (fandaAcctOf rates) w) as [[i x]|] eqn:Ex;
        [|discriminate].
      injection Hi as ->. apply find_row_Some in Ex as [Hx _]. congruence. }
    destruct (applyOne_fanda_row _ _ _ _ _ _ _ _ _ kf r pq P f E Hfaw Hp Hpq
                Hf Hfr) as (r1 & pq1 & Hk1 & _ & Hp1 & Hpq1).
    destruct (IH _ _ _ r1 pq1 (P + f) (eq_trans Hst' Hst) Hk1 Hp1 Hpq1 E' Hlog)
      as (F & r' & pq' & HF & HF0 & Hk' & Ha' & Hp' & Hpq').
    exists (f + F), r', pq'.
    split; [|split; [lia|]].
    + unfold addedFA in *. cbn [app fold_left].
      rewrite Hf, or_else_of_Z, add_of_Z.
      destruct (addedFA_whole _ Hlog) as (F' & _ & HF').
      rewrite HF'. rewrite (HF' 0) in HF. injection HF as HF.
      f_equal. lia.
    + repeat split; try assumption.
      now rewrite Z.add_assoc.
Qed.


End AddedFA.

(* ================================================================== *)
(** * The panels *)
(* ================================================================== *)

(** ** Loaded rows *)

Lemma or_else_idem (a : number) :
  or_else (or_else a (of_Z 0)) (of_Z 0) = or_else a (of_Z 0).
Proof. unfold or_else. destruct (truthy a) eqn:E; [now rewrite E|reflexivity]. Qed.

Lemma or_else_not_NaN (a : number) : or_else a (of_Z 0) <> NaN.
Proof. unfold or_else. destruct a; simpl; try discriminate. destruct (negb _); discriminate. Qed.


(** ** The snapshot *)

Lemma find_row_fmap (f : BudgetRow -> BudgetRow) (acct : string)
    (rows : list BudgetRow) :
  (forall r, account (f r) = account r) ->
  find_row acct (f <$> rows) = prod_map id f <$> find_row acct rows.
Proof.
  intros Hf. unfold find_row. rewrite list_find_fmap.
  f_equal. apply list_find_ext. intros r. unfold compose. now rewrite Hf.
Qed.

(** The snapshot that mirrors the budget gives every account the
    encumbrances the budget gives it; a snapshot that has rows stays. *)
Theorem mirrorSnapshot_encumbrances (newBudget currentSnapshot : list BudgetRow)
    (acct : string) :
  (currentSnapshot = [] ->
   encumbrancesFor acct (mirrorSnapshot newBudget currentSnapshot)
   = encumbrancesFor acct newBudget)
  /\ (currentSnapshot <> [] ->
      mirrorSnapshot newBudget currentSnapshot = currentSnapshot).
Proof.
  split.
  - intros ->. unfold mirrorSnapshot. destruct newBudget as [|r0 rest];
      [reflexivity|].
    change ((0 <? length (r0 :: rest))%nat && (length (@nil BudgetRow) =? 0)%nat)
      with true. cbv iota.
    unfold encumbrancesFor. rewrite (find_row_fmap snapshotRow) by reflexivity.
    destruct (find_row acct (r0 :: rest)) as [[i r]|]; [|reflexivity].
    cbn. now destruct (encumbrances r).
  - intros Hne. unfold mirrorSnapshot.
    destruct currentSnapshot; [congruence|].
    now rewrite andb_false_r.
Qed.

Section Panels.

Variable exp_form : Q -> string.

#[local] Abbreviation toCents := (Engine.toCents exp_form).
#[local] Abbreviation baselineSum := (Engine.baselineSum exp_form).
#[local] Abbreviation applyOne := (Engine.applyOne exp_form).
#[local] Abbreviation projectWithTransfers := (Engine.projectWithTransfers exp_form).
#[local] Abbreviation projection := (App.projection exp_form).
#[local] Abbreviation preview := (App.preview exp_form).
#[local] Abbreviation applyClick := (App.applyClick exp_form).

(** ** The projection that is displayed *)

(** The projection is the whole batch or nothing of it: either the rows of
    the baseline with an empty log, or what [projectWithTransfers]
    returns, with one log entry per transfer.  Either way the current
    budgets add up to the total of the baseline. *)
Theorem projection_all_or_nothing (ids : nat -> string)
    (ratesData : option RatesData) (newBudget currentSnapshot : list BudgetRow)
    (transfers : list TransferItem) :
  let p := projection ids ratesData newBudget currentSnapshot transfers in
  baselineSum (finalRows p) = baselineSum newBudget
  /\ ((finalRows p = newBudget /\ mapping p = [])
      \/ (projectWithTransfers ids ratesData newBudget currentSnapshot
            transfers = Ok p
          /\ length (mapping p) = length transfers))
  /\ (forall e,
        projectWithTransfers ids ratesData newBudget currentSnapshot transfers
        = Throw e ->
        finalRows p = newBudget /\ mapping p = [])
  /\ (ratesData = None \/ newBudget = [] ->
      finalRows p = newBudget /\ mapping p = []).
Proof.
  intros p. subst p. unfold App.projection.
  destruct ratesData as [r|]; [|repeat split; auto].
  destruct newBudget as [|r0 rest] eqn:Eb; [repeat split; auto|].
  cbn [length Nat.eqb].
  destruct (projectWithTransfers ids (Some r) (r0 :: rest) currentSnapshot
              transfers) as [p|e] eqn:E.
  - split; [|split; [|split]].
    + apply (project_loop_conserves exp_form) in E. exact E.
    + right. split; [reflexivity|].
      apply (project_loop_mapping exp_form) in E. apply E.
    + discriminate.
    + intros [H|H]; discriminate.
  - repeat split; auto.
Qed.

(** ** The Apply button against the engine *)

Lemma find_row_kept (acct : string) (rows : list BudgetRow) :
  acct <> "SUMMARY" ->
  snd <$> find_row acct (List.filter not_summary rows)
  = snd <$> find_row acct rows.
Proof.
  intros Hs. unfold find_row.
  induction rows as [|r rows IH]; [reflexivity|].
  cbn [List.filter]. unfold not_summary at 1.
  destruct (decide (account r = acct)) as [E|E].
  - rewrite bool_decide_eq_false_2 by congruence. cbn [negb].
    cbn [list_find]. now rewrite !decide_True by exact E.
  - destruct (negb (bool_decide (account r = "SUMMARY"))).
    + cbn [list_find]. rewrite !decide_False by exact E.
      rewrite <- !option_fmap_compose.
      destruct (list_find _ (List.filter _ rows)) as [[i x]|];
        destruct (list_find _ rows) as [[j y]|]; cbn in *; congruence.
    + cbn [list_find]. rewrite decide_False by exact E.
      rewrite <- option_fmap_compose.
      destruct (list_find _ (List.filter _ rows)) as [[i x]|];
        destruct (list_find _ rows) as [[j y]|]; cbn in *; congruence.
Qed.

Lemma find_row_app_l (acct : string) (l1 l2 : list BudgetRow) (i : nat)
    (r : BudgetRow) :
  find_row acct l1 = Some (i, r) -> find_row acct (l1 ++ l2) = Some (i, r).
Proof. intros H. unfold find_row in *. now apply list_find_app_l. Qed.

(** The row the working copy has for an account that is not SUMMARY is
    the row the baseline has for it. *)
Lemma working_copy_find (fandaAcct acct : string) (baselineRows : list BudgetRow)
    (i : nat) (r : BudgetRow) :
  acct <> "SUMMARY" ->
  find_row acct baselineRows = Some (i, r) ->
  exists j,
    find_row acct (fst (working_copy fandaAcct baselineRows)) = Some (j, r).
Proof.
  intros Hs Hfind. pose proof (find_row_kept acct baselineRows Hs) as Hk.
  rewrite Hfind in Hk.
  destruct (find_row acct (List.filter not_summary baselineRows))
    as [[j r']|] eqn:E; [|discriminate].
  injection Hk as ->. exists j. unfold working_copy.
  destruct (find_row fandaAcct (List.filter not_summary baselineRows))
    as [[k x]|]; cbn [fst]; [exact E|]. now apply find_row_app_l.
Qed.

Lemma elem_of_accounts (acct : string) (newBudget : list BudgetRow)
    (ratesData : option RatesData) :
  acct ∈ account <$> accounts newBudget ratesData
  <-> acct ∈ account <$> newBudget
      /\ acct <> "SUMMARY" /\ acct <> fandaAcctOf ratesData.
Proof.
  unfold accounts. rewrite !list_elem_of_fmap. split.
  - intros (r & -> & Hr). apply list_elem_of_In, filter_In in Hr as [Hin Hc].
    apply andb_true_iff in Hc as [H1 H2].
    apply negb_true_iff, bool_decide_eq_false in H1, H2.
    split; [|tauto]. exists r. split; [reflexivity|].
    now apply list_elem_of_In.
  - intros ((r & -> & Hr) & H1 & H2). exists r. split; [reflexivity|].
    apply list_elem_of_In, filter_In. split; [now apply list_elem_of_In|].
    apply andb_true_iff.
    split; apply negb_true_iff, bool_decide_eq_false; assumption.
Qed.

End Panels.

Section ApplyButton.

Variable exp_form : Q -> string.

#[local] Abbreviation toCents := (Engine.toCents exp_form).
#[local] Abbreviation fromCents := (Engine.fromCents exp_form).
#[local] Abbreviation baselineSum := (Engine.baselineSum exp_form).
#[local] Abbreviation applyOne := (Engine.applyOne exp_form).
#[local] Abbreviation post_amounts := (Engine.post_amounts exp_form).
#[local] Abbreviation projectWithTransfers := (Engine.projectWithTransfers exp_form).
#[local] Abbreviation projection := (App.projection exp_form).
#[local] Abbreviation preview := (App.preview exp_form).
#[local] Abbreviation applyClick := (App.applyClick exp_form).

(** What the button has checked when it queues a transfer. *)
Lemma applyClick_queued (id from to amount : string) (mode : TransferMode)
    (newBudget currentSnapshot : list BudgetRow)
    (ratesData : option RatesData) (transfers queue : list TransferItem) :
  applyClick id from to amount mode newBudget currentSnapshot ratesData
    transfers = inr queue ->
  exists i fromRow impact,
    is_empty to = false
    /\ truthy (toCents (inr amount)) = true
    /\ find_row from newBudget = Some (i, fromRow)
    /\ computeTransferImpact ratesData to (toCents (inr amount)) mode
       = Ok impact
    /\ ltb (sub (toCents (inl (proposed_budget fromRow))) (source_out impact))
           (toCents (inl (encumbrancesFor from currentSnapshot))) = false
    /\ ltb (sub (toCents (inl (proposed_budget fromRow))) (source_out impact))
           (of_Z 0) = false
    /\ queue = (transfers
                ++ [ {| t_id := id; t_from := from; t_to := to;
                        amount_cents := toCents (inr amount);
                        t_mode := mode |} ])%list
    /\ forall id' transfers',
         applyClick id' from to amount mode newBudget currentSnapshot
           ratesData transfers'
         = inr (transfers'
                ++ [ {| t_id := id'; t_from := from; t_to := to;
                        amount_cents := toCents (inr amount);
                        t_mode := mode |} ])%list.
Proof.
  unfold App.applyClick.
  destruct (is_empty from || is_empty to) eqn:Hemp; [discriminate|].
  destruct (negb (truthy (toCents (inr amount)))) eqn:Hc; [discriminate|].
  destruct (find_row from newBudget) as [[i fromRow]|] eqn:Hfr;
    [|discriminate].
  destruct (computeTransferImpact ratesData to (toCents (inr amount)) mode)
    as [impact|e] eqn:Himp; [|discriminate].
  cbv zeta.
  destruct (ltb _ (toCents _)) eqn:C1; [discriminate|].
  destruct (ltb _ (of_Z 0)) eqn:C2; [discriminate|].
  intros [= <-]. exists i, fromRow, impact.
  apply orb_false_iff in Hemp as [_ Hto]. apply negb_false_iff in Hc.
  repeat split; auto.
Qed.

(** The first call of the batch, for a transfer the button has queued. *)
Lemma applyOne_queued (id from to : string) (cents : number)
    (mode : TransferMode) (newBudget currentSnapshot : list BudgetRow)
    (ratesData : option RatesData) (i : nat) (fromRow : BudgetRow)
    (impact : Impact) :
  from ∈ account <$> accounts newBudget ratesData ->
  to ∈ account <$> accounts newBudget ratesData ->
  from <> to ->
  baselineSum newBudget <> NaN ->
  find_row from newBudget = Some (i, fromRow) ->
  computeTransferImpact ratesData to cents mode = Ok impact ->
  ltb (sub (toCents (inl (proposed_budget fromRow))) (source_out impact))
      (toCents (inl (encumbrancesFor from currentSnapshot))) = false ->
  ltb (sub (toCents (inl (proposed_budget fromRow))) (source_out impact))
      (of_Z 0) = false ->
  exists rows kf j j' tr,
    working_copy (fandaAcctOf ratesData) newBudget = (rows, kf)
    /\ find_row from rows = Some (j, fromRow)
    /\ find_row to rows = Some (j', tr)
    /\ from <> fandaAcctOf ratesData /\ to <> fandaAcctOf ratesData
    /\ applyOne id ratesData newBudget currentSnapshot from to cents mode
       = Ok (post_amounts impact j j' kf rows,
             logRowOf id from to impact mode).
Proof.
  intros Hfrom Hto Hne Hsum Hfr Himp C1 C2.
  apply elem_of_accounts in Hfrom as (Hfin & Hfs & Hff).
  apply elem_of_accounts in Hto as (Htin & Hts & Htf).
  destruct (working_copy (fandaAcctOf ratesData) newBudget) as [rows kf] eqn:Hw.
  destruct (working_copy_find (fandaAcctOf ratesData) from newBudget i fromRow
              Hfs Hfr) as [j Hfj].
  destruct (find_row_is_Some to newBudget Htin) as (i' & tr & Htr).
  destruct (working_copy_find (fandaAcctOf ratesData) to newBudget i' tr
              Hts Htr) as [j' Htj].
  rewrite Hw in Hfj, Htj. cbn [fst] in Hfj, Htj.
  exists rows, kf, j, j', tr. repeat split; try assumption.
  rewrite (applyOne_checked exp_form id ratesData newBudget currentSnapshot
             from to cents mode rows kf (j, fromRow) (j', tr)
             impact Hff Htf Hw Hfj Htj Hne Himp).
  cbv zeta. cbn [fst snd]. rewrite C1, C2.
  rewrite (baselineSum_post_amounts exp_form).
  replace rows with (fst (working_copy (fandaAcctOf ratesData) newBudget))
    by now rewrite Hw.
  rewrite (baselineSum_working_copy exp_form).
  now rewrite strict_eq_refl by exact Hsum.
Qed.

(** A transfer the Apply button queues, between two different accounts
    taken from the lists offered, is one [applyOne] accepts on the
    baseline: every check of the engine passes, when the total of the
    baseline is a number.  The log entry then carries the figures the
    preview shows. *)
Theorem applyClick_sound (id from to amount : string) (mode : TransferMode)
    (newBudget currentSnapshot : list BudgetRow)
    (ratesData : option RatesData) (transfers queue : list TransferItem) :
  applyClick id from to amount mode newBudget currentSnapshot ratesData
    transfers = inr queue ->
  from ∈ account <$> accounts newBudget ratesData ->
  to ∈ account <$> accounts newBudget ratesData ->
  from <> to ->
  baselineSum newBudget <> NaN ->
  let item := {| t_id := id; t_from := from; t_to := to;
                 amount_cents := toCents (inr amount); t_mode := mode |} in
  queue = (transfers ++ [item])%list
  /\ exists impact,
       preview to amount mode ratesData = Some impact
       /\ forall id',
            exists rows',
              applyOne id' ratesData newBudget currentSnapshot from to
                (amount_cents item) mode
              = Ok (rows', logRowOf id' from to impact mode).
Proof.
  intros Hclick Hfrom Hto Hne Hsum item. subst item.
  destruct (applyClick_queued _ _ _ _ _ _ _ _ _ _ Hclick)
    as (i & fromRow & impact & Hto' & Hc & Hfr & Himp & C1 & C2 & -> & _).
  split; [reflexivity|]. exists impact. split.
  { unfold App.preview. now rewrite Hto', Hc, Himp. }
  intros id'. cbn [amount_cents].
  destruct (applyOne_queued id' from to _ mode newBudget currentSnapshot
              ratesData i fromRow impact Hfrom Hto Hne Hsum Hfr Himp C1 C2)
    as (rows & kf & j & j' & tr & _ & _ & _ & _ & _ & Hrun).
  eexists. exact Hrun.
Qed.


End ApplyButton.

(* ================================================================== *)
(** * The files *)
(* ================================================================== *)

(** ** Quoting a cell *)

Lemma append_inj_r (t s1 s2 : string) : s1 ++ t = s2 ++ t -> s1 = s2.
Proof.
  revert s2. induction s1 as [|a s1 IH]; intros [|b s2] H.
  - reflexivity.
  - apply (f_equal String.length) in H.
    rewrite append_nil_l, append_cons in H. simpl in H.
    rewrite length_append in H. lia.
  - apply (f_equal String.length) in H.
    rewrite append_nil_l, append_cons in H. simpl in H.
    rewrite length_append in H. lia.
  - rewrite !append_cons in H. injection H as -> H. f_equal. now apply IH.
Qed.

Lemma double_quotes_inj (s1 s2 : string) :
  double_quotes s1 = double_quotes s2 -> s1 = s2.
Proof.
  revert s2. induction s1 as [|a s1 IH]; intros [|b s2] H;
    cbn [double_quotes] in H.
  - reflexivity.
  - destruct (Ascii.eqb b dquote); discriminate.
  - destruct (Ascii.eqb a dquote); discriminate.
  - destruct (Ascii.eqb_spec a dquote) as [->|Ha];
      destruct (Ascii.eqb_spec b dquote) as [->|Hb].
    + injection H as H. f_equal. now apply IH.
    + injection H as E _. congruence.
    + injection H as E _. congruence.
    + injection H as -> H. f_equal. now apply IH.
Qed.

(** Two cells with the same text in the file had the same content: the
    quoting of [toCsvRow] loses nothing. *)
Theorem csv_cell_inj (s1 s2 : string) :
  csv_cell s1 = csv_cell s2 -> s1 = s2.
Proof.
  unfold csv_cell.
  destruct (includes comma s1 || includes dquote s1 || includes LF s1) eqn:E1;
    destruct (includes comma s2 || includes dquote s2 || includes LF s2) eqn:E2;
    intros H.
  - injection H as H. apply append_inj_r in H. now apply double_quotes_inj.
  - subst s2. cbn [includes] in E2.
    rewrite Ascii.eqb_refl in E2. cbn in E2.
    now rewrite orb_true_r in E2.
  - subst s1. cbn [includes] in E1.
    rewrite Ascii.eqb_refl in E1. cbn in E1.
    now rewrite orb_true_r in E1.
  - exact H.
Qed.

(** ** Lines and cells *)

Lemma concat_cons (sep x y : string) (ys : list string) :
  String.concat sep (x :: y :: ys) = x ++ sep ++ String.concat sep (y :: ys).
Proof. reflexivity. Qed.

Lemma trim_end_fixed_tail (a : ascii) (s : string) :
  trim_end (String a s) = String a s -> trim_end s = s.
Proof.
  cbn [trim_end]. destruct (is_space a && is_empty (trim_end s));
    [discriminate|]. now intros [= ->].
Qed.

Lemma trim_end_app (s t : string) :
  t <> "" -> trim_end t = t -> trim_end (s ++ t) = s ++ t.
Proof.
  intros Hne Ht. induction s as [|a s IH]; [exact Ht|].
  rewrite append_cons. cbn [trim_end]. rewrite IH.
  destruct (s ++ t) eqn:E.
  - destruct s; [now rewrite append_nil_l in E|discriminate E].
  - cbn [is_empty]. now rewrite andb_false_r.
Qed.

Lemma includes_app (c : ascii) (s t : string) :
  includes c (s ++ t) = includes c s || includes c t.
Proof.
  induction s as [|a s IH]; [reflexivity|].
  rewrite append_cons. cbn [includes]. now rewrite IH, orb_assoc.
Qed.

(** A text without line feed that does not end with a blank is one line,
    whatever follows the line feed after it. *)
Lemma split_lines_line (l rest : string) :
  includes LF l = false -> trim_end l = l ->
  split_lines (l ++ String LF rest) = l :: split_lines rest.
Proof.
  induction l as [|a l IH]; intros Hlf Ht.
  - rewrite append_nil_l. reflexivity.
  - cbn [includes] in Hlf. apply orb_false_iff in Hlf as [Ha Hl].
    pose proof (trim_end_fixed_tail _ _ Ht) as Ht'.
    rewrite append_cons. cbn [split_lines]. rewrite Ha, (IH Hl Ht').
    destruct (Ascii.eqb a CR) eqn:Hcr; [|reflexivity].
    destruct l as [|b l'].
    + apply Ascii.eqb_eq in Hcr. subst a. discriminate Ht.
    + rewrite append_cons. cbn [includes] in Hl.
      apply orb_false_iff in Hl as [-> _]. reflexivity.
Qed.

Lemma split_lines_last (l : string) :
  includes LF l = false -> split_lines l = [l].
Proof.
  induction l as [|a l IH]; intros Hlf; [reflexivity|].
  cbn [includes] in Hlf. apply orb_false_iff in Hlf as [Ha Hl].
  cbn [split_lines]. rewrite Ha, (IH Hl).
  destruct (Ascii.eqb a CR); [|reflexivity].
  destruct l as [|b l']; [reflexivity|].
  cbn [includes] in Hl. apply orb_false_iff in Hl as [-> _]. reflexivity.
Qed.

Lemma split_lines_concat (l : string) (ls : list string) :
  Forall (fun l => includes LF l = false /\ trim_end l = l) (l :: ls) ->
  split_lines (String.concat (String LF "") (l :: ls)) = l :: ls.
Proof.
  revert l. induction ls as [|l' ls IH]; intros l H.
  - apply Forall_cons in H as [[H _] _]. now apply split_lines_last.
  - apply Forall_cons in H as [[H1 H2] H].
    rewrite concat_cons.
    change (String LF "" ++ String.concat (String LF "") (l' :: ls))
      with (String LF (String.concat (String LF "") (l' :: ls))).
    rewrite (split_lines_line _ _ H1 H2). f_equal. now apply IH.
Qed.

Lemma split_char_cell (c : ascii) (f rest : string) :
  includes c f = false ->
  split_char c (f ++ String c rest) = f :: split_char c rest.
Proof.
  induction f as [|a f IH]; intros H.
  - rewrite append_nil_l. cbn [split_char]. now rewrite Ascii.eqb_refl.
  - cbn [includes] in H. apply orb_false_iff in H as [Ha Hf].
    rewrite append_cons. cbn [split_char]. now rewrite Ha, (IH Hf).
Qed.

Lemma split_char_last (c : ascii) (f : string) :
  includes c f = false -> split_char c f = [f].
Proof.
  induction f as [|a f IH]; intros H; [reflexivity|].
  cbn [includes] in H. apply orb_false_iff in H as [Ha Hf].
  cbn [split_char]. now rewrite Ha, (IH Hf).
Qed.

Lemma split_char_concat (f : string) (fs : list string) :
  Forall (fun f => includes comma f = false) (f :: fs) ->
  split_char comma (String.concat "," (f :: fs)) = f :: fs.
Proof.
  revert f. induction fs as [|f' fs IH]; intros f H.
  - apply Forall_cons in H as [H _]. now apply split_char_last.
  - apply Forall_cons in H as [H1 H].
    rewrite concat_cons.
    change ("," ++ String.concat "," (f' :: fs))
      with (String comma (String.concat "," (f' :: fs))).
    rewrite (split_char_cell _ _ _ H1). f_equal. now apply IH.
Qed.

Lemma csv_cell_plain (s : string) : plain s -> csv_cell s = s.
Proof. intros (H1 & H2 & H3 & _). unfold csv_cell. now rewrite H1, H2, H3. Qed.

Lemma trim_fixed_end (s : string) : trim s = s -> trim_end s = s.
Proof.
  unfold trim. destruct s as [|a s]; [reflexivity|].
  cbn [skip_spaces]. destruct (is_space a) eqn:Ha; [|easy].
  intros H. exfalso.
  assert (Hlen : forall t, (String.length (trim_end t) <= String.length t)%nat).
  { induction t as [|b t IHt]; [reflexivity|]. cbn [trim_end].
    destruct (_ && _); simpl; lia. }
  assert (Hsk : forall t, (String.length (skip_spaces t) <= String.length t)%nat).
  { induction t as [|b t IHt]; [reflexivity|]. cbn [skip_spaces].
    destruct (is_space b); simpl; lia. }
  apply (f_equal String.length) in H. simpl in H.
  pose proof (Hlen (skip_spaces s)). pose proof (Hsk s). lia.
Qed.

(** A line of plain cells. *)
Lemma line_of_plain (f : string) (fs : list string) :
  Forall plain (f :: fs) ->
  let line := String.concat "," (csv_cell <$> (f :: fs)) in
  trim <$> split_char comma line = f :: fs
  /\ includes LF line = false.
Proof.
  intros H line.
  assert (Hc : csv_cell <$> (f :: fs) = f :: fs).
  { rewrite <- (list_fmap_id (f :: fs)) at 2. apply Forall_fmap_ext.
    eapply Forall_impl; [exact H|]. intros s Hs. now apply csv_cell_plain. }
  subst line. rewrite Hc. split.
  - rewrite split_char_concat.
    + rewrite <- (list_fmap_id (f :: fs)) at 2. apply Forall_fmap_ext.
      eapply Forall_impl; [exact H|]. now intros s (_ & _ & _ & Hs).
    + eapply Forall_impl; [exact H|]. now intros s (Hs & _).
  - clear Hc. revert f H. induction fs as [|f' fs IH]; intros f H.
    + apply Forall_cons in H as [(_ & _ & H & _) _]. exact H.
    + apply Forall_cons in H as [(_ & _ & H1 & _) H].
      rewrite concat_cons, !includes_app, H1, (IH f' H). reflexivity.
Qed.

Lemma concat_last_fixed (fs : list string) (l : string) :
  l <> "" -> trim_end l = l ->
  trim_end (String.concat "," (fs ++ [l])) = String.concat "," (fs ++ [l])
  /\ String.concat "," (fs ++ [l]) <> "".
Proof.
  intros Hne Hl. induction fs as [|f fs [IH1 IH2]]; [now split|].
  cbn [app].
  destruct (fs ++ [l])%list as [|x xs] eqn:E; [now destruct fs|].
  rewrite concat_cons.
  assert (Hc : "," ++ String.concat "," (x :: xs) <> "") by discriminate.
  split.
  - apply trim_end_app; [exact Hc|]. now apply trim_end_app.
  - intros E'. apply (f_equal String.length) in E'.
    rewrite length_append in E'. simpl in E'. lia.
Qed.

(** ** The text of an integer *)

Lemma includes_digits (c : ascii) (s : string) :
  is_digit c = false -> all_digits s = true -> includes c s = false.
Proof.
  intros Hc. induction s as [|a s IH]; [reflexivity|].
  rewrite all_digits_cons. intros [Ha Hs]%andb_true_iff.
  cbn [includes]. rewrite (IH Hs), orb_false_r.
  apply Ascii.eqb_neq. intros ->. congruence.
Qed.

Lemma trim_end_digits (s : string) : all_digits s = true -> trim_end s = s.
Proof.
  induction s as [|a s IH]; [reflexivity|].
  rewrite all_digits_cons. intros [Ha Hs]%andb_true_iff.
  cbn [trim_end]. rewrite (IH Hs).
  destruct (is_digit_plain a Ha) as (-> & _). reflexivity.
Qed.

Lemma plain_signed_digits (minus : bool) (s : string) :
  all_digits s = true -> s <> "" ->
  plain ((if minus then "-" else "") ++ s).
Proof.
  intros Hs Hne.
  assert (Hd : plain s).
  { repeat split; try (apply includes_digits; [reflexivity | exact Hs]).
    unfold trim. destruct s as [|a s']; [congruence|].
    pose proof Hs as Ha. rewrite all_digits_cons in Ha.
    apply andb_true_iff in Ha as [Ha _].
    destruct (is_digit_plain a Ha) as (Hsp & _).
    cbn [skip_spaces]. rewrite Hsp. now apply trim_end_digits. }
  destruct minus; [|now rewrite append_nil_l].
  destruct Hd as (H1 & H2 & H3 & H4).
  change ("-" ++ s) with (String "-" s).
  repeat split; cbn [includes]; rewrite ?H1, ?H2, ?H3; try reflexivity.
  unfold trim. cbn [skip_spaces]. change (is_space "-") with false. cbv iota.
  cbn [trim_end]. change (is_space "-") with false. cbn [andb].
  f_equal. destruct s as [|a s']; [congruence|].
  unfold trim in H4. pose proof Hs as Ha. rewrite all_digits_cons in Ha.
  apply andb_true_iff in Ha as [Ha _].
  destruct (is_digit_plain a Ha) as (Hsp & _).
  now apply trim_end_digits.
Qed.

Lemma Q_int_literal (v : Z) :
  ((inject_Z v + inject_Z 0 / inject_Z (10 ^ Z.of_nat 0)) * Qpower 10 0)%Q
  = inject_Z v.
Proof.
  change (inject_Z 0 / inject_Z (10 ^ Z.of_nat 0))%Q with (0 # 1)%Q.
  change (Qpower 10 0) with (1 # 1)%Q.
  unfold Qplus, Qmult, inject_Z. cbn [Qnum Qden]. f_equal; lia.
Qed.

Section RoundTrip.

Variable exp_form : Q -> string.

#[local] Abbreviation Number_toString := (JS.Number_toString exp_form).
#[local] Abbreviation reads_back := (Views.reads_back exp_form).
#[local] Abbreviation prints_plain := (Views.prints_plain exp_form).
#[local] Abbreviation exportable := (Views.exportable exp_form).

Lemma Number_toString_Z (z : Z) :
  Z.abs z < 10 ^ 21 ->
  Number_toString (of_Z z) = (if z <? 0 then "-" else "") ++ digits (Z.abs z).
Proof.
  intros Hz. destruct (Z.ltb_spec z 0) as [Hneg|Hpos].
  - unfold JS.Number_toString, of_Z.
    replace (Qle_bool 0 (inject_Z z)) with false.
    2:{ symmetry. apply not_true_iff_false. rewrite Qle_bool_iff.
        change 0%Q with (inject_Z 0). rewrite <- Zle_Qle. lia. }
    f_equal.
    pose proof (Number_toString_int exp_form (- inject_Z z) (Z.abs z)) as H.
    unfold JS.Number_toString in H.
    replace (Qle_bool 0 (- inject_Z z)) with true in H.
    2:{ symmetry. rewrite Qle_bool_iff. rewrite <- inject_Z_opp.
        change 0%Q with (inject_Z 0). rewrite <- Zle_Qle. lia. }
    apply H; [|lia]. rewrite <- inject_Z_opp. now rewrite Z.abs_neq by lia.
  - rewrite append_nil_l.
    apply (Number_toString_int exp_form); [|lia]. now rewrite Z.abs_eq by lia.
Qed.

(** An integer below [10^21] in magnitude is read back from its text. *)
Lemma reads_back_int (z : Z) : Z.abs z < 10 ^ 21 -> reads_back (of_Z z).
Proof.
  intros Hz. unfold Views.reads_back, Views.prints_plain.
  rewrite (Number_toString_Z z Hz).
  set (a := digits (Z.abs z)).
  assert (Ha : all_digits a = true) by apply all_digits_digits.
  assert (Hne : a <> "") by apply digits_nonempty.
  assert (Hv : digits_value a = Z.abs z)
    by (apply digits_value_of_digits; lia).
  split; [split|].
  - now apply plain_signed_digits.
  - destruct (z <? 0); [discriminate | now rewrite append_nil_l].
  - destruct a as [|c a'] eqn:Ea; [congruence|].
    pose proof Ha as Hc. rewrite all_digits_cons in Hc.
    apply andb_true_iff in Hc as [Hc Ha'].
    rewrite (Number_of_digits_first (z <? 0) c a' Hc).
    + rewrite (read_decimal_integer _ Ha Hne), Hv.
      change (all_spaces "") with true. cbv iota.
      rewrite Q_int_literal. unfold of_Z. f_equal.
      destruct (Z.ltb_spec z 0) as [Hneg|Hpos].
      * rewrite Z.abs_neq by lia. unfold inject_Z, Qopp. cbn. f_equal. lia.
      * now rewrite Z.abs_eq by lia.
    + intros c' t' ->. rewrite all_digits_cons in Ha'.
      apply andb_true_iff in Ha' as [? _]. now left.
Qed.

(** ** From the export to the loader *)

#[local] Abbreviation row_texts r := (String_of exp_form <$> budgetFields r).

Lemma row_line (r : BudgetRow) :
  exportable r ->
  let line := toCsvRow exp_form (budgetFields r) in
  trim <$> split_char comma line = row_texts r
  /\ includes LF line = false /\ trim_end line = line /\ line <> "".
Proof.
  intros (Ha & Hd & [[Hc Hc'] _] & [[Hp Hp'] _] & [[He He'] _] & [Hg Hg']) line.
  assert (Hall : Forall plain (row_texts r)).
  { unfold row_texts, budgetFields. cbn [fmap list_fmap String_of].
    repeat (apply Forall_cons_2; [assumption|]). apply Forall_nil_2. }
  unfold row_texts, budgetFields in *. cbn [fmap list_fmap String_of] in *.
  subst line. unfold toCsvRow. cbn [budgetFields fmap list_fmap String_of].
  match goal with
  | |- context [String.concat "," (csv_cell ?f :: ?fs)] =>
      change (csv_cell f :: fs)
        with (csv_cell <$> [ account r; description r;
                             Number_toString (current_budget r);
                             Number_toString (proposed_budget r);
                             Number_toString (default (of_Z 0) (encumbrances r));
                             Number_toString
                               (default (sub (proposed_budget r)
                                             (current_budget r)) (change r)) ])
  end.
  destruct (line_of_plain _ _ Hall) as [H1 H2]. cbv zeta in H1, H2.
  split; [exact H1|]. split; [exact H2|].
  assert (Hcells : csv_cell <$> [ account r; description r;
                             Number_toString (current_budget r);
                             Number_toString (proposed_budget r);
                             Number_toString (default (of_Z 0) (encumbrances r));
                             Number_toString
                               (default (sub (proposed_budget r)
                                             (current_budget r)) (change r)) ]
                   = ([ account r; description r;
                       Number_toString (current_budget r);
                       Number_toString (proposed_budget r);
                       Number_toString (default (of_Z 0) (encumbrances r)) ]
                      ++ [ Number_toString
                             (default (sub (proposed_budget r)
                                           (current_budget r)) (change r)) ])%list).
  { cbn [fmap list_fmap app].
    rewrite !csv_cell_plain by assumption. reflexivity. }
  rewrite Hcells.
  apply concat_last_fixed; [exact Hg'|].
  apply trim_fixed_end. now destruct Hg as (_ & _ & _ & Hg).
Qed.

Lemma number_cell_back (n : number) :
  reads_back n -> number_cell (Some (Number_toString n)) = n.
Proof.
  intros [[_ Hne] Hn]. unfold number_cell.
  destruct (Number_toString n) eqn:E; [congruence|]. exact Hn.
Qed.


End RoundTrip.

(** ** The loader *)

Lemma idx_None (header : list string) (name : string) :
  idx header name = None <-> toLowerCase name ∉ toLowerCase <$> header.
Proof.
  unfold idx. rewrite fmap_None, list_find_None, Forall_forall.
  rewrite list_elem_of_fmap. split.
  - intros H (h & E & Hh). now apply (H h).
  - intros H h Hh E. apply H. exists h. now split.
Qed.

Lemma four_columns {A : Type} (a d c p : option nat) (k m : A) :
  a = None \/ d = None \/ c = None \/ p = None ->
  match a, d, c, p with
  | Some _, Some _, Some _, Some _ => k
  | _, _, _, _ => m
  end = m.
Proof.
  intros [-> | [-> | [-> | ->]]]; [reflexivity | | |].
  - now destruct a.
  - now destruct a, d.
  - now destruct a, d, c.
Qed.

(** What [parseBudgetCsv] answers, from the lines that are not empty and
    the names of the first one, trimmed and in lower case: an error under
    two lines; an error when one of the four names is missing; otherwise
    one row per line after the first, with encumbrances of zero when no
    column has this name. *)
Theorem parseBudgetCsv_outcome (txt : string) :
  let lines := List.filter (fun l => negb (is_empty l)) (split_lines txt) in
  let names := toLowerCase <$> (trim <$> split_char comma (hd "" lines)) in
  let required :=
    ["account"; "description"; "current_budget"; "proposed_budget"] in
  (parseBudgetCsv txt = inl NoRows <-> (length lines < 2)%nat)
  /\ (parseBudgetCsv txt = inl MissingColumns
      <-> (2 <= length lines)%nat /\ exists n, n ∈ required /\ n ∉ names)
  /\ forall rows,
       parseBudgetCsv txt = inr rows ->
       (2 <= length lines)%nat
       /\ (forall n, n ∈ required -> n ∈ names)
       /\ length rows = (length lines - 1)%nat
       /\ ("encumbrances" ∉ names ->
           Forall (fun r => csv_encumbrances r = of_Z 0) rows).
Proof.
  intros lines names required. unfold parseBudgetCsv. fold lines.
  set (header := trim <$> split_char comma (hd "" lines)).
  assert (Ha := idx_None header "account").
  assert (Hd := idx_None header "description").
  assert (Hc := idx_None header "current_budget").
  assert (Hp := idx_None header "proposed_budget").
  assert (He := idx_None header "encumbrances").
  change (toLowerCase <$> header) with names in Ha, Hd, Hc, Hp, He.
  change (toLowerCase "account") with "account" in Ha.
  change (toLowerCase "description") with "description" in Hd.
  change (toLowerCase "current_budget") with "current_budget" in Hc.
  change (toLowerCase "proposed_budget") with "proposed_budget" in Hp.
  change (toLowerCase "encumbrances") with "encumbrances" in He.
  assert (Hreq : (exists n, n ∈ required /\ n ∉ names)
                 <-> idx header "account" = None
                     \/ idx header "description" = None
                     \/ idx header "current_budget" = None
                     \/ idx header "proposed_budget" = None).
  { subst required. split.
    - intros (n & Hn & Hm).
      apply elem_of_cons in Hn as [->|Hn]; [left; now apply Ha|].
      apply elem_of_cons in Hn as [->|Hn]; [right; left; now apply Hd|].
      apply elem_of_cons in Hn as [->|Hn];
        [right; right; left; now apply Hc|].
      apply elem_of_cons in Hn as [->|Hn];
        [right; right; right; now apply Hp|].
      now apply elem_of_nil in Hn.
    - intros [H|[H|[H|H]]].
      + exists "account". split; [apply list_elem_of_here | now apply Ha].
      + exists "description". split; [|now apply Hd].
        apply list_elem_of_further, list_elem_of_here.
      + exists "current_budget". split; [|now apply Hc].
        do 2 apply list_elem_of_further. apply list_elem_of_here.
      + exists "proposed_budget". split; [|now apply Hp].
        do 3 apply list_elem_of_further. apply list_elem_of_here. }
  clear Ha Hd Hc Hp.
  destruct (Nat.ltb_spec (length lines) 2) as [Hlt|Hge].
  { split; [split; [intros _; exact Hlt | reflexivity]|].
    split; [split; [discriminate | intros [H _]; lia]|]. discriminate. }
  assert (Hcase :
    (exists a d c p,
       idx header "account" = Some a /\ idx header "description" = Some d
       /\ idx header "current_budget" = Some c
       /\ idx header "proposed_budget" = Some p)
    \/ (idx header "account" = None \/ idx header "description" = None
        \/ idx header "current_budget" = None
        \/ idx header "proposed_budget" = None)).
  { destruct (idx header "account") as [a|]; [|right; now left].
    destruct (idx header "description") as [d|]; [|right; right; now left].
    destruct (idx header "current_budget") as [c|];
      [|right; right; right; now left].
    destruct (idx header "proposed_budget") as [p|];
      [|right; right; right; now right].
    left. now exists a, d, c, p. }
  destruct Hcase as [(a & d & c & p & Ea & Ed & Ec & Ep) | Hmiss].
  - rewrite Ea, Ed, Ec, Ep in Hreq |- *.
    split; [split; [discriminate | intros H; lia]|].
    split.
    + split; [discriminate|]. intros [_ Hex]. apply Hreq in Hex.
      destruct Hex as [H|[H|[H|H]]]; discriminate H.
    + intros rows [= <-]. split; [exact Hge|]. split; [|split].
      * intros n Hn. destruct (decide (n ∈ names)) as [|Hm]; [assumption|].
        exfalso. assert (Hex : exists n, n ∈ required /\ n ∉ names) by eauto.
        apply Hreq in Hex. destruct Hex as [H|[H|[H|H]]]; discriminate H.
      * rewrite length_fmap. destruct lines; simpl in *; lia.
      * intros Hno. apply He in Hno. rewrite Hno.
        apply Forall_fmap, Forall_forall. intros l _. reflexivity.
  - rewrite (four_columns _ _ _ _ _ _ Hmiss).
    split; [split; [discriminate | intros H; lia]|].
    split; [|discriminate].
    split; [intros _|reflexivity]. split; [exact Hge|]. now apply Hreq.
Qed.

(** A file with the line ends of one system or of the other is read the
    same: when the text has no carriage return, turning each of its line
    feeds into carriage return and line feed changes nothing to what
    [parseBudgetCsv] answers. *)
Theorem parseBudgetCsv_crlf (txt : string) :
  includes CR txt = false ->
  split_lines (to_crlf txt) = split_lines txt
  /\ parseBudgetCsv (to_crlf txt) = parseBudgetCsv txt.
Proof.
  intros H.
  assert (Hs : split_lines (to_crlf txt) = split_lines txt).
  { induction txt as [|a s IH]; [reflexivity|].
    cbn [includes] in H. apply orb_false_iff in H as [Ha Hs].
    specialize (IH Hs). cbn [to_crlf].
    destruct (Ascii.eqb a LF) eqn:E.
    - cbn [split_lines]. rewrite E.
      change (Ascii.eqb CR LF) with false. change (Ascii.eqb CR CR) with true.
      cbv iota. change (Ascii.eqb LF LF) with true. cbv iota. now rewrite IH.
    - cbn [split_lines]. rewrite E, Ha, IH. reflexivity. }
  split; [exact Hs|]. unfold parseBudgetCsv. now rewrite Hs.
Qed.

(* ================================================================== *)
(** * The statements on the sample budget, continued *)
(* ================================================================== *)



Lemma computeTransferImpact_no_rate_witness :
  computeTransferImpact None "52000" (of_Z 700) BudgetTotal
  = Ok {| source_out := of_Z 700; direct_to_dest := of_Z 700;
          fa_added := of_Z 0; eligible := isMtdcEligible "52000" None |}.
Proof.
  apply (computeTransferImpact_no_rate None "52000" (of_Z 700) BudgetTotal).
  - reflexivity.
  - left. reflexivity.
Defined.




Lemma applyOne_posts_witness :
  length Cases.rows1
  = length (fst (working_copy (fandaAcctOf (Some Samples.mockRates))
                   Samples.mockBudget)).
Proof.
  pose proof (applyOne_posts Samples.no_exp_form "t1" (Some Samples.mockRates)
                Samples.mockBudget Samples.mockBudget "53800" "52000"
                (of_Z 1000000) DirectToDest Cases.rows1 (Cases.log1 "t1"))
    as H.
  cbv zeta in H. apply H. vm_compute. reflexivity.
Defined.


Lemma projectWithTransfers_mapping_witness :
  length [Cases.log1 "id"] = length [Cases.tenThousand].
Proof.
  apply (projectWithTransfers_mapping Samples.no_exp_form (fun _ => "id")
           (Some Samples.mockRates) Samples.mockBudget Samples.mockBudget
           [Cases.tenThousand]
           {| finalRows := Cases.rows1; mapping := [Cases.log1 "id"] |}).
  vm_compute. reflexivity.
Defined.

Lemma projectWithTransfers_untouched_witness :
  proposed_budget <$> Cases.rows1 !! 1%nat
  = proposed_budget
    <$> fst (working_copy (fandaAcctOf (Some Samples.mockRates))
               Samples.mockBudget) !! 1%nat.
Proof.
  pose proof (projectWithTransfers_untouched Samples.no_exp_form
                (fun _ => "id") (Some Samples.mockRates) Samples.mockBudget
                Samples.mockBudget [Cases.tenThousand]
                {| finalRows := Cases.rows1; mapping := [Cases.log1 "id"] |}
                1%nat) as H.
  cbv zeta in H. apply H.
  - vm_compute. reflexivity.
  - discriminate.
  - vm_compute. reflexivity.
  - apply Forall_cons_2; [|apply Forall_nil_2].
    split; vm_compute; reflexivity.
Defined.


Lemma applyClick_sound_witness :
  [Cases.tenThousand]
  = ([] ++ [ {| t_id := "a"; t_from := "53800"; t_to := "52000";
                amount_cents :=
                  Engine.toCents Samples.no_exp_form (inr "10000.00");
                t_mode := DirectToDest |} ])%list
  /\ exists impact,
       App.preview Samples.no_exp_form "52000" "10000.00" DirectToDest
         (Some Samples.mockRates) = Some impact
       /\ forall id',
            exists rows',
              Engine.applyOne Samples.no_exp_form id'
                (Some Samples.mockRates) Samples.mockBudget
                Samples.mockBudget "53800" "52000"
                (Engine.toCents Samples.no_exp_form (inr "10000.00"))
                DirectToDest
              = Ok (rows', logRowOf id' "53800" "52000" impact DirectToDest).
Proof.
  pose proof (applyClick_sound Samples.no_exp_form "a" "53800" "52000"
                "10000.00" DirectToDest Samples.mockBudget Samples.mockBudget
                (Some Samples.mockRates) [] [Cases.tenThousand]) as H.
  cbv zeta in H. apply H.
  - vm_compute. reflexivity.
  - apply list_elem_of_In. vm_compute. tauto.
  - apply list_elem_of_In. vm_compute. tauto.
  - discriminate.
  - vm_compute. discriminate.
Defined.


Lemma csv_cell_inj_witness : "Supplies, lab" = "Supplies, lab".
Proof. apply (csv_cell_inj "Supplies, lab" "Supplies, lab"). reflexivity. Defined.


Lemma parseBudgetCsv_crlf_witness :
  split_lines (to_crlf ("a,b" ++ String LF "1,2"))
  = split_lines ("a,b" ++ String LF "1,2")
  /\ parseBudgetCsv (to_crlf ("a,b" ++ String LF "1,2"))
     = parseBudgetCsv ("a,b" ++ String LF "1,2").
Proof.
  apply (parseBudgetCsv_crlf ("a,b" ++ String LF "1,2")). reflexivity.
Defined.
